(** * aicommit: configuration store, reply normaliser and generation pipeline

    A shallow embedding of the configuration module that run.ts imports as
    [./config] (readConfigFile, validateKeys, cleanUpTemplates, setConfigs)
    and of [src/run.ts] (normalizeCommitSuggestions, run), with the
    properties of the specification stated over it.

    Conventions.
    - A JavaScript string is the list of its UTF-16 code units ([str]).
    - The regular expressions of the source are kept as data ([regex]) and run
      by a backtracking matcher ([exec]) that follows the ECMAScript
      semantics of the constructs they use.
    - JavaScript objects that the code mutates in place live in an explicit
      store, so that the aliasing between [DEFAULT_CONFIG] and the
      configurations handed out by [readConfigFile] is visible. *)

From Stdlib Require Import NArith ZArith Ascii String.
From stdpp Require Import gmap list fin_maps.

#[local] Set Warnings "-register-all".
#[local] Open Scope N_scope.

(** ** Strings *)

Abbreviation char := N (only parsing).
Abbreviation str := (list N) (only parsing).

(** Literals: the code units of an ASCII literal. *)
Fixpoint u (s : string) : str :=
  match s with
  | EmptyString => []
  | String a r => N_of_ascii a :: u r
  end.

Definition LF : char := 10.
Definition CR : char := 13.

(** ECMAScript LineTerminator: LF, CR, LS, PS. *)
Definition is_line_terminator (c : char) : bool :=
  (c =? 10) || (c =? 13) || (c =? 8232) || (c =? 8233).

(** ECMAScript WhiteSpace: TAB, VT, FF, ZWNBSP and the space separators. *)
Definition is_white_space (c : char) : bool :=
  (c =? 9) || (c =? 11) || (c =? 12) || (c =? 32) || (c =? 160)
  || (c =? 5760) || ((8192 <=? c) && (c <=? 8202))
  || (c =? 8239) || (c =? 8287) || (c =? 12288) || (c =? 65279).

(** [\s], and the characters removed by [String.prototype.trim]. *)
Definition is_space (c : char) : bool :=
  is_white_space c || is_line_terminator c.

(** [\d] *)
Definition is_digit (c : char) : bool := (48 <=? c) && (c <=? 57).

(** [.] without the [s] flag *)
Definition is_dot (c : char) : bool := negb (is_line_terminator c).

(** [[\.\)]] *)
Definition is_dot_or_paren (c : char) : bool := (c =? 46) || (c =? 41).

(** [[-*]] *)
Definition is_dash_or_star (c : char) : bool := (c =? 45) || (c =? 42).

(** The class of the three quote characters: double quote, single quote,
    backtick. *)
Definition is_quote (c : char) : bool := (c =? 34) || (c =? 39) || (c =? 96).

Fixpoint take_while (p : char -> bool) (s : str) : str :=
  match s with
  | c :: r => if p c then c :: take_while p r else []
  | [] => []
  end.

Fixpoint drop_while (p : char -> bool) (s : str) : str :=
  match s with
  | c :: r => if p c then drop_while p r else s
  | [] => []
  end.

(** [String.prototype.trim] *)
Definition trim (s : str) : str :=
  reverse (drop_while is_space (reverse (drop_while is_space s))).

(** [String.prototype.startsWith] *)
Fixpoint startsWith (s pat : str) : bool :=
  match pat, s with
  | [], _ => true
  | p :: pat', c :: s' => (c =? p) && startsWith s' pat'
  | _ :: _, [] => false
  end.

(** [String.prototype.replaceAll] with a non-empty string pattern and a
    replacement free of [$]: occurrences are found left to right and do not
    overlap.
    [skip] counts the code units of the current occurrence still to drop. *)
Fixpoint replaceAll_from (skip : nat) (pat rep s : str) : str :=
  match s with
  | [] => []
  | c :: r =>
      match skip with
      | S k => replaceAll_from k pat rep r
      | O =>
          if startsWith s pat
          then rep ++ replaceAll_from (length pat - 1) pat rep r
          else c :: replaceAll_from 0 pat rep r
      end
  end.

Definition replaceAll (s pat rep : str) : str := replaceAll_from 0 pat rep s.

(** [String.prototype.split] on a one-unit separator. *)
Fixpoint split (sep : char) (s : str) : list str :=
  match s with
  | [] => [[]]
  | c :: r =>
      if c =? sep then [] :: split sep r
      else match split sep r with
           | l :: ls => (c :: l) :: ls
           | [] => [[c]]
           end
  end.

(** [Array.prototype.join] *)
Fixpoint join (sep : str) (xs : list str) : str :=
  match xs with
  | [] => []
  | [x] => x
  | x :: rest => x ++ sep ++ join sep rest
  end.

(** Decimal rendering of a natural number, as a template literal prints it.
    The fuel [S n] exceeds the number of digits of [n]. *)
Fixpoint decimal_aux (fuel n : nat) (acc : str) : str :=
  match fuel with
  | O => acc
  | S f =>
      let acc' := (48 + N.of_nat (n `mod` 10)) :: acc in
      if (n `div` 10 =? 0)%nat then acc' else decimal_aux f (n `div` 10) acc'
  end.

Definition decimal (n : nat) : str := decimal_aux (S n) n [].

(** ** Regular expressions

    The fragment the source uses: anchors, one code unit of a class, greedy
    repetition of a class, capture groups, and alternation at top level. *)

Inductive node :=
| Bol                                   (* ^ *)
| Eol                                   (* $ *)
| Class (p : char -> bool)              (* one unit of a class *)
| Rep (min : nat) (p : char -> bool)    (* p* is Rep 0 p, p+ is Rep 1 p *)
| Open (i : nat)                        (* ( of group i *)
| Close (i : nat).                      (* ) of group i *)

Abbreviation regex := (list (list node)) (only parsing).

(** The state of a match: the end position, the input left after it, and
    the text captured by each closed group. *)
Record match_state := MatchState {
  m_end : nat;
  m_rest : str;
  m_caps : list (nat * str);
}.

Fixpoint assoc {A} (i : nat) (l : list (nat * A)) : option A :=
  match l with
  | [] => None
  | (j, a) :: r => if (i =? j)%nat then Some a else assoc i r
  end.

(** Greedy choice: the largest [k] in [min..n] on which [f] succeeds. *)
Fixpoint first_down {A} (f : nat -> option A) (min n : nat) : option A :=
  if (n <? min)%nat then None
  else match f n with
       | Some a => Some a
       | None => match n with
                 | O => None
                 | S n' => first_down f min n'
                 end
       end.

(** [exec r pos s opens caps]: match the nodes [r] against [s], the input
    from position [pos] on, backtracking over the greedy repetitions.
    [opens] holds, for each group entered, the input at its opening; on
    closing, the group captures what was consumed since. *)
Fixpoint exec (r : list node) (pos : nat) (s : str)
    (opens : list (nat * str)) (caps : list (nat * str))
    : option match_state :=
  match r with
  | [] => Some (MatchState pos s caps)
  | Bol :: r' => if (pos =? 0)%nat then exec r' pos s opens caps else None
  | Eol :: r' => match s with [] => exec r' pos s opens caps | _ :: _ => None end
  | Class p :: r' =>
      match s with
      | c :: s' => if p c then exec r' (S pos) s' opens caps else None
      | [] => None
      end
  | Rep min p :: r' =>
      first_down (fun k => exec r' (pos + k) (drop k s) opens caps)
                 min (length (take_while p s))
  | Open i :: r' => exec r' pos s ((i, s) :: opens) caps
  | Close i :: r' =>
      match assoc i opens with
      | Some s0 => exec r' pos s opens ((i, take (length s0 - length s) s0) :: caps)
      | None => None
      end
  end.

(** The alternatives are tried in order at one start position. *)
Fixpoint exec_alts (alts : regex) (pos : nat) (s : str) : option match_state :=
  match alts with
  | [] => None
  | r :: alts' =>
      match exec r pos s [] [] with
      | Some st => Some st
      | None => exec_alts alts' pos s
      end
  end.

(** RegExp exec from [pos]: the leftmost start position that matches, as the
    number of code units skipped before it. Recursion is on the input. *)
Fixpoint search (alts : regex) (pos : nat) (s : str) : option (nat * match_state) :=
  match exec_alts alts pos s with
  | Some st => Some (O, st)
  | None =>
      match s with
      | [] => None
      | _ :: s' =>
          match search alts (S pos) s' with
          | Some (k, st) => Some (S k, st)
          | None => None
          end
      end
  end.

(** [s.match(re)[i]] for a regex without the [g] flag; [None] when the
    regex does not match. *)
Definition match_group (alts : regex) (i : nat) (s : str) : option str :=
  match search alts 0%nat s with
  | Some (_, st) => assoc i (m_caps st)
  | None => None
  end.

(** [s.replace(re, empty)] for a regex with the [g] flag whose matches are
    never empty: every match, found left to right from the end of the
    previous one, is removed. The fuel bounds the number of matches. *)
Fixpoint remove_matches (fuel : nat) (alts : regex) (pos : nat) (s : str) : str :=
  match fuel with
  | O => s
  | S f =>
      match search alts pos s with
      | None => s
      | Some (k, st) => take k s ++ remove_matches f alts (m_end st) (m_rest st)
      end
  end.

Definition replace_global_empty (alts : regex) (s : str) : str :=
  remove_matches (S (length s)) alts 0%nat s.

(** ** src/run.ts: normalizeCommitSuggestions *)

(** [/^(\d+)\s*[\.\)]\s*(.+)\s*$/] *)
Definition re_numbered : regex :=
  [[Bol; Open 1; Rep 1 is_digit; Close 1; Rep 0 is_space;
    Class is_dot_or_paren; Rep 0 is_space;
    Open 2; Rep 1 is_dot; Close 2; Rep 0 is_space; Eol]].

(** [/^[-*]\s+(.+)\s*$/] *)
Definition re_bullet : regex :=
  [[Bol; Class is_dash_or_star; Rep 1 is_space;
    Open 1; Rep 1 is_dot; Close 1; Rep 0 is_space; Eol]].

(** The quote-stripping regex of the source: a run of quote characters at
    the start, or a run of quote characters at the end, with the [g] flag. *)
Definition re_quotes : regex :=
  [[Bol; Rep 1 is_quote]; [Rep 1 is_quote; Eol]].

Definition fence : str := u "```".

(** The [lines] of the source: CRLF normalised, split, trimmed, blank lines
    and code-fence lines dropped. *)
Definition lines (raw : str) : list str :=
  filter (fun line => (bool_decide (line = fence) || startsWith line fence) = false)
    (filter (fun line => (0 < length line)%nat)
       (map trim (split LF (replaceAll raw [CR; LF] [LF])))).

Definition numbered (line : str) : option str := match_group re_numbered 2 line.
Definition bullet (line : str) : option str := match_group re_bullet 1 line.

Definition fromNumbered (raw : str) : list str := omap numbered (lines raw).

Definition fromBullets (raw : str) : list str :=
  if (length (fromNumbered raw) =? 0)%nat then omap bullet (lines raw) else [].

Definition candidates (raw : str) : list str :=
  if (0 <? length (fromNumbered raw))%nat then fromNumbered raw else fromBullets raw.

Definition clean (message : str) : str :=
  trim (replace_global_empty re_quotes message).

Definition normalizeCommitSuggestions (raw : str) : list str :=
  filter (fun message => (0 < length message)%nat) (map clean (candidates raw)).

(** ** src/run.ts: String.prototype.replace with a string pattern *)

(** [String.prototype.indexOf] *)
Fixpoint indexOf (s pat : str) : option nat :=
  if startsWith s pat then Some O
  else match s with
       | [] => None
       | _ :: r => S <$> indexOf r pat
       end.

(** ECMAScript GetSubstitution for a match without capture groups: in the
    replacement text, [$$] stands for a dollar sign, [$&] for the matched
    text, [$`] for the text before the match and [$'] for the text after
    it; any other dollar sign stands for itself. *)
Fixpoint GetSubstitution (matched before after rep : str) : str :=
  match rep with
  | [] => []
  | c :: r =>
      if c =? 36 then
        match r with
        | d :: r' =>
            if d =? 36 then 36 :: GetSubstitution matched before after r'
            else if d =? 38 then matched ++ GetSubstitution matched before after r'
            else if d =? 96 then before ++ GetSubstitution matched before after r'
            else if d =? 39 then after ++ GetSubstitution matched before after r'
            else c :: GetSubstitution matched before after r
        | [] => [c]
        end
      else c :: GetSubstitution matched before after r
  end.

(** [s.replace(pat, rep)] for strings [pat] and [rep]: only the first
    occurrence of [pat] is replaced. *)
Definition replace (s pat rep : str) : str :=
  match indexOf s pat with
  | None => s
  | Some i =>
      let before := take i s in
      let after := drop (i + length pat) s in
      before ++ GetSubstitution pat before after rep ++ after
  end.

Definition placeholder : str := u "{{diff}}".

(** [template.replace(placeholder, diff)], line 118 of run.ts. *)
Definition render (template diff : str) : str := replace template placeholder diff.

(** ** Values, objects and files *)

(** A JSON value, as [JSON.parse] returns it. An object is the finite map of
    its own properties. Numbers are the integers. *)
Inductive json :=
| JNull
| JBool (b : bool)
| JNum (n : Z)
| JStr (s : str)
| JArr (xs : list json)
| JObj (m : gmap str json).

(** The address of an object in the store: the objects made by one
    [JSON.parse] share the first component and are told apart by the
    top-level key under which they were found. *)
Definition loc : Type := nat * str.

(** The value of a top-level property of a configuration object. An object
    is held by reference; the values inside it are never mutated by the
    program beyond adding and deleting its properties, and are kept as JSON. *)
Inductive val :=
| VUndefined
| VNull
| VBool (b : bool)
| VNum (n : Z)
| VStr (s : str)
| VArr (xs : list json)
| VRef (l : loc).

(** A file: its text, and what [JSON.parse] returns for that text ([None]
    when it throws). *)
Record file := File {
  text : str;
  parsed : option json;
}.

Inductive error :=
| SyntaxError                         (* thrown by JSON.parse *)
| InvalidConfigProperty (key : str)   (* thrown by validateKeys *)
| TypeError                           (* property access on undefined or null *)
| Rejected (reason : str)             (* a collaborator's promise rejected *)
| Unmodelled.                         (* a value outside interface Config
                                         reached a place where the model does
                                         not follow JavaScript any further *)

(** The state of the process and of its surroundings. *)
Record process := Process {
  env : gmap str str;                           (* process.env *)
  disk : gmap str file;                         (* files by path *)
  DEFAULT_CONFIG : gmap str val;                (* the module-level object *)
  objects : gmap nat (gmap str (gmap str json));(* objects held by reference *)
  next_alloc : nat;                             (* next unused first component *)
  stdout : list str;                            (* writes to process.stdout *)
  stderr : list str;                            (* console.error calls *)
}.

Inductive outcome (A : Type) :=
| Ok (a : A)
| Throw (e : error)
| Exit (code : nat).                            (* process.exit(code) *)
Arguments Ok {A} a.
Arguments Throw {A} e.
Arguments Exit {A} code.

Definition M (A : Type) : Type := process -> outcome A * process.

Definition ret {A} (a : A) : M A := fun p => (Ok a, p).

Definition bind {A B} (m : M A) (k : A -> M B) : M B :=
  fun p =>
    match m p with
    | (Ok a, p') => k a p'
    | (Throw e, p') => (Throw e, p')
    | (Exit c, p') => (Exit c, p')
    end.

Notation "x <- m ;; k" := (bind m (fun x => k))
  (at level 100, m at next level, right associativity).
Notation "m ;;; k" := (bind m (fun _ => k))
  (at level 100, right associativity).

Definition throw {A} (e : error) : M A := fun p => (Throw e, p).
Definition process_exit {A} (code : nat) : M A := fun p => (Exit code, p).
Definition get {A} (f : process -> A) : M A := fun p => (Ok (f p), p).
Definition modify (f : process -> process) : M unit := fun p => (Ok tt, f p).

Definition when_ (b : bool) (m : M unit) : M unit := if b then m else ret tt.

Definition set_disk (d : gmap str file) (p : process) : process :=
  Process (env p) d (DEFAULT_CONFIG p) (objects p) (next_alloc p) (stdout p) (stderr p).
Definition set_DEFAULT_CONFIG (c : gmap str val) (p : process) : process :=
  Process (env p) (disk p) c (objects p) (next_alloc p) (stdout p) (stderr p).
Definition set_objects (o : gmap nat (gmap str (gmap str json))) (n : nat)
    (p : process) : process :=
  Process (env p) (disk p) (DEFAULT_CONFIG p) o n (stdout p) (stderr p).
Definition console_error (line : str) : M unit :=
  modify (fun p => Process (env p) (disk p) (DEFAULT_CONFIG p) (objects p)
                     (next_alloc p) (stdout p) (stderr p ++ [line])).
Definition stdout_write (chunk : str) : M unit :=
  modify (fun p => Process (env p) (disk p) (DEFAULT_CONFIG p) (objects p)
                     (next_alloc p) (stdout p ++ [chunk]) (stderr p)).

(** JavaScript truthiness. *)
Definition truthy (v : val) : bool :=
  match v with
  | VUndefined | VNull => false
  | VBool b => b
  | VNum n => negb (n =? 0)%Z
  | VStr s => negb (bool_decide (s = []))
  | VArr _ | VRef _ => true
  end.

Definition lookup_obj (o : gmap nat (gmap str (gmap str json))) (l : loc)
    : option (gmap str json) :=
  o !! l.1 ≫= (fun cell => cell !! l.2).

Definition alter_obj (f : gmap str json -> gmap str json) (l : loc)
    (o : gmap nat (gmap str (gmap str json))) : gmap nat (gmap str (gmap str json)) :=
  alter (alter f l.2) l.1 o.

(** The own enumerable properties that an object spread copies from a
    parsed JSON value: those of an object, the indexed elements of an array
    or of a string, none for the other values. *)
Definition own_props (j : json) : gmap str json :=
  match j with
  | JObj m => m
  | JArr xs => list_to_map (imap (fun i x => (decimal i, x)) xs)
  | JStr s => list_to_map (imap (fun i c => (decimal i, JStr [c])) s)
  | JNull | JBool _ | JNum _ => ∅
  end.

Definition as_object (j : json) : option (gmap str json) :=
  match j with JObj m => Some m | _ => None end.

(** The value of property [k] of the object parsed in allocation [n]. *)
Definition to_val (n : nat) (k : str) (j : json) : val :=
  match j with
  | JNull => VNull
  | JBool b => VBool b
  | JNum z => VNum z
  | JStr s => VStr s
  | JArr xs => VArr xs
  | JObj _ => VRef (n, k)
  end.

(** What [JSON.stringify] keeps of a property value; a property whose value
    is undefined is left out. A reference always points into the store; one
    that did not would be left out as well. *)
Definition to_json (o : gmap nat (gmap str (gmap str json))) (v : val) : option json :=
  match v with
  | VUndefined => None
  | VNull => Some JNull
  | VBool b => Some (JBool b)
  | VNum z => Some (JNum z)
  | VStr s => Some (JStr s)
  | VArr xs => Some (JArr xs)
  | VRef l => JObj <$> lookup_obj o l
  end.

(** ** src/config.ts *)

(** A configuration object handed to a caller is either [DEFAULT_CONFIG]
    itself or an object of its own. *)
Inductive config :=
| TheDefault
| Own (props : gmap str val).

Definition OPENAI_API_KEY : str := u "OPENAI_API_KEY".
Definition OPENAI_API_BASE : str := u "OPENAI_API_BASE".
Definition OPENAI_MODEL : str := u "OPENAI_MODEL".
Definition model : str := u "model".
Definition templates : str := u "templates".
Definition default_template : str := u "default".

Section Config.

(** [path.join(os.homedir(), ".bunnai")] and
    [path.join(os.homedir(), ".bunnai-template")], fixed when the module is
    loaded; and [JSON.stringify] as a function from the value to its text. *)
Variable configPath : str.
Variable defaultTemplatePath : str.
Variable JSON_stringify : json -> str.

(** The store as the module leaves it when loaded: [DEFAULT_CONFIG], whose
    [templates] object is the object at [(0, templates)]. *)
Definition initial_DEFAULT_CONFIG : gmap str val :=
  <[OPENAI_API_KEY := VStr []]>
    (<[OPENAI_API_BASE := VStr (u "https://api.openai.com/v1")]>
       (<[model := VStr (u "gpt-4-0125-preview")]>
          (<[templates := VRef (O, templates)]> ∅))).

Definition initial_objects : gmap nat (gmap str (gmap str json)) :=
  {[ O := {[ templates := {[ default_template := JStr defaultTemplatePath ]} ]} ]}.

Definition initial (e : gmap str str) (d : gmap str file) : process :=
  Process e d initial_DEFAULT_CONFIG initial_objects 1 [] [].

(** The own properties of a configuration object. *)
Definition props_of (p : process) (c : config) : gmap str val :=
  match c with
  | TheDefault => DEFAULT_CONFIG p
  | Own m => m
  end.

(** [config[key] = value] *)
Definition assign (c : config) (key : str) (value : val) : M config :=
  match c with
  | TheDefault =>
      modify (fun p => set_DEFAULT_CONFIG (<[key := value]> (DEFAULT_CONFIG p)) p) ;;;
      ret TheDefault
  | Own m => ret (Own (<[key := value]> m))
  end.

(** [{ ...DEFAULT_CONFIG, ...fileConfig }]: a new object; the objects among
    the values of [fileConfig] enter the store, those of [DEFAULT_CONFIG] are
    shared with it. *)
Definition spread_over_default (fileConfig : json) : M config :=
  fun p =>
    let n := next_alloc p in
    let props := own_props fileConfig in
    (Ok (Own (map_imap (fun k j => Some (to_val n k j)) props ∪ DEFAULT_CONFIG p)),
     set_objects (<[n := omap as_object props]> (objects p)) (S n) p).

(** [if (process.env.NAME) config.key = process.env.NAME] *)
Definition override_from_env (name key : str) (c : config) : M config :=
  e <- get env ;;
  match e !! name with
  | Some v => if bool_decide (v = []) then ret c else assign c key (VStr v)
  | None => ret c
  end.

Definition readConfigFile : M config :=
  d <- get disk ;;
  config <- match d !! configPath with
            | Some f =>
                match parsed f with
                | Some fileConfig => spread_over_default fileConfig
                | None => throw SyntaxError
                end
            | None => ret TheDefault
            end ;;
  config <- override_from_env OPENAI_API_KEY OPENAI_API_KEY config ;;
  config <- override_from_env OPENAI_API_BASE OPENAI_API_BASE config ;;
  config <- override_from_env OPENAI_MODEL model config ;;
  ret config.

Fixpoint validate (configKeys : gset str) (keys : list str) : M unit :=
  match keys with
  | [] => ret tt
  | key :: rest =>
      if bool_decide (key ∈ configKeys) then validate configKeys rest
      else throw (InvalidConfigProperty key)
  end.

Definition validateKeys (keys : list str) : M unit :=
  configKeys <- get (fun p => dom (DEFAULT_CONFIG p)) ;;
  validate configKeys keys.

Definition path_of (j : json) : option str :=
  match j with JStr s => Some s | _ => None end.

(** [Bun.file(templatePath).exists()] for a path held in a JSON value. *)
Definition file_exists (d : gmap str file) (j : json) : bool :=
  match path_of j with
  | Some path => bool_decide (is_Some (d !! path))
  | None => false
  end.

(** The [templates] object after the loop of cleanUpTemplates: the entries
    whose file does not exist are deleted. *)
Definition prune (d : gmap str file) (t : gmap str json) : gmap str json :=
  filter (fun kv => file_exists d kv.2 = true) t.

(** cleanUpTemplates. The loop runs over the properties of an object; over
    undefined, null, a boolean or a number it does not run at all. A
    [templates] that is a string or an array, or a path that is not a
    string, is outside interface Config. *)
Definition cleanUpTemplates (c : config) : M config :=
  props <- get (fun p => props_of p c) ;;
  match props !! templates with
  | Some (VRef l) =>
      o <- get objects ;;
      d <- get disk ;;
      match lookup_obj o l with
      | Some t =>
          if bool_decide (map_Forall (fun _ j => is_Some (path_of j)) t)
          then modify (fun p => set_objects (alter_obj (prune d) l (objects p))
                                  (next_alloc p) p) ;;;
               ret c
          else throw Unmodelled
      | None => throw Unmodelled
      end
  | Some (VStr _) | Some (VArr _) => throw Unmodelled
  | Some VUndefined | Some VNull | Some (VBool _) | Some (VNum _) | None => ret c
  end.

(** [JSON.stringify(config)] as the value that [JSON.parse] gives back. *)
Definition snapshot (p : process) (c : config) : json :=
  JObj (omap (to_json (objects p)) (props_of p c)).

Fixpoint assign_all (c : config) (keyValues : list (str * val)) : M config :=
  match keyValues with
  | [] => ret c
  | (key, value) :: rest => c' <- assign c key value ;; assign_all c' rest
  end.

Definition setConfigs (keyValues : list (str * val)) : M unit :=
  config <- readConfigFile ;;
  validateKeys (map fst keyValues) ;;;
  config <- assign_all config keyValues ;;
  modify (fun p =>
            let j := snapshot p config in
            set_disk (<[configPath := File (JSON_stringify j) (Some j)]> (disk p)) p).

End Config.

(** ** src/run.ts: run

    run.ts holds two generations of [run]; the one embedded here is the first
    (lines 52 to 174), which normalises the reply. *)

Record RunOptions := { verbose : bool }.

(** An error of simple-git is handed to [console.error] as an object,
    which prints it through the inspector of the runtime, and is thrown
    again: it is given by the text that string interpolation prints for it
    and by the text of the inspector, which differ. *)
Record git_error := GitError {
  interpolated : str;                  (* `${error}` *)
  inspected : str;                     (* the object as console.error prints it *)
}.

(** The collaborators: the shell, simple-git and the chat endpoint. An
    error is given by the text that string interpolation prints for it. *)
Inductive choice :=
| NoChoice (error_text : str)          (* choices[0] is undefined *)
| Message (content : option str).      (* message.content, null as None *)

Inductive chat_result :=
| ChatRejected (error_text : str)
| ChatResponse (dump : str) (first : choice).   (* dump: JSON.stringify(response, null, 2) *)

Record request := Request {
  apiKey : val;
  baseURL : val;
  request_model : val;
  system_content : str;
  user_content : str;
}.

Record collaborators := {
  pwd : str;                           (* output of the pwd command *)
  git_diff : str + git_error;          (* git.diff(["--cached"]), or its error *)
  create : request -> chat_result;     (* oai.chat.completions.create *)
}.

Definition system_prompt : str :=
  u "You are a commit message generator. I will provide you with a git diff, and you should generate 5 different appropriate commit messages using the conventional commit format. Output ONLY the commit messages in a numbered list format like:"
  ++ [LF] ++ u "1. first commit message"
  ++ [LF] ++ u "2. second commit message"
  ++ [LF] ++ u "3. third commit message"
  ++ [LF] ++ u "4. fourth commit message"
  ++ [LF] ++ u "5. fifth commit message"
  ++ [LF; LF] ++ u "Do not write any explanations or other words.".

Definition msg_unknown_template (name : str) : str :=
  u "Error: Template '" ++ name ++ u "' does not exist in the configuration.".
Definition msg_template_file_missing (path : str) : str :=
  u "Error: The template file '" ++ path ++ u "' does not exist.".
Definition msg_no_api_key : str := u "OPENAI_API_KEY is not set".
Definition msg_no_model : str := u "Model is not set".
Definition msg_no_changes (dir : str) : str := u "No changes to commit in " ++ dir.
Definition msg_fetch_failed (error_text : str) : str :=
  u "Failed to fetch from openai: " ++ error_text.
Definition msg_no_content : str := u "Failed to generate commit message".
Definition msg_unparsable : str :=
  u "Failed to parse commit messages from model output. Re-run with --verbose to inspect the raw response.".

Definition property (props : gmap str val) (key : str) : val :=
  default VUndefined (props !! key).

(** [Object.prototype.hasOwnProperty.call(x, name)] *)
Definition hasOwnProperty (x : val) (name : str) : M bool :=
  match x with
  | VRef l =>
      o <- get objects ;;
      match lookup_obj o l with
      | Some t => ret (bool_decide (is_Some (t !! name)))
      | None => throw Unmodelled
      end
  | VUndefined | VNull => throw TypeError
  | VBool _ | VNum _ => ret false
  | VStr _ | VArr _ => throw Unmodelled
  end.

(** [x[name]] for a name that is not an index, a length or a property of a
    prototype; [None] is undefined. *)
Definition get_named (x : val) (name : str) : M (option json) :=
  match x with
  | VRef l =>
      o <- get objects ;;
      match lookup_obj o l with
      | Some t => ret (t !! name)
      | None => throw Unmodelled
      end
  | VUndefined | VNull => throw TypeError
  | VBool _ | VNum _ | VStr _ | VArr _ => ret None
  end.

(** [console.error("Error getting git diff:", error)] prints its two
    arguments with a space between them. *)
Definition getStagedDiff (ext : collaborators) : M str :=
  match git_diff ext with
  | inl diff => ret diff
  | inr error =>
      console_error (u "Error getting git diff:" ++ u " " ++ inspected error) ;;;
      throw (Rejected (interpolated error))
  end.

(** [suggestions.map((s, idx) => `${idx + 1}. ${s}`).join("\n")] *)
Definition numbered_list (suggestions : list str) : str :=
  join [LF] (imap (fun idx s => decimal (idx + 1) ++ u ". " ++ s) suggestions).

Section Run.

Variable configPath : str.
Variable ext : collaborators.

Definition resolve_template (options : RunOptions) (props : gmap str val)
    (templateName : option str) : M (option json) :=
  match templateName with
  | Some name =>
      if bool_decide (name = []) then
        path <- get_named (property props templates) default_template ;;
        when_ (verbose options) (console_error (u "Using default template.")) ;;;
        ret path
      else
        has <- hasOwnProperty (property props templates) name ;;
        (if has then ret tt
         else console_error (msg_unknown_template name) ;;; process_exit 1) ;;;
        path <- get_named (property props templates) name ;;
        when_ (verbose options) (console_error (u "Using template: " ++ name)) ;;;
        ret path
  | None =>
      path <- get_named (property props templates) default_template ;;
      when_ (verbose options) (console_error (u "Using default template.")) ;;;
      ret path
  end.

(** The part of [run] inside [try]: the catch clause reports a rejected
    request, and a missing first choice, in the same way. *)
Definition ask_model (options : RunOptions) (props : gmap str val)
    (rendered_template : str) : M unit :=
  when_ (verbose options) (console_error (u "Sending request to OpenAI...")) ;;;
  match create ext (Request (property props OPENAI_API_KEY)
                      (property props OPENAI_API_BASE) (property props model)
                      system_prompt rendered_template) with
  | ChatRejected error_text =>
      console_error (msg_fetch_failed error_text) ;;; process_exit 1
  | ChatResponse dump first =>
      when_ (verbose options)
        (console_error (u "Response received from OpenAI.") ;;; console_error dump) ;;;
      match first with
      | NoChoice error_text =>
          console_error (msg_fetch_failed error_text) ;;; process_exit 1
      | Message content =>
          match content with
          | None | Some [] => console_error msg_no_content ;;; process_exit 1
          | Some content =>
              let suggestions := normalizeCommitSuggestions content in
              if (length suggestions =? 0)%nat then
                console_error msg_unparsable ;;; process_exit 1
              else stdout_write (numbered_list suggestions)
          end
      end
  end.

Definition run (options : RunOptions) (templateName : option str) : M unit :=
  config <- readConfigFile configPath ;;
  when_ (verbose options) (console_error (u "Configuration loaded successfully.")) ;;;
  props <- get (fun p => props_of p config) ;;
  templateFilePath <- resolve_template options props templateName ;;
  path <- match templateFilePath with
          | Some (JStr path) => ret path
          | _ => throw Unmodelled          (* Bun.file of a value that is not a string *)
          end ;;
  d <- get disk ;;
  match d !! path with
  | None => console_error (msg_template_file_missing path) ;;; process_exit 1
  | Some templateFile =>
      when_ (verbose options) (console_error (u "Template file found: " ++ path)) ;;;
      let template := text templateFile in
      when_ (verbose options) (console_error (u "Template file read successfully.")) ;;;
      let target_dir := trim (pwd ext) in
      when_ (verbose options) (console_error (u "Target directory: " ++ target_dir)) ;;;
      (if truthy (property props OPENAI_API_KEY) then ret tt
       else console_error msg_no_api_key ;;; process_exit 1) ;;;
      (if truthy (property props model) then ret tt
       else console_error msg_no_model ;;; process_exit 1) ;;;
      diff <- getStagedDiff ext ;;
      when_ (verbose options)
        (console_error (u "Git diff retrieved:" ++ [LF] ++ u " " ++ diff)) ;;;
      (if (length (trim diff) =? 0)%nat
       then console_error (msg_no_changes target_dir) ;;; process_exit 1
       else ret tt) ;;;
      let rendered_template := render template diff in
      when_ (verbose options) (console_error (u "Template rendered with git diff.")) ;;;
      ask_model options props rendered_template
  end.

End Run.

(** ** Predicates of the statements about the normaliser *)

Definition all (p : char -> bool) (s : str) : Prop := Forall (fun c => p c = true) s.

(** A string that does not end, or start, with white space. *)
Definition ends_clean (s : str) : Prop :=
  forall c, last s = Some c -> is_space c = false.

Definition starts_clean (s : str) : Prop :=
  forall c, head s = Some c -> is_space c = false.

(** The group [(.+)] and the tail [\s*$] that end both line regexes. *)
Definition content_group (i : nat) : list node :=
  [Open i; Rep 1 is_dot; Close i; Rep 0 is_space; Eol].

(** What the numbered regex computes on a line that does not end in white
    space, written without the matcher. *)
Definition numbered_direct (line : str) : option str :=
  if (length (take_while is_digit line) <? 1)%nat then None
  else match drop_while is_space (drop_while is_digit line) with
       | p :: rest =>
           if is_dot_or_paren p then
             let content := drop_while is_space rest in
             if bool_decide (content <> [] /\ all is_dot content)
             then Some content else None
           else None
       | [] => None
       end.

(** The same for the bullet regex. *)
Definition bullet_direct (line : str) : option str :=
  match line with
  | b :: rest =>
      if is_dash_or_star b then
        if (length (take_while is_space rest) <? 1)%nat then None
        else
          let content := drop_while is_space rest in
          if bool_decide (content <> [] /\ all is_dot content)
          then Some content else None
      else None
  | [] => None
  end.

(** A message that neither starts nor ends with a quote character. *)
Definition unquoted (s : str) : Prop :=
  from_option is_quote false (head s) = false
  /\ from_option is_quote false (last s) = false.

(** The line that the pipeline prints for message [m] at number [n]. *)
Definition entry (n : nat) (m : str) : str := decimal n ++ u ". " ++ m.

(** What every message kept by the normaliser satisfies. *)
Definition message_ok (m : str) : Prop :=
  m <> [] /\ starts_clean m /\ ends_clean m /\ all is_dot m.

(** A line that [lines] keeps as it is. *)
Definition line_ok (l : str) : Prop :=
  Forall (fun c => c <> LF /\ c <> CR) l /\ starts_clean l /\ ends_clean l
  /\ l <> [] /\ (bool_decide (l = fence) || startsWith l fence) = false.

(** The lines that the numbered regex captures, and what it captures: digits,
    optional white space, a dot or a closing parenthesis, optional white
    space, then the content, which holds no line terminator. *)
Definition numbered_shape (line content : str) : Prop :=
  exists digits gap1 mark gap2,
    line = digits ++ gap1 ++ mark :: gap2 ++ content
    /\ digits <> [] /\ all is_digit digits
    /\ all is_space gap1
    /\ is_dot_or_paren mark = true
    /\ all is_space gap2
    /\ content <> [] /\ starts_clean content /\ all is_dot content.

(** The shape in the words of the specification: digits, a dot or a closing
    parenthesis, white space, content. *)
Definition claimed_numbered_shape (line content : str) : Prop :=
  exists digits mark gap,
    line = digits ++ mark :: gap ++ content
    /\ digits <> [] /\ all is_digit digits
    /\ is_dot_or_paren mark = true
    /\ gap <> [] /\ all is_space gap
    /\ content <> [].

(** A reply with numbered and bulleted lines. *)
Definition sample_reply : str := u "1. fix: a" ++ [LF] ++ u "- b" ++ [LF] ++ u "2) 'feat: c'".

(** ** Predicates of the statements about the configuration store *)

(** The names that [set] accepts: the own properties of [DEFAULT_CONFIG]. *)
Definition config_keys : gset str :=
  {[ OPENAI_API_KEY; OPENAI_API_BASE; model; templates ]}.

Definition nonempty (o : option str) : option str :=
  match o with
  | Some v => if bool_decide (v = []) then None else Some v
  | None => None
  end.

(** The environment value that overrides a field, if any. *)
Definition env_value (e : gmap str str) (key : str) : option str :=
  if bool_decide (key = OPENAI_API_KEY) then nonempty (e !! OPENAI_API_KEY)
  else if bool_decide (key = OPENAI_API_BASE) then nonempty (e !! OPENAI_API_BASE)
  else if bool_decide (key = model) then nonempty (e !! OPENAI_MODEL)
  else None.

(** A loaded field, in the words of the specification: the environment
    value if there is one, else the persisted value, else the default. *)
Definition loaded_field (e : gmap str str) (n : nat) (record : gmap str json)
    (defaults : gmap str val) (key : str) : option val :=
  match env_value e key with
  | Some v => Some (VStr v)
  | None =>
      match record !! key with
      | Some j => Some (to_val n key j)
      | None => defaults !! key
      end
  end.

Definition override (e : gmap str str) (name key : str) (m : gmap str val)
    : gmap str val :=
  match nonempty (e !! name) with
  | Some v => <[key := VStr v]> m
  | None => m
  end.

Definition env_overlay (e : gmap str str) (m : gmap str val) : gmap str val :=
  override e OPENAI_MODEL model
    (override e OPENAI_API_BASE OPENAI_API_BASE
       (override e OPENAI_API_KEY OPENAI_API_KEY m)).

Definition merged (n : nat) (j : json) (defaults : gmap str val) : gmap str val :=
  map_imap (fun k v => Some (to_val n k v)) (own_props j) ∪ defaults.

(** The [templates] mapping of a configuration, when it is an object. *)
Definition templates_of (p : process) (c : config) : option (gmap str json) :=
  match props_of p c !! templates with
  | Some (VRef l) => lookup_obj (objects p) l
  | _ => None
  end.

Definition has_default (p : process) (c : config) : Prop :=
  exists t, templates_of p c = Some t /\ is_Some (t !! default_template).

(** The persisted records under which a load in a fresh process keeps the
    default template: no file, a record without [templates], or a record
    whose [templates] is an object with the key. *)
Definition record_keeps_default (configPath : str) (d : gmap str file) : Prop :=
  match d !! configPath with
  | None => True
  | Some f =>
      match parsed f with
      | Some j =>
          match own_props j !! templates with
          | None => True
          | Some (JObj t) => is_Some (t !! default_template)
          | Some _ => False
          end
      | None => False
      end
  end.

(** A configuration as interface Config types it, as far as the template
    functions rely on it: [templates] is an object whose values are strings. *)
Definition config_typed (p : process) (c : config) : Prop :=
  exists l t,
    props_of p c !! templates = Some (VRef l)
    /\ lookup_obj (objects p) l = Some t
    /\ map_Forall (fun _ j => is_Some (path_of j)) t.

(** [config[key] = value] for each pair, on the properties. *)
Definition assigned (m : gmap str val) (keyValues : list (str * val)) : gmap str val :=
  foldl (fun m kv => <[kv.1 := kv.2]> m) m keyValues.

(** ** Sample surroundings for the closed statements *)

Definition sample_configPath : str := u "/home/dev/.bunnai".
Definition sample_templatePath : str := u "/home/dev/.bunnai-template".

(** Compact JSON text, for values whose strings hold no control character. *)
Definition quoted (s : str) : str :=
  [34] ++ flat_map (fun c => if (c =? 34) || (c =? 92) then [92; c] else [c]) s ++ [34].

Fixpoint compact_json (j : json) : str :=
  match j with
  | JNull => u "null"
  | JBool true => u "true"
  | JBool false => u "false"
  | JNum n => (if (n <? 0)%Z then u "-" else []) ++ decimal (Z.abs_nat n)
  | JStr s => quoted s
  | JArr xs => u "[" ++ join (u ",") (map compact_json xs) ++ u "]"
  | JObj m =>
      u "{" ++ join (u ",") (map (fun kv => quoted kv.1 ++ u ":" ++ kv.2)
                              (map_to_list (compact_json <$> m))) ++ u "}"
  end.

Definition json_file (j : json) : file := File (compact_json j) (Some j).

(** A record that maps no template at all. *)
Definition disk_without_templates : gmap str file :=
  {[ sample_configPath := json_file (JObj {[ templates := JObj ∅ ]}) ]}.

(** A record that holds a model only. *)
Definition disk_with_model : gmap str file :=
  {[ sample_configPath := json_file (JObj {[ model := JStr (u "x") ]}) ]}.

(** A record with api key [a], while the environment holds api key [b]. *)
Definition disk_with_key : gmap str file :=
  {[ sample_configPath := json_file (JObj {[ OPENAI_API_KEY := JStr (u "a") ]}) ]}.
Definition env_with_key : gmap str str := {[ OPENAI_API_KEY := u "b" ]}.
Definition env_with_model : gmap str str := {[ OPENAI_MODEL := u "m" ]}.

(** ** Predicates of the statements about the pipeline *)

(** The template name that [run] looks up. *)
Definition chosen (templateName : option str) : str :=
  match templateName with
  | Some name => if bool_decide (name = []) then default_template else name
  | None => default_template
  end.

(** The template stage passes: [templates] is an object that maps the
    chosen name to the path of a file that exists. *)
Definition template_resolves (p : process) (props : gmap str val)
    (templateName : option str) (path : str) (templateFile : file) : Prop :=
  exists l t,
    props !! templates = Some (VRef l)
    /\ lookup_obj (objects p) l = Some t
    /\ t !! chosen templateName = Some (JStr path)
    /\ disk p !! path = Some templateFile.

(** Collaborators for the closed statements: a repository with one staged
    line, and a model that answers in prose. *)
Definition prose : str := u "Sure! Here are some ideas: first, second, third.".

Definition sample_collaborators : collaborators :=
  {| pwd := u "/repo" ++ [LF];
     git_diff := inl (u "+foo");
     create := fun _ => ChatResponse (u "{}") (Message (Some prose)) |}.

Definition sample_template : file := File (u "Summarize: {{diff}}") None.

Definition disk_with_template : gmap str file :=
  {[ sample_templatePath := sample_template ]}.

(** Freshly started processes: with nothing on disk; with the default
    template only; and with the template and an api key in the environment. *)
Definition fresh_process : process := initial sample_templatePath ∅ ∅.
Definition process_without_key : process :=
  initial sample_templatePath ∅ disk_with_template.
Definition process_with_key : process :=
  initial sample_templatePath env_with_key disk_with_template.

(** [p'] is [p] after some diagnostics: everything but [stderr] agrees. *)
Definition quiet (p p' : process) : Prop :=
  env p' = env p /\ disk p' = disk p /\ DEFAULT_CONFIG p' = DEFAULT_CONFIG p
  /\ objects p' = objects p /\ next_alloc p' = next_alloc p
  /\ stdout p' = stdout p.

(** The state after [if (options.verbose) console.error(line)]. *)
Definition log_if (b : bool) (line : str) (p : process) : process :=
  if b then Process (env p) (disk p) (DEFAULT_CONFIG p) (objects p)
              (next_alloc p) (stdout p) (stderr p ++ [line])
  else p.

(** ** src/run.ts: the second generation of run

    Lines 197 to 322. It differs from the first in three ways: the
    diagnostics of the verbose mode go through [console.debug], the reply
    may come in [reasoning_content], and the reply is printed as it is,
    trimmed, through [console.log]. *)

(** [console.log] writes its argument and a line feed to the standard
    output; [console.debug] is the same function under another name. *)
Definition console_log (line : str) : M unit := stdout_write (line ++ [LF]).
Definition console_debug (line : str) : M unit := console_log line.

(** The first choice of a response: its [content] and its
    [reasoning_content], null or undefined as [None]. *)
Record message_2 := Message_2 {
  content : option str;
  reasoning_content : option str;
}.

Inductive choice_2 :=
| NoChoice_2 (error_text : str)        (* choices[0] is undefined *)
| FirstChoice_2 (message : message_2).

Inductive chat_result_2 :=
| ChatRejected_2 (error_text : str)
| ChatResponse_2 (dump : str) (first : choice_2).

(** [message.content || message.reasoning_content] *)
Definition content_or_reasoning (message : message_2) : option str :=
  match content message with
  | Some (c :: rest) => Some (c :: rest)
  | Some [] | None => reasoning_content message
  end.

Definition msg_generating : str := u "Generating commit messages...".
Definition msg_done : str := u "Done!".

Section Run2.

Variable configPath : str.
Variable ext : collaborators.                      (* pwd and git diff *)
Variable create_2 : request -> chat_result_2.      (* oai.chat.completions.create *)

Definition resolve_template_2 (options : RunOptions) (props : gmap str val)
    (templateName : option str) : M (option json) :=
  match templateName with
  | Some name =>
      if bool_decide (name = []) then
        path <- get_named (property props templates) default_template ;;
        when_ (verbose options) (console_debug (u "Using default template.")) ;;;
        ret path
      else
        has <- hasOwnProperty (property props templates) name ;;
        (if has then ret tt
         else console_error (msg_unknown_template name) ;;; process_exit 1) ;;;
        path <- get_named (property props templates) name ;;
        when_ (verbose options) (console_debug (u "Using template: " ++ name)) ;;;
        ret path
  | None =>
      path <- get_named (property props templates) default_template ;;
      when_ (verbose options) (console_debug (u "Using default template.")) ;;;
      ret path
  end.

(** The part of [run] inside [try]. *)
Definition ask_model_2 (options : RunOptions) (props : gmap str val)
    (rendered_template : str) : M unit :=
  when_ (verbose options) (console_debug (u "Sending request to OpenAI...")) ;;;
  match create_2 (Request (property props OPENAI_API_KEY)
                    (property props OPENAI_API_BASE) (property props model)
                    system_prompt rendered_template) with
  | ChatRejected_2 error_text =>
      console_error (msg_fetch_failed error_text) ;;; process_exit 1
  | ChatResponse_2 dump first =>
      when_ (verbose options)
        (console_debug (u "Response received from OpenAI.") ;;; console_debug dump) ;;;
      match first with
      | NoChoice_2 error_text =>
          console_error (msg_fetch_failed error_text) ;;; process_exit 1
      | FirstChoice_2 message =>
          match content_or_reasoning message with
          | None | Some [] => console_error msg_no_content ;;; process_exit 1
          | Some content =>
              when_ (negb (verbose options)) (console_error msg_done) ;;;
              console_log (trim content) ;;;
              when_ (verbose options)
                (console_debug (u "Commit message generated and outputted."))
          end
      end
  end.

Definition run_2 (options : RunOptions) (templateName : option str) : M unit :=
  config <- readConfigFile configPath ;;
  when_ (verbose options) (console_debug (u "Configuration loaded successfully.")) ;;;
  props <- get (fun p => props_of p config) ;;
  templateFilePath <- resolve_template_2 options props templateName ;;
  path <- match templateFilePath with
          | Some (JStr path) => ret path
          | _ => throw Unmodelled          (* Bun.file of a value that is not a string *)
          end ;;
  d <- get disk ;;
  match d !! path with
  | None => console_error (msg_template_file_missing path) ;;; process_exit 1
  | Some templateFile =>
      when_ (verbose options) (console_debug (u "Template file found: " ++ path)) ;;;
      let template := text templateFile in
      when_ (verbose options) (console_debug (u "Template file read successfully.")) ;;;
      let target_dir := trim (pwd ext) in
      when_ (verbose options) (console_debug (u "Target directory: " ++ target_dir)) ;;;
      (if truthy (property props OPENAI_API_KEY) then ret tt
       else console_error msg_no_api_key ;;; process_exit 1) ;;;
      (if truthy (property props model) then ret tt
       else console_error msg_no_model ;;; process_exit 1) ;;;
      diff <- getStagedDiff ext ;;
      when_ (verbose options)
        (console_debug (u "Git diff retrieved:" ++ [LF] ++ u " " ++ diff)) ;;;
      (if (length (trim diff) =? 0)%nat
       then console_error (msg_no_changes target_dir) ;;; process_exit 1
       else ret tt) ;;;
      let rendered_template := render template diff in
      when_ (verbose options) (console_debug (u "Template rendered with git diff.")) ;;;
      when_ (negb (verbose options)) (console_error msg_generating) ;;;
      ask_model_2 options props rendered_template
  end.

End Run2.

(** ** Further notions for the statements about the normaliser and the prompt *)

(** A message that the normaliser hands back unchanged when it reads it from
    a line: not empty, no white space or quote character at either end, no
    line terminator inside. *)
Definition plain_message (m : str) : Prop := message_ok m /\ unquoted m.

(** A bulleted line for message [m] with mark [b]. *)
Definition bullet_entry (b : char) (m : str) : str := b :: 32 :: m.

(** The same text with Windows line endings: a carriage return before every
    line feed. *)
Fixpoint to_crlf (s : str) : str :=
  match s with
  | [] => []
  | c :: r => if c =? 10 then CR :: LF :: to_crlf r else c :: to_crlf r
  end.

(** A line does not begin like an item: its first code unit is no digit,
    dash or star. *)
Definition no_marker (line : str) : Prop :=
  from_option (fun c => is_digit c || is_dash_or_star c) false (head line) = false.

(** Every dollar sign doubled. *)
Fixpoint escape_dollars (s : str) : str :=
  match s with
  | [] => []
  | c :: r => if c =? 36 then 36 :: 36 :: escape_dollars r else c :: escape_dollars r
  end.

(** The front of a line of split pieces gets one more code unit. *)
Definition cons_head (c : char) (pieces : list str) : list str :=
  match pieces with
  | l :: ls => (c :: l) :: ls
  | [] => [[c]]
  end.

(** White space removed at the end only. *)
Definition trim_end (s : str) : str := reverse (drop_while is_space (reverse s)).

(** A line that [lines] drops: blank, or beginning with a code fence, once
    trimmed. *)
Definition skipped_line (l : str) : Prop :=
  Forall (fun c => c <> LF) l
  /\ (trim l = [] \/ startsWith (trim l) fence = true).

(** The first occurrence of [pat] in [a ++ pat ++ b] is the one shown. *)
Definition first_occurrence (a pat b : str) : Prop :=
  forall k, (k < length a)%nat -> startsWith (drop k (a ++ pat ++ b)) pat = false.

(** A reply in bullets, and a template without the placeholder. *)
Definition bulleted_reply : list (char * str) :=
  [(45, u "fix: a"); (42, u "feat: b")].
Definition template_without_placeholder : str := u "Summarize the staged change.".

(** ** Further notions for the statements about the configuration store *)

(** A value that [JSON.stringify] followed by [JSON.parse] gives back as it
    is: anything but undefined and a reference to an object. *)
Definition plain_value (v : val) : Prop :=
  match v with
  | VUndefined | VRef _ => False
  | VNull | VBool _ | VNum _ | VStr _ | VArr _ => True
  end.

Section Calls.

Variable configPath : str.
Variable defaultTemplatePath : str.
Variable JSON_stringify : json -> str.

(** One call of a function that the configuration module exports, with any
    arguments, whatever its outcome. *)
Inductive call : process -> process -> Prop :=
| call_readConfigFile p :
    call p (readConfigFile configPath p).2
| call_cleanUpTemplates c p :
    call p (cleanUpTemplates c p).2
| call_setConfigs keyValues p :
    call p (setConfigs configPath JSON_stringify keyValues p).2.

(** The states that a process reaches from its start by such calls. *)
Definition reachable (p : process) : Prop :=
  exists e d, rtc call (initial defaultTemplatePath e d) p.

End Calls.

(** The pairs of one [set] call. *)
Definition set_model_twice : list (str * val) :=
  [(model, VStr (u "x")); (model, VStr (u "y"))].

(** ** Further notions for the statements about the pipeline *)

(** A property of every run of a computation, from any state. *)
Definition always {A} (Q : process -> outcome A -> process -> Prop) (m : M A) : Prop :=
  forall p, Q p (m p).1 (m p).2.

(** What a stage of [run] does before the reply is printed. It leaves the
    environment, the disk and the standard output alone and only appends
    diagnostics; an exit has code 1 and follows a diagnostic. Without
    [verbose], a stage that goes on prints nothing, one that exits prints
    one line, and one that throws prints one line at most. *)
Definition silent (options : RunOptions) {A} (p : process) (r : outcome A)
    (p' : process) : Prop :=
  env p' = env p /\ disk p' = disk p /\ stdout p' = stdout p
  /\ exists diagnostics,
       stderr p' = stderr p ++ diagnostics
       /\ match r with
          | Ok _ => verbose options = false -> diagnostics = []
          | Throw _ => verbose options = false -> (length diagnostics <= 1)%nat
          | Exit code =>
              code = 1%nat /\ diagnostics <> []
              /\ (verbose options = false -> length diagnostics = 1%nat)
          end.

(** What a whole run does: as above, but a run that returns has written
    one chunk to the standard output, the numbered list of one message or
    more. *)
Definition concluded (options : RunOptions) (p : process) (r : outcome unit)
    (p' : process) : Prop :=
  env p' = env p /\ disk p' = disk p
  /\ exists diagnostics,
       stderr p' = stderr p ++ diagnostics
       /\ match r with
          | Ok _ =>
              (exists suggestions,
                  suggestions <> [] /\ Forall message_ok suggestions
                  /\ stdout p' = stdout p ++ [numbered_list suggestions])
              /\ (verbose options = false -> diagnostics = [])
          | Throw _ =>
              stdout p' = stdout p
              /\ (verbose options = false -> (length diagnostics <= 1)%nat)
          | Exit code =>
              stdout p' = stdout p /\ code = 1%nat /\ diagnostics <> []
              /\ (verbose options = false -> length diagnostics = 1%nat)
          end.

(** The stages of [run] before the diff pass: the configuration loads, the
    template resolves to a file that exists, and the api key and the model
    are set. *)
Definition ready (configPath : str) (templateName : option str) (p : process)
    (c : config) (p1 : process) (path : str) (templateFile : file) : Prop :=
  readConfigFile configPath p = (Ok c, p1)
  /\ template_resolves p1 (props_of p1 c) templateName path templateFile
  /\ truthy (property (props_of p1 c) OPENAI_API_KEY) = true
  /\ truthy (property (props_of p1 c) model) = true.

(** The request that [run] sends for a rendered template. *)
Definition request_of (props : gmap str val) (rendered_template : str) : request :=
  Request (property props OPENAI_API_KEY) (property props OPENAI_API_BASE)
    (property props model) system_prompt rendered_template.

(** Collaborators for the closed statements: a repository with the given
    outcome of [git diff --cached], and a model with the given outcome. *)
Definition collaborators_with (diff : str + git_error) (reply : chat_result)
    : collaborators :=
  {| pwd := u "/repo" ++ [LF]; git_diff := diff; create := fun _ => reply |}.

(** What simple-git throws outside a repository. *)
Definition not_a_repository : git_error :=
  {| interpolated := u "Error: fatal: not a git repository";
     inspected := u "GitError: fatal: not a git repository" ++ [LF]
                  ++ u "    at Object.action (simple-git/dist/cjs/index.js)" |}.

Definition numbered_reply : str := u "1. fix: add foo" ++ [LF] ++ u "2. feat: add foo".

(** A configuration file that is not JSON. *)
Definition disk_with_broken_record : gmap str file :=
  {[ sample_configPath := File (u "{") None ]}.

(** The state after the configuration is loaded in [process_with_key]. *)
Definition loaded_with_key : process :=
  (readConfigFile sample_configPath process_with_key).2.

(** The options of a run without [--verbose]. *)
Definition quiet_options : RunOptions := {| verbose := false |}.

(** A model that answers in [reasoning_content] only. *)
Definition reasoning_reply : chat_result_2 :=
  ChatResponse_2 (u "{}")
    (FirstChoice_2 {| content := None; reasoning_content := Some (u " fix: add foo ") |}).

(** * Proofs *)

(** ** Character classes *)

Ltac class_solve :=
  unfold is_dot, is_space in *;
  unfold is_white_space, is_line_terminator, is_digit, is_dot_or_paren,
    is_dash_or_star, is_quote in *;
  repeat match goal with
         | H : _ |- _ =>
             progress rewrite ?negb_true_iff, ?negb_false_iff, ?orb_true_iff,
               ?orb_false_iff, ?andb_true_iff, ?andb_false_iff, ?N.eqb_eq,
               ?N.eqb_neq, ?N.leb_le, ?N.leb_gt in H
         end;
  rewrite ?negb_true_iff, ?negb_false_iff, ?orb_true_iff, ?orb_false_iff,
    ?andb_true_iff, ?andb_false_iff, ?N.eqb_eq, ?N.eqb_neq, ?N.leb_le, ?N.leb_gt;
  lia.

Lemma digit_not_space c : is_digit c = true -> is_space c = false.
Proof. intros H. class_solve. Qed.

Lemma digit_not_punct c : is_digit c = true -> is_dot_or_paren c = false.
Proof. intros H. class_solve. Qed.

Lemma space_not_punct c : is_space c = true -> is_dot_or_paren c = false.
Proof. intros H. class_solve. Qed.

(** ** take_while and drop_while *)

Lemma take_drop_while p s : take_while p s ++ drop_while p s = s.
Proof. induction s as [|c r IH]; simpl; [done|]. destruct (p c); simpl; congruence. Qed.

Lemma take_while_Forall p s : Forall (fun c => p c = true) (take_while p s).
Proof.
  induction s as [|c r IH]; simpl; [constructor|].
  destruct (p c) eqn:E; constructor; done.
Qed.

Lemma drop_while_drop p s : drop (length (take_while p s)) s = drop_while p s.
Proof. induction s as [|c r IH]; simpl; [done|]. destruct (p c); simpl; done. Qed.

Lemma drop_while_head p s c : head (drop_while p s) = Some c -> p c = false.
Proof.
  induction s as [|d r IH]; simpl; [done|].
  destruct (p d) eqn:E; simpl; [done|]. congruence.
Qed.

Lemma take_while_length p s : (length (take_while p s) <= length s)%nat.
Proof. induction s as [|c r IH]; simpl; [lia|]. destruct (p c); simpl; lia. Qed.

Lemma take_while_all p s : Forall (fun c => p c = true) s -> take_while p s = s.
Proof. induction 1 as [|c r Hc _ IH]; simpl; [done|]. rewrite Hc. congruence. Qed.

Lemma take_while_full p s :
  length (take_while p s) = length s -> Forall (fun c => p c = true) s.
Proof.
  intros H. rewrite <- (take_drop_while p s) at 1.
  assert (drop_while p s = []) as ->.
  { apply nil_length_inv. rewrite <- (take_drop_while p s) in H at 2.
    rewrite length_app in H. lia. }
  rewrite app_nil_r. apply take_while_Forall.
Qed.

Lemma take_while_none p c r : p c = false -> take_while p (c :: r) = [].
Proof. intros H. simpl. by rewrite H. Qed.

Lemma take_while_lt_head p s k :
  (k < length (take_while p s))%nat ->
  exists c r, drop k s = c :: r /\ p c = true.
Proof.
  revert k. induction s as [|d r IH]; simpl; intros k Hk; [lia|].
  destruct (p d) eqn:E; simpl in Hk; [|lia].
  destruct k as [|k]; simpl; [eauto|]. apply IH. lia.
Qed.

(** ** Greedy choice *)

Lemma first_down_lt {A} (f : nat -> option A) min n :
  (n < min)%nat -> first_down f min n = None.
Proof.
  intros H. destruct n; simpl; destruct (_ <? _)%nat eqn:E; try done;
    apply Nat.ltb_ge in E; lia.
Qed.

Lemma first_down_top {A} (f : nat -> option A) min n :
  (min <= n)%nat ->
  (f n = None -> forall k, (min <= k < n)%nat -> f k = None) ->
  first_down f min n = f n.
Proof.
  revert min. induction n as [|n IH]; intros min Hmin Hf.
  - simpl. destruct (Nat.ltb_spec0 0 min); [lia|]. by destruct (f 0%nat).
  - simpl. destruct (Nat.ltb_spec0 (S n) min); [lia|].
    destruct (f (S n)) eqn:E; [done|].
    destruct (decide (min <= n)%nat) as [Hle|Hgt].
    + rewrite IH; [|done|].
      * apply Hf; [done|lia].
      * intros _ k Hk. apply Hf; [done|lia].
    + apply first_down_lt. lia.
Qed.

Lemma first_down_Some {A} (f : nat -> option A) min n a :
  first_down f min n = Some a -> exists k, (min <= k <= n)%nat /\ f k = Some a.
Proof.
  induction n as [|n IH]; simpl.
  - destruct (Nat.ltb_spec0 0 min); [done|]. destruct (f 0%nat) eqn:E; [|done].
    intros [= <-]. exists 0%nat. split; [lia|done].
  - destruct (Nat.ltb_spec0 (S n) min); [done|]. destruct (f (S n)) eqn:E.
    + intros [= <-]. exists (S n). split; [lia|done].
    + intros H. destruct (IH H) as (k & Hk & Hfk). exists k. split; [lia|done].
Qed.

(** ** Lines that do not end in white space *)

Lemma last_drop_Some (s : str) k c : last (drop k s) = Some c -> last s = Some c.
Proof.
  revert k. induction s as [|d r IH]; intros k; [by rewrite drop_nil|].
  destruct k as [|k]; simpl; [done|]. intros H. specialize (IH _ H).
  destruct r; [done|]. done.
Qed.

Lemma ends_clean_drop s k : ends_clean s -> ends_clean (drop k s).
Proof. intros H c Hc. apply H. by eapply last_drop_Some. Qed.

Lemma ends_clean_all_space s :
  ends_clean s -> Forall (fun c => is_space c = true) s -> s = [].
Proof.
  intros Hc Hs. destruct (last s) as [c|] eqn:E.
  - pose proof (Hc c E) as Hn.
    assert (c ∈ s) as Hin.
    { apply last_Some in E as [l' ->]. set_solver. }
    rewrite Forall_forall in Hs. rewrite (Hs c Hin) in Hn. done.
  - by apply last_None in E.
Qed.

(** ** The matcher on the regexes of the normaliser *)

Lemma exec_Bol r pos s opens caps :
  exec (Bol :: r) pos s opens caps
  = if (pos =? 0)%nat then exec r pos s opens caps else None.
Proof. done. Qed.

Lemma exec_Eol r pos opens caps :
  exec (Eol :: r) pos [] opens caps = exec r pos [] opens caps.
Proof. done. Qed.

Lemma exec_Class p r pos c s opens caps :
  exec (Class p :: r) pos (c :: s) opens caps
  = if p c then exec r (S pos) s opens caps else None.
Proof. done. Qed.

Lemma exec_Rep min p r pos s opens caps :
  exec (Rep min p :: r) pos s opens caps
  = first_down (fun k => exec r (pos + k) (drop k s) opens caps)
      min (length (take_while p s)).
Proof. done. Qed.

Lemma exec_Open i r pos s opens caps :
  exec (Open i :: r) pos s opens caps = exec r pos s ((i, s) :: opens) caps.
Proof. done. Qed.

Lemma exec_Close i r pos s s0 opens caps :
  exec (Close i :: r) pos s ((i, s0) :: opens) caps
  = exec r pos s ((i, s0) :: opens) ((i, take (length s0 - length s) s0) :: caps).
Proof. cbn [exec assoc]. by rewrite Nat.eqb_refl. Qed.

(** The tail [\s*$] succeeds exactly on white space. *)
Lemma exec_tail_all pos t opens caps :
  all is_space t ->
  exec [Rep 0 is_space; Eol] pos t opens caps
  = Some (MatchState (pos + length t) [] caps).
Proof.
  intros Ht. rewrite exec_Rep, (take_while_all _ _ Ht).
  rewrite first_down_top; [|lia|].
  - by rewrite drop_all.
  - rewrite drop_all. done.
Qed.

Lemma exec_tail_clean pos t opens caps :
  ends_clean t -> t <> [] ->
  exec [Rep 0 is_space; Eol] pos t opens caps = None.
Proof.
  intros Hc Hne. rewrite exec_Rep.
  destruct (first_down _ _ _) as [st|] eqn:E; [|done].
  apply first_down_Some in E as (k & Hk & Hf).
  destruct (drop k t) eqn:Ed; [|done].
  apply drop_nil_inv in Ed.
  assert (length (take_while is_space t) = length t) as Hlen.
  { pose proof (take_while_length is_space t). lia. }
  apply take_while_full in Hlen. by apply ends_clean_all_space in Hlen.
Qed.

(** The group [(.+)] followed by the tail, on input that does not end in
    white space: all of the input is captured, or nothing matches. *)
Lemma exec_content_Some i pos t opens caps :
  t <> [] -> all is_dot t ->
  exec [Open i; Rep 1 is_dot; Close i; Rep 0 is_space; Eol] pos t opens caps
  = Some (MatchState (pos + length t) [] ((i, t) :: caps)).
Proof.
  intros Hne Hd. rewrite exec_Open, exec_Rep, (take_while_all _ _ Hd).
  assert (1 <= length t)%nat as Hlen by (destruct t; simpl; [done|lia]).
  assert (exec [Close i; Rep 0 is_space; Eol] (pos + length t)
            (drop (length t) t) ((i, t) :: opens) caps
          = Some (MatchState (pos + length t) [] ((i, t) :: caps))) as Htop.
  { rewrite drop_all, exec_Close, exec_tail_all by constructor. simpl.
    by rewrite Nat.sub_0_r, firstn_all, Nat.add_0_r. }
  rewrite first_down_top; [done|done|]. by rewrite Htop.
Qed.

Lemma exec_content_None i pos t opens caps :
  ends_clean t -> (t = [] \/ ~ all is_dot t) ->
  exec [Open i; Rep 1 is_dot; Close i; Rep 0 is_space; Eol] pos t opens caps = None.
Proof.
  intros Hc Hbad. rewrite exec_Open, exec_Rep.
  destruct (first_down _ _ _) as [st|] eqn:E; [|done]. exfalso.
  apply first_down_Some in E as (k & Hk & Hf).
  rewrite exec_Close in Hf.
  destruct (decide (drop k t = [])) as [Hnil|Hnn].
  - apply drop_nil_inv in Hnil.
    pose proof (take_while_length is_dot t).
    assert (length (take_while is_dot t) = length t) as Hlen by lia.
    apply take_while_full in Hlen.
    destruct Hbad as [->|Hbad]; [simpl in Hk; lia|done].
  - rewrite exec_tail_clean in Hf; [done| |done]. by apply ends_clean_drop.
Qed.

Lemma exec_content i pos t opens caps :
  ends_clean t ->
  exec (content_group i) pos t opens caps
  = if bool_decide (t <> [] /\ all is_dot t)
    then Some (MatchState (pos + length t) [] ((i, t) :: caps)) else None.
Proof.
  intros Hc. unfold content_group. case_bool_decide as H.
  - destruct H. by apply exec_content_Some.
  - apply exec_content_None; [done|].
    destruct (decide (t = [])); [by left|]. right. intros Hd. by apply H.
Qed.

(** White space before the content group is skipped as a whole. *)
Lemma exec_gap_content min i pos s opens caps :
  ends_clean s ->
  (min <= length (take_while is_space s))%nat ->
  exec (Rep min is_space :: content_group i) pos s opens caps
  = exec (content_group i) (pos + length (take_while is_space s))
      (drop_while is_space s) opens caps.
Proof.
  intros Hc Hmin. rewrite exec_Rep.
  pose proof (drop_while_drop is_space s) as Hdw.
  set (n := length (take_while is_space s)) in *.
  rewrite first_down_top; [by rewrite Hdw|done|].
  rewrite Hdw. intros Hn k Hk.
  rewrite exec_content in Hn by (rewrite <- Hdw; by apply ends_clean_drop).
  case_bool_decide as Hn'; [done|]. clear Hn.
  rewrite exec_content by (by apply ends_clean_drop).
  case_bool_decide as Hk'; [|done]. exfalso.
  apply Hn'. destruct Hk' as [Hne Hd].
  assert (drop_while is_space s = drop (n - k) (drop k s)) as Hsuf.
  { rewrite drop_drop, <- Hdw. f_equal. lia. }
  split.
  - intros Hnil. rewrite <- (take_drop_while is_space s), Hnil, app_nil_r in Hc.
    pose proof (take_while_Forall is_space s) as Hsp.
    apply ends_clean_all_space in Hsp; [|done]. unfold n in Hk. rewrite Hsp in Hk.
    simpl in Hk. lia.
  - rewrite Hsuf. by apply Forall_drop.
Qed.

Lemma exec_gap_short min i pos s opens caps :
  (length (take_while is_space s) < min)%nat ->
  exec (Rep min is_space :: content_group i) pos s opens caps = None.
Proof. intros H. rewrite exec_Rep. by apply first_down_lt. Qed.

(** A regex anchored at the start matches at no later position. *)
Lemma search_Bol_None r pos s : search [Bol :: r] (S pos) s = None.
Proof.
  revert pos. induction s as [|c s IH]; intros pos; simpl; [done|].
  by rewrite IH.
Qed.

Lemma match_group_Bol r i s :
  match_group [Bol :: r] i s
  = match exec (Bol :: r) 0 s [] [] with
    | Some st => assoc i (m_caps st)
    | None => None
    end.
Proof.
  unfold match_group. destruct s as [|c s]; cbn [search exec_alts].
  - by destruct (exec _ _ _ _ _).
  - destruct (exec _ _ _ _ _); [done|]. by rewrite search_Bol_None.
Qed.

Lemma numbered_numbered_direct line :
  ends_clean line -> numbered line = numbered_direct line.
Proof.
  intros Hc. unfold numbered, re_numbered, numbered_direct.
  rewrite match_group_Bol, exec_Bol. cbn [Nat.eqb]. rewrite exec_Open, exec_Rep.
  set (n1 := length (take_while is_digit line)).
  destruct (Nat.ltb_spec0 n1 1) as [Hlt|Hge].
  { by rewrite first_down_lt. }
  rewrite first_down_top; [|lia|]; cycle 1.
  { intros _ k Hk.
    destruct (take_while_lt_head is_digit line k) as (d & r & Hd & Hdig); [fold n1; lia|].
    rewrite Hd, exec_Close, exec_Rep.
    rewrite (take_while_none _ _ _ (digit_not_space _ Hdig)). simpl length.
    rewrite first_down_top; [|lia|intros; lia].
    rewrite drop_0, exec_Class. by rewrite (digit_not_punct _ Hdig). }
  unfold n1 at 2. rewrite drop_while_drop, exec_Close, exec_Rep.
  set (r1 := drop_while is_digit line).
  assert (ends_clean r1) as Hc1.
  { unfold r1. rewrite <- drop_while_drop. by apply ends_clean_drop. }
  set (n2 := length (take_while is_space r1)).
  rewrite first_down_top; [|lia|]; cycle 1.
  { intros _ k Hk.
    destruct (take_while_lt_head is_space r1 k) as (d & r & Hd & Hsp); [fold n2; lia|].
    rewrite Hd, exec_Class. by rewrite (space_not_punct _ Hsp). }
  unfold n2 at 2. rewrite drop_while_drop.
  assert (ends_clean (drop_while is_space r1)) as Hc2.
  { rewrite <- drop_while_drop. by apply ends_clean_drop. }
  destruct (drop_while is_space r1) as [|p rest] eqn:Er; [done|].
  rewrite exec_Class. destruct (is_dot_or_paren p); [|done].
  assert (ends_clean rest) as Hc3 by (apply (ends_clean_drop _ 1) in Hc2; done).
  change (exec (Rep 0 is_space :: _) ?a ?b ?c ?d)
    with (exec (Rep 0 is_space :: content_group 2) a b c d).
  rewrite exec_gap_content by (done || lia).
  rewrite exec_content by (rewrite <- drop_while_drop; by apply ends_clean_drop).
  case_bool_decide; [|done]. cbn [m_caps assoc Nat.eqb]. done.
Qed.

Lemma bullet_bullet_direct line :
  ends_clean line -> bullet line = bullet_direct line.
Proof.
  intros Hc. unfold bullet, re_bullet, bullet_direct.
  rewrite match_group_Bol, exec_Bol. cbn [Nat.eqb].
  destruct line as [|b rest]; [done|].
  rewrite exec_Class. destruct (is_dash_or_star b); [|done].
  assert (ends_clean rest) as Hc1 by (apply (ends_clean_drop _ 1) in Hc; done).
  change (exec (Rep 1 is_space :: _) ?a ?b ?c ?d)
    with (exec (Rep 1 is_space :: content_group 1) a b c d).
  destruct (Nat.ltb_spec0 (length (take_while is_space rest)) 1) as [Hlt|Hge].
  { by rewrite exec_gap_short. }
  rewrite exec_gap_content by (done || lia).
  rewrite exec_content by (rewrite <- drop_while_drop; by apply ends_clean_drop).
  case_bool_decide; [|done]. done.
Qed.

(** ** trim *)

Lemma drop_while_starts_clean s : starts_clean (drop_while is_space s).
Proof. intros c Hc. by apply drop_while_head in Hc. Qed.

Lemma last_drop_while_Some p (s : str) c :
  last (drop_while p s) = Some c -> last s = Some c.
Proof. rewrite <- drop_while_drop. apply last_drop_Some. Qed.

Lemma trim_ends_clean s : ends_clean (trim s).
Proof.
  intros c. unfold trim. rewrite last_reverse. apply drop_while_head.
Qed.

Lemma trim_starts_clean s : starts_clean (trim s).
Proof.
  intros c. unfold trim. rewrite head_reverse. intros H.
  apply last_drop_while_Some in H. rewrite last_reverse in H.
  by apply drop_while_head in H.
Qed.

Lemma drop_while_clean s : starts_clean s -> drop_while is_space s = s.
Proof.
  intros H. destruct s as [|c r]; [done|]. simpl. by rewrite (H c).
Qed.

Lemma trim_clean s : starts_clean s -> ends_clean s -> trim s = s.
Proof.
  intros Hs He. unfold trim. rewrite (drop_while_clean s Hs).
  rewrite drop_while_clean; [by rewrite reverse_involutive|].
  intros c. rewrite head_reverse. apply He.
Qed.

Lemma drop_while_Forall (P : N -> Prop) p s : Forall P s -> Forall P (drop_while p s).
Proof. rewrite <- drop_while_drop. apply Forall_drop. Qed.

Lemma trim_Forall (P : N -> Prop) s : Forall P s -> Forall P (trim s).
Proof.
  intros H. unfold trim. apply Forall_reverse, drop_while_Forall, Forall_reverse.
  by apply drop_while_Forall.
Qed.

(** ** The lines of a reply *)

Lemma lines_clean raw line :
  line ∈ lines raw -> starts_clean line /\ ends_clean line /\ line <> [].
Proof.
  unfold lines. rewrite !list_elem_of_filter, list_elem_of_fmap.
  intros (_ & Hlen & l & -> & _). split; [apply trim_starts_clean|].
  split; [apply trim_ends_clean|]. intros E. rewrite E in Hlen. simpl in Hlen. lia.
Qed.

(** ** The matcher consumes a prefix of its input *)

Lemma exec_rest r : forall pos s opens caps st,
  exec r pos s opens caps = Some st ->
  exists k, m_rest st = drop k s /\ m_end st = (pos + k)%nat /\ (k <= length s)%nat.
Proof.
  induction r as [|n r IH]; intros pos s opens caps st H.
  - injection H as <-. exists 0%nat. simpl. split; [done|]. split; lia.
  - destruct n.
    + rewrite exec_Bol in H. destruct (pos =? 0)%nat; [|done]. eauto.
    + destruct s; [|done]. rewrite exec_Eol in H. eauto.
    + destruct s as [|c s]; [done|]. rewrite exec_Class in H.
      destruct (p c); [|done]. apply IH in H as (k & H1 & H2 & H3).
      exists (S k). simpl. split; [done|]. split; lia.
    + rewrite exec_Rep in H. apply first_down_Some in H as (k & Hk & H).
      apply IH in H as (j & H1 & H2 & H3). rewrite length_drop in H3.
      pose proof (take_while_length p s).
      exists (k + j)%nat. rewrite <- drop_drop. split; [done|]. split; lia.
    + rewrite exec_Open in H. eauto.
    + cbn [exec] in H. destruct (assoc i opens); [|done]. eauto.
Qed.

Lemma exec_alts_rest alts : forall pos s st,
  exec_alts alts pos s = Some st ->
  exists k, m_rest st = drop k s /\ m_end st = (pos + k)%nat /\ (k <= length s)%nat.
Proof.
  induction alts as [|r alts IH]; intros pos s st H; [done|].
  cbn [exec_alts] in H. destruct (exec r pos s [] []) eqn:E; [|eauto].
  injection H as <-. by eapply exec_rest.
Qed.

Lemma search_rest alts s : forall pos b st,
  search alts pos s = Some (b, st) ->
  exists k, m_rest st = drop (b + k) s /\ (b + k <= length s)%nat.
Proof.
  induction s as [|c s IH]; intros pos b st H; cbn [search] in H.
  - destruct (exec_alts alts pos []) eqn:E; [|done]. injection H as <- <-.
    apply exec_alts_rest in E as (k & H1 & _ & H3). exists k. done.
  - destruct (exec_alts alts pos (c :: s)) eqn:E.
    + injection H as <- <-. apply exec_alts_rest in E as (k & H1 & _ & H3).
      exists k. done.
    + destruct (search alts (S pos) s) as [[k' st']|] eqn:Es; [|done].
      injection H as <- <-. apply IH in Es as (k & H1 & H2).
      exists k. simpl. split; [done|lia].
Qed.

(** A match of the quote regex is never empty, so that the fuel of
    [replace_global_empty] is never used up: more fuel gives the same text. *)
Lemma exec_quotes_consumes pos s st :
  exec_alts re_quotes pos s = Some st ->
  exists k, (1 <= k <= length s)%nat /\ m_rest st = drop k s /\ m_end st = (pos + k)%nat.
Proof.
  unfold re_quotes. cbn [exec_alts].
  assert (forall r, (r = [] \/ r = [Eol]) ->
            exec (Rep 1 is_quote :: r) pos s [] [] = Some st ->
            exists k, (1 <= k <= length s)%nat /\ m_rest st = drop k s
                      /\ m_end st = (pos + k)%nat) as Hrep.
  { intros r Hr H. rewrite exec_Rep in H. apply first_down_Some in H as (k & Hk & H).
    pose proof (take_while_length is_quote s). exists k. split; [lia|].
    destruct Hr as [-> | ->].
    - by injection H as <-.
    - destruct (drop k s) eqn:E; [|done]. rewrite exec_Eol in H. by injection H as <-. }
  destruct (exec [Bol; Rep 1 is_quote] pos s [] []) eqn:E1.
  - intros [= <-]. rewrite exec_Bol in E1. destruct (pos =? 0)%nat; [|done].
    apply Hrep in E1; [done|by left].
  - destruct (exec [Rep 1 is_quote; Eol] pos s [] []) eqn:E2; [|done].
    intros [= <-]. apply Hrep in E2; [done|by right].
Qed.

Lemma search_quotes_consumes s : forall pos b st,
  search re_quotes pos s = Some (b, st) ->
  (length (m_rest st) < length s)%nat.
Proof.
  induction s as [|c s IH]; intros pos b st H; cbn [search] in H.
  - destruct (exec_alts re_quotes pos []) eqn:E; [|done]. injection H as <- <-.
    apply exec_quotes_consumes in E as (k & Hk & _). simpl in Hk. lia.
  - destruct (exec_alts re_quotes pos (c :: s)) eqn:E.
    + injection H as <- <-. apply exec_quotes_consumes in E as (k & Hk & -> & _).
      rewrite length_drop. lia.
    + destruct (search re_quotes (S pos) s) as [[k' st']|] eqn:Es; [|done].
      injection H as <- <-. apply IH in Es. simpl. lia.
Qed.

Lemma remove_quotes_fuel fuel : forall extra pos s,
  (length s < fuel)%nat ->
  remove_matches (fuel + extra) re_quotes pos s = remove_matches fuel re_quotes pos s.
Proof.
  induction fuel as [|fuel IH]; intros extra pos s Hlen; [lia|].
  cbn [Nat.add remove_matches].
  destruct (search re_quotes pos s) as [[b st]|] eqn:E; [|done].
  apply search_quotes_consumes in E. rewrite IH by lia. done.
Qed.

Lemma remove_matches_Forall (P : N -> Prop) alts fuel : forall pos s,
  Forall P s -> Forall P (remove_matches fuel alts pos s).
Proof.
  induction fuel as [|fuel IH]; intros pos s Hs; [done|].
  cbn [remove_matches]. destruct (search alts pos s) as [[b st]|] eqn:E; [|done].
  apply search_rest in E as (k & -> & _).
  apply Forall_app. split; [by apply Forall_take|]. apply IH. by apply Forall_drop.
Qed.

Lemma clean_Forall (P : N -> Prop) s : Forall P s -> Forall P (clean s).
Proof. intros H. apply trim_Forall. by apply remove_matches_Forall. Qed.

(** ** Quote stripping leaves a message without outer quotes alone *)

Lemma last_all (p : N -> bool) (s : str) c :
  Forall (fun c => p c = true) s -> last s = Some c -> p c = true.
Proof.
  intros H E. apply last_Some in E as [l' ->].
  rewrite Forall_app, Forall_singleton in H. tauto.
Qed.

Lemma exec_quotes_end_None pos s :
  (forall c, last s = Some c -> is_quote c = false) ->
  exec [Rep 1 is_quote; Eol] pos s [] [] = None.
Proof.
  intros Hl. rewrite exec_Rep.
  destruct (first_down _ _ _) as [st|] eqn:E; [|done]. exfalso.
  apply first_down_Some in E as (k & Hk & Hf).
  destruct (drop k s) eqn:Ed; [|done]. apply drop_nil_inv in Ed.
  pose proof (take_while_length is_quote s).
  assert (length (take_while is_quote s) = length s) as Hlen by lia.
  apply take_while_full in Hlen.
  destruct (last s) as [c|] eqn:El.
  - pose proof (last_all _ _ _ Hlen El). rewrite Hl in H0; done.
  - apply last_None in El. subst s. simpl in Hk. lia.
Qed.

Lemma exec_quotes_start_None pos s :
  (pos = 0%nat -> forall c, head s = Some c -> is_quote c = false) ->
  exec [Bol; Rep 1 is_quote] pos s [] [] = None.
Proof.
  intros Hh. rewrite exec_Bol. destruct pos; [|done]. cbn [Nat.eqb].
  rewrite exec_Rep. apply first_down_lt.
  destruct s as [|c s]; simpl; [lia|]. rewrite (Hh eq_refl c eq_refl). simpl. lia.
Qed.

Lemma search_quotes_None s : forall pos,
  (pos = 0%nat -> forall c, head s = Some c -> is_quote c = false) ->
  (forall c, last s = Some c -> is_quote c = false) ->
  search re_quotes pos s = None.
Proof.
  induction s as [|d s IH]; intros pos Hh Hl; cbn [search re_quotes exec_alts].
  - by rewrite exec_quotes_start_None, exec_quotes_end_None.
  - rewrite exec_quotes_start_None, exec_quotes_end_None by done.
    rewrite IH; [done|done|]. intros c Hc. apply Hl. destruct s; done.
Qed.

Lemma strip_unquoted s : unquoted s -> replace_global_empty re_quotes s = s.
Proof.
  intros [Hh Hl]. unfold replace_global_empty. cbn [remove_matches].
  rewrite search_quotes_None; [done| |].
  - intros _ c Hc. by rewrite Hc in Hh.
  - intros c Hc. by rewrite Hc in Hl.
Qed.

Lemma clean_id s : unquoted s -> starts_clean s -> ends_clean s -> clean s = s.
Proof. intros Hq Hs He. unfold clean. rewrite strip_unquoted by done. by apply trim_clean. Qed.

(** ** Decimal numerals *)

Lemma decimal_aux_digits fuel : forall n acc,
  all is_digit acc -> all is_digit (decimal_aux fuel n acc).
Proof.
  induction fuel as [|fuel IH]; intros n acc Hacc; [done|]. cbn [decimal_aux].
  assert (all is_digit ((48 + N.of_nat (n `mod` 10)) :: acc)) as H.
  { constructor; [|done]. pose proof (Nat.mod_upper_bound n 10). class_solve. }
  destruct (_ =? _)%nat; [done|]. by apply IH.
Qed.

Lemma decimal_aux_nonempty fuel n acc :
  (fuel <> 0)%nat \/ acc <> [] -> decimal_aux fuel n acc <> [].
Proof.
  revert n acc. induction fuel as [|fuel IH]; intros n acc H; cbn [decimal_aux].
  - destruct H; done.
  - destruct (_ =? _)%nat; [done|]. apply IH. by right.
Qed.

Lemma decimal_digits n : all is_digit (decimal n).
Proof. apply decimal_aux_digits. constructor. Qed.

Lemma decimal_nonempty n : decimal n <> [].
Proof. apply decimal_aux_nonempty. by left. Qed.

(** ** Lines rebuilt from messages *)

Lemma take_while_app_stop p (ds : str) c r :
  all p ds -> p c = false -> take_while p (ds ++ c :: r) = ds.
Proof.
  intros Hds Hc. induction Hds as [|d ds Hd _ IH]; simpl; [by rewrite Hc|].
  by rewrite Hd, IH.
Qed.

Lemma drop_while_app_stop p (ds : str) c r :
  all p ds -> p c = false -> drop_while p (ds ++ c :: r) = c :: r.
Proof.
  intros Hds Hc. induction Hds as [|d ds Hd _ IH]; simpl; [by rewrite Hc|].
  by rewrite Hd, IH.
Qed.

Lemma bool_decide_content m :
  m <> [] -> all is_dot m -> bool_decide (m <> [] /\ all is_dot m) = true.
Proof. intros. by apply bool_decide_eq_true_2. Qed.

Lemma numbered_direct_entry n m : message_ok m -> numbered_direct (entry n m) = Some m.
Proof.
  intros (Hne & Hs & He & Hd). unfold numbered_direct, entry.
  change (u ". " ++ m) with (46 :: 32 :: m).
  rewrite take_while_app_stop by (apply decimal_digits || done).
  rewrite drop_while_app_stop by (apply decimal_digits || done).
  destruct (Nat.ltb_spec0 (length (decimal n)) 1) as [Hlt|_].
  { pose proof (decimal_nonempty n). destruct (decimal n); simpl in *; [done|lia]. }
  cbn [drop_while]. change (is_space 46) with false. cbv iota.
  change (is_dot_or_paren 46) with true. cbv iota zeta.
  cbn [drop_while]. change (is_space 32) with true. cbv iota.
  rewrite (drop_while_clean m Hs). by rewrite bool_decide_content.
Qed.

Lemma last_app_cons_ne (a : str) (m : str) : m <> [] -> last (a ++ m) = last m.
Proof.
  intros H. destruct (last m) as [c|] eqn:E.
  - apply last_Some in E as [l' ->]. by rewrite app_assoc, last_snoc.
  - by apply last_None in E.
Qed.

Lemma entry_ends_clean n m : message_ok m -> ends_clean (entry n m).
Proof.
  intros (Hne & _ & He & _) c. unfold entry.
  rewrite app_assoc, last_app_cons_ne by done. apply He.
Qed.

Lemma entry_head n m : exists d r, entry n m = d :: r /\ is_digit d = true.
Proof.
  unfold entry. pose proof (decimal_nonempty n) as Hn.
  pose proof (decimal_digits n) as Hd.
  destruct (decimal n) as [|d r]; [done|]. inversion Hd; subst. simpl. eauto.
Qed.

Lemma entry_starts_clean n m : starts_clean (entry n m).
Proof.
  destruct (entry_head n m) as (d & r & -> & Hd). intros c [= <-].
  by apply digit_not_space.
Qed.

Lemma entry_not_fence n m :
  (bool_decide (entry n m = fence) || startsWith (entry n m) fence) = false.
Proof.
  destruct (entry_head n m) as (d & r & -> & Hd).
  assert ((d =? 96) = false) as Hne by class_solve.
  change fence with [96; 96; 96]. cbn [startsWith]. rewrite Hne.
  rewrite bool_decide_eq_false_2; [done|]. intros [= -> _].
  by rewrite N.eqb_refl in Hne.
Qed.

Lemma entry_no_break n m : message_ok m -> Forall (fun c => c <> LF /\ c <> CR) (entry n m).
Proof.
  intros (_ & _ & _ & Hd). unfold entry. rewrite !Forall_app. split; [|split].
  - eapply Forall_impl; [apply decimal_digits|]. unfold LF, CR. intros c Hc.
    simpl in Hc. class_solve.
  - unfold LF, CR. repeat constructor; done.
  - eapply Forall_impl; [apply Hd|]. unfold LF, CR. intros c Hc. simpl in Hc.
    class_solve.
Qed.

(** ** replaceAll, split and join *)

Lemma replaceAll_no_CR s :
  Forall (fun c => c <> CR) s -> replaceAll s [CR; LF] [LF] = s.
Proof.
  unfold replaceAll. induction 1 as [|c s Hc _ IH]; [done|].
  cbn [replaceAll_from startsWith]. apply N.eqb_neq in Hc. rewrite Hc. simpl.
  by rewrite IH.
Qed.

Lemma split_no_sep sep s : Forall (fun c => c <> sep) s -> split sep s = [s].
Proof.
  induction 1 as [|c s Hc _ IH]; [done|]. cbn [split].
  apply N.eqb_neq in Hc. by rewrite Hc, IH.
Qed.

Lemma split_app_sep sep s r :
  Forall (fun c => c <> sep) s -> split sep (s ++ sep :: r) = s :: split sep r.
Proof.
  induction 1 as [|c s Hc _ IH]; simpl.
  - by rewrite N.eqb_refl.
  - apply N.eqb_neq in Hc. by rewrite Hc, IH.
Qed.

Lemma split_join sep ls :
  ls <> [] -> Forall (Forall (fun c => c <> sep)) ls ->
  split sep (join [sep] ls) = ls.
Proof.
  intros Hne H. induction H as [|l ls Hl Hls IH]; [done|].
  destruct ls as [|l' ls].
  - simpl. by apply split_no_sep.
  - cbn [join]. simpl app. rewrite split_app_sep by done. f_equal. by apply IH.
Qed.

Lemma join_no_CR ls :
  Forall (Forall (fun c => c <> LF /\ c <> CR)) ls ->
  Forall (fun c => c <> CR) (join [LF] ls).
Proof.
  induction 1 as [|l ls Hl Hls IH]; [constructor|].
  assert (Forall (fun c => c <> CR) l) as Hl'.
  { eapply Forall_impl; [done|]. simpl. tauto. }
  destruct ls as [|l' ls]; [done|]. cbn [join].
  rewrite !Forall_app. split; [done|]. split; [|done]. by repeat constructor.
Qed.

Lemma filter_all {A} (P : A -> Prop) `{!forall x, Decision (P x)} (l : list A) :
  Forall P l -> filter P l = l.
Proof.
  induction 1 as [|x l Hx _ IH]; [done|]. rewrite filter_cons_True by done. by rewrite IH.
Qed.

Lemma lines_join ls : Forall line_ok ls -> lines (join [LF] ls) = ls.
Proof.
  intros H. destruct ls as [|l0 ls0]; [done|]. set (ls := l0 :: ls0) in *.
  unfold lines. rewrite replaceAll_no_CR; cycle 1.
  { apply join_no_CR. eapply Forall_impl; [done|]. intros l Hl. apply Hl. }
  rewrite split_join; [|done|]; cycle 1.
  { eapply Forall_impl; [done|]. intros l (Hl & _). eapply Forall_impl; [done|].
    simpl. tauto. }
  assert (map trim ls = ls) as ->.
  { clear -H. induction H as [|l ls (_ & Hs & He & _) _ IH]; [done|].
    simpl. rewrite trim_clean by done. by rewrite IH. }
  rewrite (filter_all (fun line : str => (0 < length line)%nat)); cycle 1.
  { eapply Forall_impl; [done|]. intros l (_ & _ & _ & Hne & _).
    destruct l; simpl; [done|lia]. }
  apply filter_all. eapply Forall_impl; [done|]. intros l Hl. apply Hl.
Qed.

Lemma entry_line_ok n m : message_ok m -> line_ok (entry n m).
Proof.
  intros Hm. split; [by apply entry_no_break|]. split; [apply entry_starts_clean|].
  split; [by apply entry_ends_clean|]. split; [|apply entry_not_fence].
  destruct (entry_head n m) as (d & r & -> & _). done.
Qed.

Lemma entries_ok ms : forall (g : nat -> str -> str),
  (forall i m, exists n, g i m = entry n m) ->
  Forall message_ok ms ->
  Forall line_ok (imap g ms) /\ omap numbered (imap g ms) = ms.
Proof.
  induction ms as [|m ms IH]; intros g Hg Hms; [done|].
  inversion Hms as [|? ? Hm Hms']; subst. cbn [imap].
  destruct (IH (g ∘ S)) as [IH1 IH2]; [intros i m'; apply Hg|done|].
  destruct (Hg 0%nat m) as [n Hn]. split.
  - constructor; [|done]. rewrite Hn. by apply entry_line_ok.
  - cbn [omap list_omap]. fold (omap numbered (imap (g ∘ S) ms)). rewrite IH2, Hn.
    rewrite numbered_numbered_direct by (by apply entry_ends_clean).
    by rewrite numbered_direct_entry.
Qed.

(** ** What the normaliser returns *)

Lemma numbered_content raw line c :
  line ∈ lines raw -> numbered line = Some c -> all is_dot c.
Proof.
  intros Hl. apply lines_clean in Hl as (_ & He & _).
  rewrite numbered_numbered_direct by done. unfold numbered_direct.
  destruct (_ <? _)%nat; [done|]. destruct (drop_while _ _) as [|p rest]; [done|].
  destruct (is_dot_or_paren p); [|done]. case_bool_decide as H; [|done].
  intros [= <-]. apply H.
Qed.

Lemma bullet_content raw line c :
  line ∈ lines raw -> bullet line = Some c -> all is_dot c.
Proof.
  intros Hl. apply lines_clean in Hl as (_ & He & _).
  rewrite bullet_bullet_direct by done. unfold bullet_direct.
  destruct line as [|b rest]; [done|]. destruct (is_dash_or_star b); [|done].
  destruct (_ <? _)%nat; [done|]. case_bool_decide as H; [|done].
  intros [= <-]. apply H.
Qed.

Lemma candidates_content raw c : c ∈ candidates raw -> all is_dot c.
Proof.
  unfold candidates, fromBullets.
  destruct (0 <? length (fromNumbered raw))%nat.
  - unfold fromNumbered. rewrite list_elem_of_omap. intros (l & Hl & Hc).
    by eapply numbered_content.
  - destruct (_ =? _)%nat; [|by intros ?%elem_of_nil].
    rewrite list_elem_of_omap. intros (l & Hl & Hc). by eapply bullet_content.
Qed.

Lemma normalize_message_ok raw : Forall message_ok (normalizeCommitSuggestions raw).
Proof.
  apply Forall_forall. intros m. unfold normalizeCommitSuggestions.
  rewrite list_elem_of_filter, list_elem_of_fmap. intros (Hlen & c & -> & Hc).
  split; [intros E; rewrite E in Hlen; simpl in Hlen; lia|].
  split; [apply trim_starts_clean|]. split; [apply trim_ends_clean|].
  apply clean_Forall. by eapply candidates_content.
Qed.

Lemma normalize_numbered_list ms :
  Forall message_ok ms -> Forall unquoted ms ->
  normalizeCommitSuggestions (numbered_list ms) = ms.
Proof.
  intros Hok Hq. destruct ms as [|m0 ms0]; [done|]. set (ms := m0 :: ms0) in *.
  destruct (entries_ok ms (fun idx s => decimal (idx + 1) ++ u ". " ++ s))
    as [Hl Hn]; [intros i m; by exists (i + 1)%nat|done|].
  unfold normalizeCommitSuggestions, candidates, fromNumbered, numbered_list.
  rewrite lines_join, Hn by done.
  change (0 <? length ms)%nat with true. cbv iota.
  assert (map clean ms = ms) as ->.
  { clear -Hok Hq. induction Hok as [|m ms (_ & Hs & He & _) _ IH]; [done|].
    inversion Hq; subst. simpl. rewrite clean_id by done. by rewrite IH. }
  apply filter_all. eapply Forall_impl; [apply Hok|]. intros m (Hne & _).
  destruct m; simpl; [done|lia].
Qed.

Lemma span_app p (ds rest : str) :
  all p ds -> from_option p false (head rest) = false ->
  take_while p (ds ++ rest) = ds /\ drop_while p (ds ++ rest) = rest.
Proof.
  intros Hds Hr. induction Hds as [|d ds Hd _ [IH1 IH2]]; simpl.
  - destruct rest as [|c r]; [done|]. simpl in *. by rewrite Hr.
  - by rewrite Hd, IH1, IH2.
Qed.

Lemma punct_not_digit c : is_dot_or_paren c = true -> is_digit c = false.
Proof. intros H. class_solve. Qed.

Lemma punct_not_space c : is_dot_or_paren c = true -> is_space c = false.
Proof. intros H. class_solve. Qed.

Lemma space_not_digit c : is_space c = true -> is_digit c = false.
Proof. intros H. class_solve. Qed.

Lemma numbered_direct_shape line content :
  numbered_direct line = Some content <-> numbered_shape line content.
Proof.
  unfold numbered_direct. split.
  - destruct (Nat.ltb_spec0 (length (take_while is_digit line)) 1) as [|Hlen]; [done|].
    destruct (drop_while is_space (drop_while is_digit line)) as [|mark rest] eqn:E1; [done|].
    destruct (is_dot_or_paren mark) eqn:Em; [|done].
    case_bool_decide as Hc; [|done]. intros [= <-]. destruct Hc as [Hne Hdot].
    exists (take_while is_digit line), (take_while is_space (drop_while is_digit line)),
      mark, (take_while is_space rest).
    rewrite (take_drop_while is_space rest), <- E1, !take_drop_while.
    repeat split; try done; try apply take_while_Forall.
    + intros E. rewrite E in Hlen. simpl in Hlen. lia.
    + apply drop_while_starts_clean.
  - intros (digits & gap1 & mark & gap2 & -> & Hne & Hd & Hg1 & Hm & Hg2 & Hc & Hs & Hdot).
    destruct (span_app is_digit digits (gap1 ++ mark :: gap2 ++ content)) as [-> ->]; [done| |].
    { destruct Hg1 as [|g gs Hg _]; simpl; [by apply punct_not_digit|by apply space_not_digit]. }
    destruct (span_app is_space gap1 (mark :: gap2 ++ content)) as [_ ->]; [done| |].
    { simpl. by apply punct_not_space. }
    destruct (span_app is_space gap2 content) as [_ ->]; [done| |].
    { destruct content as [|c r]; [done|]. simpl. by apply Hs. }
    destruct (Nat.ltb_spec0 (length digits) 1) as [Hlt|_].
    { destruct digits; simpl in *; [done|lia]. }
    rewrite Hm. by rewrite bool_decide_content.
Qed.

(** C3 (amended). A line of the reply is captured as a numbered item exactly
    when it begins with one or more digits, then optional white space, then
    a dot or a closing parenthesis, then optional white space, then content
    in which no line terminator occurs; the content is what is captured. The
    captures are collected in the order of the lines, whatever the numbers.
    Bulleted lines are read only when no numbered line was captured. *)
Theorem numbered_extraction :
  (forall raw line content,
      line ∈ lines raw ->
      (numbered line = Some content <-> numbered_shape line content))
  /\ (forall raw, fromNumbered raw = omap numbered (lines raw))
  /\ (forall raw,
        fromNumbered raw <> [] ->
        fromBullets raw = [] /\ candidates raw = fromNumbered raw)
  /\ (forall raw,
        fromNumbered raw = [] -> candidates raw = omap bullet (lines raw))
  /\ normalizeCommitSuggestions (u "10) fix bug") = [u "fix bug"].
Proof.
  split; [|split; [|split; [|split]]].
  - intros raw line content Hl. apply lines_clean in Hl as (_ & He & _).
    rewrite numbered_numbered_direct by done. apply numbered_direct_shape.
  - done.
  - intros raw H. unfold candidates, fromBullets.
    destruct (fromNumbered raw); done.
  - intros raw H. unfold candidates, fromBullets. by rewrite H.
  - by vm_compute.
Qed.

Lemma numbered_extraction_witness :
  (u "10) fix bug" ∈ lines (u "10) fix bug")
   /\ (numbered (u "10) fix bug") = Some (u "fix bug")
       <-> numbered_shape (u "10) fix bug") (u "fix bug")))
  /\ (fromNumbered sample_reply <> []
      /\ fromBullets sample_reply = []
      /\ candidates sample_reply = fromNumbered sample_reply)
  /\ (fromNumbered (u "- a") = []
      /\ candidates (u "- a") = omap bullet (lines (u "- a"))).
Proof.
  assert (u "10) fix bug" ∈ lines (u "10) fix bug")) as H1.
  { vm_compute. apply list_elem_of_here. }
  assert (fromNumbered sample_reply <> []) as H2 by (by vm_compute).
  assert (fromNumbered (u "- a") = []) as H3 by (by vm_compute).
  destruct numbered_extraction as (T1 & _ & T3 & T4 & _).
  split; [split; [exact H1|exact (T1 _ _ (u "fix bug") H1)]|].
  split; [split; [exact H2|exact (T3 sample_reply H2)]|].
  split; [exact H3|exact (T4 (u "- a") H3)].
Defined.

(** C3 fails as it is worded: a line without white space after the dot is
    captured. *)
Lemma numbered_without_white_space :
  u "1.fix" ∈ lines (u "1.fix")
  /\ numbered (u "1.fix") = Some (u "fix")
  /\ ~ exists content, claimed_numbered_shape (u "1.fix") content.
Proof.
  split; [vm_compute; apply list_elem_of_here|]. split; [by vm_compute|].
  intros (content & digits & mark & gap & E & Hne & Hd & Hm & Hg & Hsp & _).
  change (u "1.fix") with [49; 46; 102; 105; 120] in E.
  destruct digits as [|d1 digits]; [done|]. injection E as <- E.
  destruct digits as [|d2 digits].
  - injection E as <- E. destruct gap as [|g gap]; [done|]. injection E as <- _.
    by inversion Hsp.
  - injection E as <- _. inversion Hd as [|? ? _ Hd']. by inversion Hd'.
Qed.

(** C8 (amended). Joining the messages that the normaliser returns into
    lines numbered from 1 and normalising again gives the same messages in
    the same order, provided none of them starts or ends with a quote
    character. *)
Theorem normalize_idempotent_unquoted raw :
  Forall unquoted (normalizeCommitSuggestions raw) ->
  normalizeCommitSuggestions (numbered_list (normalizeCommitSuggestions raw))
  = normalizeCommitSuggestions raw.
Proof. intros H. apply normalize_numbered_list; [apply normalize_message_ok|done]. Qed.

(** C8 fails: a quote that the first pass leaves at the start of a message,
    behind the white space it trims, is stripped by the second pass. *)
Lemma normalize_not_idempotent :
  normalizeCommitSuggestions
    (numbered_list (normalizeCommitSuggestions (u "1. ' `a'")))
  <> normalizeCommitSuggestions (u "1. ' `a'").
Proof. by vm_compute. Qed.

Lemma normalize_idempotent_unquoted_witness :
  Forall unquoted (normalizeCommitSuggestions sample_reply)
  /\ normalizeCommitSuggestions (numbered_list (normalizeCommitSuggestions sample_reply))
     = normalizeCommitSuggestions sample_reply.
Proof.
  assert (Forall unquoted (normalizeCommitSuggestions sample_reply)) as H.
  { vm_compute. repeat constructor. }
  split; [exact H|]. exact (normalize_idempotent_unquoted sample_reply H).
Defined.

(** ** Rendering the prompt *)

Lemma startsWith_app s pat : startsWith s pat = true <-> exists r, s = pat ++ r.
Proof.
  revert s. induction pat as [|c pat IH]; intros s; simpl.
  - destruct s; (split; [intros _; by eexists|done]).
  - destruct s as [|d s]; simpl; [split; [done|by intros (? & ?)]|].
    rewrite andb_true_iff, N.eqb_eq, IH. split.
    + intros (-> & r & ->). by exists r.
    + intros (r & [= -> ->]). split; [done|]. by exists r.
Qed.

(** [indexOf] finds the first occurrence. *)
Lemma indexOf_Some s pat : forall i,
  indexOf s pat = Some i ->
  s = take i s ++ pat ++ drop (i + length pat) s
  /\ forall k, (k < i)%nat -> startsWith (drop k s) pat = false.
Proof.
  induction s as [|c s IH]; intros i; cbn [indexOf].
  - destruct (startsWith [] pat) eqn:E; [|done]. intros [= <-].
    apply startsWith_app in E as [r E]. split; [|intros; lia].
    simpl. destruct pat; [done|]. done.
  - destruct (startsWith (c :: s) pat) eqn:E.
    + intros [= <-]. split; [|intros; lia].
      apply startsWith_app in E as [r E]. rewrite E at 1. simpl. f_equal.
      rewrite E. by rewrite drop_app_length.
    + destruct (indexOf s pat) as [j|] eqn:Ej; [|done]. intros [= <-].
      destruct (IH j eq_refl) as [H1 H2]. split.
      * simpl. by rewrite <- H1.
      * intros [|k] Hk; [done|]. simpl. apply H2. lia.
Qed.

Lemma GetSubstitution_plain matched before after rep :
  Forall (fun c => c <> 36) rep -> GetSubstitution matched before after rep = rep.
Proof.
  induction 1 as [|c rep Hc _ IH]; [done|]. cbn [GetSubstitution].
  apply N.eqb_neq in Hc. by rewrite Hc, IH.
Qed.

(** The part of C4 that the code meets: only the first occurrence of the
    placeholder is replaced, and a diff without a dollar sign is inserted as
    it is, also when it contains the placeholder itself. *)
Lemma render_without_dollar template diff :
  Forall (fun c => c <> 36) diff ->
  render template diff
  = match indexOf template placeholder with
    | Some i => take i template ++ diff ++ drop (i + length placeholder) template
    | None => template
    end.
Proof.
  intros H. unfold render, replace. destruct (indexOf template placeholder); [|done].
  by rewrite GetSubstitution_plain.
Qed.

Example render_first_occurrence_only :
  render (u "{{diff}} and {{diff}}") (u "+x") = u "+x and {{diff}}"
  /\ render (u "Summarize: {{diff}}") (u "+{{diff}}") = u "Summarize: +{{diff}}".
Proof. split; by vm_compute. Qed.

(** C4, where the code departs from it. A diff that holds one of the
    replacement patterns of [String.prototype.replace] is not inserted as it
    is: two dollar signs become one, and a dollar sign followed by an
    ampersand becomes the placeholder. *)
Theorem render_rewrites_dollar_patterns :
  render (u "Summarize: {{diff}}") (u "+echo $$") = u "Summarize: +echo $"
  /\ render (u "Summarize: {{diff}}") (u "+s/x/$&/") = u "Summarize: +s/x/{{diff}}/"
  /\ render (u "Summarize: {{diff}}") (u "+echo $$")
     <> u "Summarize: " ++ u "+echo $$".
Proof. repeat split; by vm_compute. Qed.

(** ** More on the normaliser *)

(** The normaliser reads the reply through its [lines] only. *)
Lemma normalize_of_lines a b :
  lines a = lines b -> normalizeCommitSuggestions a = normalizeCommitSuggestions b.
Proof.
  intros H. unfold normalizeCommitSuggestions, candidates, fromBullets, fromNumbered.
  by rewrite H.
Qed.

Lemma trim_idempotent s : trim (trim s) = trim s.
Proof. apply trim_clean; [apply trim_starts_clean|apply trim_ends_clean]. Qed.

Lemma drop_while_snoc_space (l : str) c :
  is_space c = true ->
  drop_while is_space (l ++ [c])
  = match drop_while is_space l with [] => [] | _ :: _ => drop_while is_space l ++ [c] end.
Proof.
  intros Hc. induction l as [|d l IH]; simpl; [by rewrite Hc|].
  destruct (is_space d); [done|done].
Qed.

Lemma trim_snoc_space (l : str) c : is_space c = true -> trim (l ++ [c]) = trim l.
Proof.
  intros Hc. unfold trim. rewrite drop_while_snoc_space by done.
  destruct (drop_while is_space l) as [|d r] eqn:E; [done|].
  rewrite reverse_app. simpl. by rewrite Hc.
Qed.

(** X1. Every message that the normaliser returns is non-empty, is its own
    trim, and holds no line terminator. *)
Theorem normalize_output_clean raw m :
  m ∈ normalizeCommitSuggestions raw ->
  m <> [] /\ trim m = m /\ Forall (fun c => is_line_terminator c = false) m.
Proof.
  intros Hm. pose proof (normalize_message_ok raw) as H.
  rewrite Forall_forall in H. destruct (H m Hm) as (Hne & Hs & He & Hd).
  split; [done|]. split; [by apply trim_clean|].
  eapply Forall_impl; [exact Hd|]. intros c Hc. simpl in Hc. unfold is_dot in Hc.
  by apply negb_true_iff in Hc.
Qed.

(** *** Line endings *)

Lemma startsWith_nil s : startsWith s [] = true.
Proof. by destruct s. Qed.

Lemma crlf_nil : replaceAll [] [CR; LF] [LF] = [].
Proof. done. Qed.

Lemma crlf_cons_ne c r :
  c <> CR -> replaceAll (c :: r) [CR; LF] [LF] = c :: replaceAll r [CR; LF] [LF].
Proof.
  intros Hc. unfold replaceAll. cbn [replaceAll_from startsWith].
  apply N.eqb_neq in Hc. by rewrite Hc.
Qed.

Lemma crlf_CR_LF r :
  replaceAll (CR :: LF :: r) [CR; LF] [LF] = LF :: replaceAll r [CR; LF] [LF].
Proof.
  unfold replaceAll. cbn [replaceAll_from startsWith]. rewrite startsWith_nil.
  by rewrite !N.eqb_refl.
Qed.

Lemma crlf_CR_ne c r :
  c <> LF ->
  replaceAll (CR :: c :: r) [CR; LF] [LF] = CR :: replaceAll (c :: r) [CR; LF] [LF].
Proof.
  intros Hc. unfold replaceAll. cbn [replaceAll_from startsWith].
  apply N.eqb_neq in Hc. rewrite Hc, N.eqb_refl. simpl andb. done.
Qed.

Lemma crlf_CR_end : replaceAll [CR] [CR; LF] [LF] = [CR].
Proof. done. Qed.

Lemma split_cons_sep y : split LF (LF :: y) = [] :: split LF y.
Proof. done. Qed.

Lemma split_cons_ne c y : c <> LF -> split LF (c :: y) = cons_head c (split LF y).
Proof. intros Hc. cbn [split]. apply N.eqb_neq in Hc. by rewrite Hc. Qed.

Lemma cons_head_shape c (init : list str) (x : str) :
  exists init' x',
    (forall e, cons_head c (init ++ [x ++ e]) = init' ++ [x' ++ e])
    /\ (forall rest, cons_head c (init ++ [x] ++ rest) = init' ++ [x'] ++ rest).
Proof.
  destruct init as [|h t].
  - exists [], (c :: x). done.
  - exists ((c :: h) :: t), x. done.
Qed.

(** The pieces of [a] followed by a line feed and [b]: those of [a], the
    last one without a carriage return it may end with, then those of [b]. *)
Lemma pieces_app b : forall n a,
  (length a < n)%nat ->
  exists init last e,
    (e = [] \/ e = [CR])
    /\ split LF (replaceAll a [CR; LF] [LF]) = init ++ [last ++ e]
    /\ split LF (replaceAll (a ++ LF :: b) [CR; LF] [LF])
       = init ++ [last] ++ split LF (replaceAll b [CR; LF] [LF]).
Proof.
  induction n as [|n IH]; intros a Hlen; [lia|].
  assert (forall c x, c <> CR -> c <> LF -> (length x < n)%nat ->
            (forall y, replaceAll (c :: y) [CR; LF] [LF]
                       = c :: replaceAll y [CR; LF] [LF]) ->
            exists init last e,
              (e = [] \/ e = [CR])
              /\ split LF (replaceAll (c :: x) [CR; LF] [LF]) = init ++ [last ++ e]
              /\ split LF (replaceAll ((c :: x) ++ LF :: b) [CR; LF] [LF])
                 = init ++ [last] ++ split LF (replaceAll b [CR; LF] [LF])) as Hplain.
  { intros c x _ Hlf Hx Hstep. destruct (IH x Hx) as (init & last & e & He & H1 & H2).
    destruct (cons_head_shape c init last) as (init' & last' & Hsh1 & Hsh2).
    exists init', last', e. split; [done|]. simpl app. rewrite !Hstep.
    rewrite !split_cons_ne by done. rewrite H1, H2. split; [apply Hsh1|apply Hsh2]. }
  destruct a as [|c a].
  - exists [], [], []. split; [by left|]. split; [done|].
    simpl app. rewrite crlf_cons_ne by done. by rewrite split_cons_sep.
  - simpl in Hlen. destruct (decide (c = CR)) as [->|Hcr].
    + destruct a as [|d a].
      * exists [], [], [CR]. split; [by right|]. split; [done|].
        simpl app. by rewrite crlf_CR_LF, split_cons_sep.
      * simpl in Hlen. destruct (decide (d = LF)) as [->|Hlf].
        -- destruct (IH a ltac:(lia)) as (init & last & e & He & H1 & H2).
           exists ([] :: init), last, e. split; [done|]. simpl app.
           rewrite !crlf_CR_LF, !split_cons_sep, H1, H2. done.
        -- destruct (IH (d :: a) ltac:(simpl; lia)) as (init & last & e & He & H1 & H2).
           destruct (cons_head_shape CR init last) as (init' & last' & Hsh1 & Hsh2).
           exists init', last', e. split; [done|]. simpl app.
           rewrite !crlf_CR_ne by done. rewrite !split_cons_ne by done.
           simpl app in H2. rewrite H1, H2. split; [apply Hsh1|apply Hsh2].
    + destruct (decide (c = LF)) as [->|Hlf].
      * destruct (IH a ltac:(lia)) as (init & last & e & He & H1 & H2).
        exists ([] :: init), last, e. split; [done|]. simpl app.
        rewrite !crlf_cons_ne by done. rewrite !split_cons_sep, H1, H2. done.
      * apply Hplain; [done|done|lia|]. intros y. by apply crlf_cons_ne.
Qed.

Lemma lines_app a b : lines (a ++ LF :: b) = lines a ++ lines b.
Proof.
  destruct (pieces_app b (S (length a)) a ltac:(lia))
    as (init & last & e & He & H1 & H2).
  unfold lines. rewrite H1, H2, !map_app, !filter_app, <- !app_assoc.
  f_equal. f_equal.
  destruct He as [-> | ->]; [by rewrite app_nil_r|].
  simpl map. rewrite trim_snoc_space; [done|by vm_compute].
Qed.

Lemma normalize_output_clean_witness :
  u "fix: a" ∈ normalizeCommitSuggestions sample_reply
  /\ (u "fix: a" <> []
      /\ trim (u "fix: a") = u "fix: a"
      /\ Forall (fun c => is_line_terminator c = false) (u "fix: a")).
Proof.
  assert (u "fix: a" ∈ normalizeCommitSuggestions sample_reply) as H.
  { vm_compute. apply list_elem_of_here. }
  split; [exact H|]. exact (normalize_output_clean sample_reply (u "fix: a") H).
Defined.

Lemma crlf_no_LF l : Forall (fun c => c <> LF) l -> replaceAll l [CR; LF] [LF] = l.
Proof.
  induction 1 as [|c l Hc Hl IH]; [done|]. destruct (decide (c = CR)) as [->|Hcr].
  - destruct l as [|d l]; [done|]. inversion Hl; subst.
    rewrite crlf_CR_ne by done. by rewrite IH.
  - rewrite crlf_cons_ne by done. by rewrite IH.
Qed.

Lemma lines_single l :
  Forall (fun c => c <> LF) l ->
  lines l
  = filter (fun line => (bool_decide (line = fence) || startsWith line fence) = false)
      (filter (fun line => (0 < length line)%nat) [trim l]).
Proof. intros H. unfold lines. by rewrite crlf_no_LF, split_no_sep. Qed.

Lemma lines_skipped l : skipped_line l -> lines l = [].
Proof.
  intros [Hl H]. rewrite lines_single by done. destruct H as [E|E].
  - rewrite E. rewrite (filter_cons_False (fun line : str => (0 < length line)%nat));
      [done|simpl; lia].
  - destruct (trim l) as [|c t] eqn:Et; [done|].
    rewrite (filter_cons_True (fun line : str => (0 < length line)%nat));
      [|simpl; lia].
    rewrite filter_nil. rewrite filter_cons_False; [done|].
    rewrite E, orb_true_r. done.
Qed.

Lemma lines_nil : lines [] = [].
Proof. apply lines_skipped. split; [constructor|by left]. Qed.

Lemma normalize_nil : normalizeCommitSuggestions [] = [].
Proof. done. Qed.

(** X2. A line that is blank, or that begins with three backticks once
    trimmed, adds nothing to the result, whether it stands first, last or
    between other lines. *)
Theorem normalize_skips_line l raw a b :
  skipped_line l ->
  normalizeCommitSuggestions (l ++ LF :: raw) = normalizeCommitSuggestions raw
  /\ normalizeCommitSuggestions (raw ++ LF :: l) = normalizeCommitSuggestions raw
  /\ normalizeCommitSuggestions (a ++ LF :: l ++ LF :: b)
     = normalizeCommitSuggestions (a ++ LF :: b).
Proof.
  intros Hl. pose proof (lines_skipped l Hl) as E.
  split; [|split]; apply normalize_of_lines.
  - by rewrite lines_app, E.
  - by rewrite lines_app, E, app_nil_r.
  - by rewrite !lines_app, E.
Qed.

Lemma normalize_skips_line_witness :
  skipped_line (u "```text")
  /\ (normalizeCommitSuggestions (u "```text" ++ LF :: sample_reply)
      = normalizeCommitSuggestions sample_reply
      /\ normalizeCommitSuggestions (sample_reply ++ LF :: u "```text")
         = normalizeCommitSuggestions sample_reply
      /\ normalizeCommitSuggestions (u "intro" ++ LF :: u "```text" ++ LF :: sample_reply)
         = normalizeCommitSuggestions (u "intro" ++ LF :: sample_reply)).
Proof.
  assert (skipped_line (u "```text")) as H.
  { split; [|right; by vm_compute]. vm_compute. repeat constructor; done. }
  split; [exact H|].
  exact (normalize_skips_line (u "```text") sample_reply (u "intro") sample_reply H).
Defined.

Lemma to_crlf_head r : from_option (fun d => d =? 10) false (head (to_crlf r)) = false.
Proof.
  destruct r as [|c r]; [done|]. simpl. destruct (c =? 10) eqn:E; simpl; [done|exact E].
Qed.

(** Windows line endings are undone by the first step of the normaliser. *)
Lemma crlf_to_crlf raw : replaceAll (to_crlf raw) [CR; LF] [LF] = raw.
Proof.
  induction raw as [|c r IH]; [done|]. cbn [to_crlf].
  destruct (N.eqb_spec c 10) as [->|Hc].
  - fold LF. by rewrite crlf_CR_LF, IH.
  - destruct (decide (c = CR)) as [->|Hcr].
    + pose proof (to_crlf_head r) as Hh. destruct (to_crlf r) as [|d t] eqn:Et.
      * rewrite crlf_nil in IH. by subst r.
      * simpl in Hh. apply N.eqb_neq in Hh.
        rewrite crlf_CR_ne by done. by rewrite IH.
    + rewrite crlf_cons_ne by done. by rewrite IH.
Qed.

Lemma lines_to_crlf raw : forall pre,
  Forall (fun c => c <> LF) pre -> lines (pre ++ to_crlf raw) = lines (pre ++ raw).
Proof.
  induction raw as [|c r IH]; intros pre Hpre; [done|]. cbn [to_crlf].
  destruct (N.eqb_spec c 10) as [->|Hc].
  - fold LF. change (pre ++ CR :: LF :: to_crlf r) with (pre ++ [CR] ++ LF :: to_crlf r).
    rewrite app_assoc, !lines_app.
    pose proof (IH [] ltac:(constructor)) as IH0. simpl app in IH0. rewrite IH0.
    f_equal. rewrite !lines_single; [|done|].
    + rewrite trim_snoc_space; [done|by vm_compute].
    + apply Forall_app. split; [done|]. by repeat constructor.
  - change (pre ++ c :: to_crlf r) with (pre ++ [c] ++ to_crlf r).
    change (pre ++ c :: r) with (pre ++ [c] ++ r). rewrite !app_assoc.
    apply IH. apply Forall_app. split; [done|]. by repeat constructor.
Qed.

(** X3. Line endings do not matter: a reply gives the same suggestions with
    Unix line endings and with a carriage return put before every line
    feed. *)
Theorem normalize_line_endings raw :
  replaceAll (to_crlf raw) [CR; LF] [LF] = raw
  /\ normalizeCommitSuggestions (to_crlf raw) = normalizeCommitSuggestions raw.
Proof.
  split; [apply crlf_to_crlf|]. apply normalize_of_lines.
  apply (lines_to_crlf raw []). constructor.
Qed.

(** *** Replies without items, and replies in bullets *)

Lemma omap_None {A B} (f : A -> option B) (l : list A) :
  Forall (fun x => f x = None) l -> omap f l = [].
Proof.
  induction 1 as [|x l Hx _ IH]; [done|]. cbn [omap list_omap]. rewrite Hx. exact IH.
Qed.

Lemma numbered_no_digit line :
  ends_clean line -> from_option is_digit false (head line) = false ->
  numbered line = None.
Proof.
  intros He Hh. rewrite numbered_numbered_direct by done. unfold numbered_direct.
  destruct line as [|c r]; [done|]. simpl in Hh. simpl. by rewrite Hh.
Qed.

Lemma bullet_no_mark line :
  ends_clean line -> from_option is_dash_or_star false (head line) = false ->
  bullet line = None.
Proof.
  intros He Hh. rewrite bullet_bullet_direct by done. unfold bullet_direct.
  destruct line as [|c r]; [done|]. simpl in Hh. by rewrite Hh.
Qed.

(** X4. A reply none of whose lines begins (after white space) with a
    digit, a dash or a star gives no suggestion at all. *)
Theorem normalize_without_items raw :
  Forall no_marker (lines raw) -> normalizeCommitSuggestions raw = [].
Proof.
  intros H.
  assert (Forall (fun l => numbered l = None) (lines raw)
          /\ Forall (fun l => bullet l = None) (lines raw)) as [Hn Hb].
  { rewrite Forall_forall in H. split; apply Forall_forall; intros l Hl;
      pose proof (H l Hl) as Hm; apply lines_clean in Hl as (_ & He & _);
      unfold no_marker in Hm; destruct l as [|c r]; simpl in Hm;
      try apply orb_false_iff in Hm as [Hd Hs].
    - by apply numbered_no_digit.
    - by apply numbered_no_digit.
    - by apply bullet_no_mark.
    - by apply bullet_no_mark. }
  unfold normalizeCommitSuggestions, candidates, fromBullets, fromNumbered.
  rewrite (omap_None _ _ Hn), (omap_None _ _ Hb). done.
Qed.

Lemma normalize_without_items_witness :
  Forall no_marker (lines prose) /\ normalizeCommitSuggestions prose = [].
Proof.
  assert (Forall no_marker (lines prose)) as H.
  { vm_compute. repeat constructor. }
  split; [exact H|]. exact (normalize_without_items prose H).
Defined.

Lemma bullet_entry_line_ok b m :
  is_dash_or_star b = true -> message_ok m -> line_ok (bullet_entry b m).
Proof.
  intros Hb (Hne & Hs & He & Hd). unfold bullet_entry.
  split; [|split; [|split; [|split]]].
  - constructor; [unfold LF, CR; class_solve|].
    constructor; [unfold LF, CR; done|].
    eapply Forall_impl; [apply Hd|]. unfold LF, CR. intros c Hc. simpl in Hc.
    class_solve.
  - intros c [= <-]. class_solve.
  - intros c. change (b :: 32 :: m) with ([b; 32] ++ m).
    rewrite last_app_cons_ne by done. apply He.
  - done.
  - assert ((b =? 96) = false) as Hq by class_solve.
    change fence with [96; 96; 96]. cbn [startsWith]. rewrite Hq.
    rewrite bool_decide_eq_false_2; [done|]. intros [= -> _].
Qed.

Lemma bullet_entry_bullet b m :
  is_dash_or_star b = true -> message_ok m -> bullet (bullet_entry b m) = Some m.
Proof.
  intros Hb Hm. pose proof (bullet_entry_line_ok b m Hb Hm) as (_ & _ & He & _).
  destruct Hm as (Hne & Hs & _ & Hd).
  rewrite bullet_bullet_direct by done. unfold bullet_direct, bullet_entry.
  rewrite Hb. change (is_space 32) with true. cbn [take_while drop_while].
  change (is_space 32) with true. cbv iota. simpl length.
  rewrite drop_while_clean by done. change (S _ <? 1)%nat with false.
  by rewrite bool_decide_content.
Qed.

Lemma bullet_entry_numbered b m :
  is_dash_or_star b = true -> message_ok m -> numbered (bullet_entry b m) = None.
Proof.
  intros Hb Hm. pose proof (bullet_entry_line_ok b m Hb Hm) as (_ & _ & He & _).
  apply numbered_no_digit; [done|]. simpl. class_solve.
Qed.

Lemma bullet_entries_ok (items : list (char * str)) :
  Forall (fun bm => is_dash_or_star bm.1 = true /\ plain_message bm.2) items ->
  Forall line_ok (map (fun bm => bullet_entry bm.1 bm.2) items)
  /\ omap numbered (map (fun bm => bullet_entry bm.1 bm.2) items) = []
  /\ omap bullet (map (fun bm => bullet_entry bm.1 bm.2) items) = map snd items.
Proof.
  induction 1 as [|[b m] items (Hb & Hm & Hq) _ (IH1 & IH2 & IH3)]; [done|].
  simpl in Hb, Hm, Hq. cbn [map fst snd]. split; [|split].
  - constructor; [by apply bullet_entry_line_ok|done].
  - cbn [omap list_omap]. rewrite bullet_entry_numbered by done. exact IH2.
  - cbn [omap list_omap]. rewrite bullet_entry_bullet by done.
    fold (omap bullet (map (fun bm : char * str => bullet_entry bm.1 bm.2) items)).
    by rewrite IH3.
Qed.

(** X5. Round trip for bullets: a reply made of lines with a dash or a star,
    one space and a message gives back the messages, in order, when each
    message is non-empty, has no white space or quote character at either
    end and holds no line terminator. *)
Theorem normalize_bulleted_list (items : list (char * str)) :
  Forall (fun bm => is_dash_or_star bm.1 = true /\ plain_message bm.2) items ->
  normalizeCommitSuggestions (join [LF] (map (fun bm => bullet_entry bm.1 bm.2) items))
  = map snd items.
Proof.
  intros H. destruct (bullet_entries_ok items H) as (Hl & Hn & Hb).
  unfold normalizeCommitSuggestions, candidates, fromBullets, fromNumbered.
  rewrite lines_join, Hn, Hb by done. cbn [length Nat.ltb Nat.leb Nat.eqb].
  assert (map clean (map snd items) = map snd items) as ->.
  { clear -H. induction H as [|[b m] items (_ & (_ & Hs & He & _) & Hq) _ IH]; [done|].
    simpl in *. rewrite clean_id by done. by rewrite IH. }
  apply filter_all. clear -H.
  induction H as [|[b m] items (_ & (Hne & _) & _) _ IH]; constructor; [|done].
  simpl in *. destruct m; simpl; [done|lia].
Qed.

Lemma normalize_bulleted_list_witness :
  Forall (fun bm => is_dash_or_star bm.1 = true /\ plain_message bm.2) bulleted_reply
  /\ normalizeCommitSuggestions
       (join [LF] (map (fun bm => bullet_entry bm.1 bm.2) bulleted_reply))
     = map snd bulleted_reply.
Proof.
  assert (Forall (fun bm => is_dash_or_star bm.1 = true /\ plain_message bm.2)
            bulleted_reply) as H.
  { repeat constructor; try done; try (by vm_compute);
      try (intros c Hc; vm_compute in Hc; injection Hc as <-; by vm_compute);
      vm_compute; repeat constructor. }
  split; [exact H|]. exact (normalize_bulleted_list bulleted_reply H).
Defined.

(** ** More on rendering the prompt *)

Lemma indexOf_here s pat : startsWith s pat = true -> indexOf s pat = Some 0%nat.
Proof. intros H. destruct s; cbn [indexOf]; by rewrite H. Qed.

Lemma indexOf_first a pat b :
  first_occurrence a pat b -> indexOf (a ++ pat ++ b) pat = Some (length a).
Proof.
  unfold first_occurrence. induction a as [|c a IH]; intros H.
  - apply indexOf_here. apply startsWith_app. by exists b.
  - pose proof (H 0%nat ltac:(simpl; lia)) as H0.
    rewrite drop_0 in H0. change ((c :: a) ++ pat ++ b) with (c :: (a ++ pat ++ b)) in *.
    cbn [indexOf]. rewrite H0. rewrite IH; [done|].
    intros k Hk. apply (H (S k)). simpl. lia.
Qed.

Lemma GetSubstitution_escaped matched before after d :
  GetSubstitution matched before after (escape_dollars d) = d.
Proof.
  induction d as [|c d IH]; [done|]. cbn [escape_dollars].
  destruct (c =? 36) eqn:E.
  - apply N.eqb_eq in E as ->. cbn [GetSubstitution]. rewrite !N.eqb_refl. by rewrite IH.
  - cbn [GetSubstitution]. by rewrite E, IH.
Qed.

(** X6. A template in which the placeholder does not occur is sent as it
    is: the diff is left out of the prompt. *)
Theorem render_without_placeholder template diff :
  (forall a b, template <> a ++ placeholder ++ b) -> render template diff = template.
Proof.
  intros H. unfold render, replace.
  destruct (indexOf template placeholder) as [i|] eqn:E; [|done].
  apply indexOf_Some in E as [E _]. by apply H in E.
Qed.

Lemma render_without_placeholder_witness :
  (forall a b, template_without_placeholder <> a ++ placeholder ++ b)
  /\ render template_without_placeholder (u "+foo") = template_without_placeholder.
Proof.
  assert (forall a b, template_without_placeholder <> a ++ placeholder ++ b) as H.
  { intros a b E.
    assert (Forall (fun c => c <> 123) template_without_placeholder) as Hf.
    { vm_compute. repeat constructor; done. }
    rewrite E, !Forall_app in Hf. destruct Hf as (_ & Hf & _).
    vm_compute in Hf. inversion Hf; subst. done. }
  split; [exact H|]. exact (render_without_placeholder _ (u "+foo") H).
Defined.

(** X7. The diff replaces the first occurrence of the placeholder and
    nothing else. A diff without a dollar sign arrives as it is; so does
    any diff once each of its dollar signs is doubled. *)
Theorem render_first_occurrence a b :
  first_occurrence a placeholder b ->
  (forall diff,
      Forall (fun c => c <> 36) diff ->
      render (a ++ placeholder ++ b) diff = a ++ diff ++ b)
  /\ (forall diff,
        render (a ++ placeholder ++ b) (escape_dollars diff) = a ++ diff ++ b).
Proof.
  intros H.
  assert (forall rep,
            render (a ++ placeholder ++ b) rep
            = a ++ GetSubstitution placeholder a b rep ++ b) as Hrender.
  { intros rep. unfold render, replace. rewrite (indexOf_first _ _ _ H).
    cbv zeta. rewrite take_app_length.
    assert (drop (length a + length placeholder) (a ++ placeholder ++ b) = b) as ->;
      [|done].
    rewrite <- drop_drop, drop_app_length. by rewrite drop_app_length. }
  split; intros diff.
  - intros Hd. by rewrite Hrender, GetSubstitution_plain.
  - by rewrite Hrender, GetSubstitution_escaped.
Qed.

Lemma render_first_occurrence_witness :
  first_occurrence (u "Summarize: ") placeholder (u " and {{diff}}")
  /\ Forall (fun c => c <> 36) (u "+foo")
  /\ render (u "Summarize: " ++ placeholder ++ u " and {{diff}}") (u "+foo")
     = u "Summarize: " ++ u "+foo" ++ u " and {{diff}}"
  /\ render (u "Summarize: " ++ placeholder ++ u " and {{diff}}")
       (escape_dollars (u "+echo $$"))
     = u "Summarize: " ++ u "+echo $$" ++ u " and {{diff}}".
Proof.
  assert (first_occurrence (u "Summarize: ") placeholder (u " and {{diff}}")) as H.
  { intros k Hk. do 11 (destruct k as [|k]; [by vm_compute|]).
    vm_compute in Hk. lia. }
  assert (Forall (fun c => c <> 36) (u "+foo")) as Hd.
  { vm_compute. repeat constructor; done. }
  destruct (render_first_occurrence (u "Summarize: ") (u " and {{diff}}") H)
    as [Hplain Hescaped].
  split; [exact H|]. split; [exact Hd|].
  split; [exact (Hplain (u "+foo") Hd)|exact (Hescaped (u "+echo $$"))].
Defined.

(** ** Quote stripping *)

Lemma exec_quotes_run r pos s :
  r = [] \/ r = [Eol] -> s <> [] -> all is_quote s ->
  exec (Rep 1 is_quote :: r) pos s [] [] = Some (MatchState (pos + length s) [] []).
Proof.
  intros Hr Hne Hs. rewrite exec_Rep, take_while_all by done.
  assert (exec r (pos + length s) (drop (length s) s) [] []
          = Some (MatchState (pos + length s) [] [])) as E.
  { rewrite drop_all. by destruct Hr as [-> | ->]. }
  rewrite first_down_top; [done| |by rewrite E].
  destruct s; [done|simpl; lia].
Qed.

Lemma exec_quotes_start qs m :
  qs <> [] -> all is_quote qs -> from_option is_quote false (head m) = false ->
  exec [Bol; Rep 1 is_quote] 0 (qs ++ m) [] [] = Some (MatchState (length qs) m []).
Proof.
  intros Hne Hqs Hm. rewrite exec_Bol. cbn [Nat.eqb]. rewrite exec_Rep.
  destruct (span_app is_quote qs m Hqs Hm) as [-> _].
  assert (exec [] (0 + length qs) (drop (length qs) (qs ++ m)) [] []
          = Some (MatchState (length qs) m [])) as E.
  { by rewrite drop_app_length. }
  rewrite first_down_top; [done| |by rewrite E].
  destruct qs; [done|simpl; lia].
Qed.

Lemma search_here (alts : list (list node)) pos s st :
  exec_alts alts pos s = Some st -> search alts pos s = Some (0%nat, st).
Proof. intros H. destruct s; cbn [search]; by rewrite H. Qed.

Lemma search_quotes_head qs m :
  qs <> [] -> all is_quote qs -> from_option is_quote false (head m) = false ->
  search re_quotes 0 (qs ++ m) = Some (0%nat, MatchState (length qs) m []).
Proof.
  intros Hne Hqs Hm. apply search_here. cbn [exec_alts re_quotes].
  by rewrite exec_quotes_start.
Qed.

Lemma exec_quotes_end_Some pos s st :
  exec [Rep 1 is_quote; Eol] pos s [] [] = Some st -> all is_quote s.
Proof.
  rewrite exec_Rep. intros H. apply first_down_Some in H as (k & Hk & H).
  destruct (drop k s) eqn:Ed; [|done]. apply drop_nil_inv in Ed.
  pose proof (take_while_length is_quote s). apply take_while_full. lia.
Qed.

Lemma search_quotes_nil pos : search re_quotes pos [] = None.
Proof. by apply search_quotes_None. Qed.

Lemma remove_quotes_nil fuel pos : remove_matches fuel re_quotes pos [] = [].
Proof. destruct fuel; [done|]. cbn [remove_matches]. by rewrite search_quotes_nil. Qed.

(** The quotes at the end of a text are found after everything else. *)
Lemma search_quotes_tail qs : forall m pos,
  (pos = 0%nat -> m <> [] /\ from_option is_quote false (head m) = false) ->
  from_option is_quote false (last m) = false ->
  qs <> [] -> all is_quote qs ->
  search re_quotes pos (m ++ qs)
  = Some (length m, MatchState (pos + length m + length qs) [] []).
Proof.
  induction m as [|c m IH]; intros pos Hpos Hlast Hne Hqs.
  - assert (pos <> 0%nat) as Hp by (intros ->; by destruct (Hpos eq_refl)).
    simpl app. destruct qs as [|q qs]; [done|].
    cbn [search re_quotes exec_alts]. rewrite exec_Bol.
    destruct pos; [done|]. cbn [Nat.eqb].
    rewrite (exec_quotes_run [Eol]); [|by right|done|done].
    simpl length. do 3 f_equal. lia.
  - change ((c :: m) ++ qs) with (c :: (m ++ qs)).
    cbn [search re_quotes exec_alts].
    rewrite exec_quotes_start_None; cycle 1.
    { intros E d [= <-]. by destruct (Hpos E) as [_ ?]. }
    destruct (exec [Rep 1 is_quote; Eol] pos (c :: m ++ qs) [] []) as [st|] eqn:E.
    { exfalso. apply exec_quotes_end_Some in E.
      change (c :: m ++ qs) with ((c :: m) ++ qs) in E.
      apply Forall_app in E as [E _].
      destruct (last (c :: m)) as [d|] eqn:El; [|by apply last_None in El].
      simpl in Hlast. by rewrite (last_all _ _ _ E El) in Hlast. }
    rewrite (IH (S pos)); [| |by destruct m|done|done].
    + simpl length. do 3 f_equal. lia.
    + intros [=].
Qed.

Lemma remove_quotes_tail fuel pos m qs :
  (1 <= fuel)%nat -> m <> [] ->
  (pos = 0%nat -> from_option is_quote false (head m) = false) ->
  from_option is_quote false (last m) = false ->
  all is_quote qs ->
  remove_matches fuel re_quotes pos (m ++ qs) = m.
Proof.
  intros Hfuel Hm Hhead Hlast Hqs. destruct fuel as [|fuel]; [lia|].
  cbn [remove_matches]. destruct qs as [|q qs].
  - rewrite app_nil_r. rewrite search_quotes_None; [done| |].
    + intros E c Hc. specialize (Hhead E). by rewrite Hc in Hhead.
    + intros c Hc. by rewrite Hc in Hlast.
  - rewrite search_quotes_tail; [|by auto|done|done|done].
    cbn [m_end m_rest]. by rewrite take_app_length, remove_quotes_nil, app_nil_r.
Qed.

Lemma strip_quotes qs1 m qs2 :
  all is_quote qs1 -> all is_quote qs2 -> unquoted m ->
  replace_global_empty re_quotes (qs1 ++ m ++ qs2) = m.
Proof.
  intros H1 H2 [Hhead Hlast]. unfold replace_global_empty.
  destruct m as [|c m].
  - simpl app. assert (all is_quote (qs1 ++ qs2)) as Hq by (by apply Forall_app).
    destruct (qs1 ++ qs2) as [|q qs] eqn:E.
    + by rewrite remove_quotes_nil.
    + cbn [remove_matches search re_quotes exec_alts]. rewrite exec_Bol. cbn [Nat.eqb].
      rewrite (exec_quotes_run []); [|by left|done|done].
      cbn [m_end m_rest take app]. by rewrite remove_quotes_nil.
  - destruct qs1 as [|q qs1].
    + change ([] ++ (c :: m) ++ qs2) with ((c :: m) ++ qs2).
      apply (remove_quotes_tail _ _ (c :: m) qs2); [lia|done|done|done|done].
    + cbn [remove_matches].
      rewrite (search_quotes_head (q :: qs1) ((c :: m) ++ qs2)) by done.
      cbn [m_end m_rest take]. rewrite app_nil_l.
      apply (remove_quotes_tail _ _ (c :: m) qs2); [|done|done|done|done].
      rewrite length_app. simpl. lia.
Qed.

(** X28. Quote stripping. A candidate made of a message between a run of
    quote characters (double, single or backtick) and another, either of
    which may be empty, is cleaned to the message, trimmed, when the message
    itself neither starts nor ends with a quote character. So a numbered
    line whose text is wrapped in quotes gives the text without them. *)
Theorem clean_strips_quotes (qs1 m qs2 : str) :
  all is_quote qs1 -> all is_quote qs2 -> unquoted m ->
  clean (qs1 ++ m ++ qs2) = trim m
  /\ forall n,
       plain_message m ->
       normalizeCommitSuggestions (entry n (qs1 ++ m ++ qs2)) = [m].
Proof.
  intros H1 H2 Hq.
  assert (clean (qs1 ++ m ++ qs2) = trim m) as Hclean.
  { unfold clean. by rewrite strip_quotes. }
  split; [done|]. intros n ((Hne & Hs & He & Hd) & _).
  assert (forall c, is_quote c = true -> is_space c = false /\ is_dot c = true) as Hquote.
  { intros c Hc. split; class_solve. }
  assert (forall qs : str, all is_quote qs -> all is_dot qs) as Hdot.
  { intros qs Hqs. eapply Forall_impl; [exact Hqs|]. intros c Hc. by apply Hquote. }
  assert (message_ok (qs1 ++ m ++ qs2)) as Hok.
  { split; [by destruct qs1, m|]. split; [|split].
    - intros c Hc. destruct qs1 as [|q qs1].
      + destruct m as [|c0 m]; [done|]. by apply Hs.
      + injection Hc as <-. inversion H1; subst. by apply Hquote.
    - intros c Hc. destruct (last qs2) as [d|] eqn:El.
      + pose proof (last_all _ _ _ H2 El) as Hd'.
        apply last_Some in El as [l' ->]. rewrite !app_assoc, last_snoc in Hc.
        injection Hc as <-. by apply Hquote.
      + apply last_None in El. subst qs2. rewrite app_nil_r in Hc.
        rewrite last_app_cons_ne in Hc by done. by apply He.
    - unfold all. rewrite !Forall_app. split; [by apply Hdot|]. split; [done|by apply Hdot]. }
  destruct (entries_ok [qs1 ++ m ++ qs2] (fun _ s => entry n s)) as [Hl Hn];
    [intros i s; by exists n|by constructor|].
  change (entry n (qs1 ++ m ++ qs2))
    with (join [LF] (imap (fun (_ : nat) s => entry n s) [qs1 ++ m ++ qs2])).
  unfold normalizeCommitSuggestions, candidates, fromNumbered.
  rewrite lines_join, Hn by done. cbn [length Nat.ltb Nat.leb map].
  rewrite Hclean, trim_clean by done.
  rewrite filter_cons_True by (destruct m; simpl; [done|lia]). done.
Qed.

Lemma clean_strips_quotes_witness :
  all is_quote [34; 96] /\ all is_quote [96; 34] /\ unquoted (u "fix: it's done")
  /\ clean ([34; 96] ++ u "fix: it's done" ++ [96; 34]) = trim (u "fix: it's done")
  /\ plain_message (u "fix: it's done")
  /\ normalizeCommitSuggestions (entry 3 ([34; 96] ++ u "fix: it's done" ++ [96; 34]))
     = [u "fix: it's done"].
Proof.
  assert (all is_quote [34; 96]) as H1 by (by repeat constructor).
  assert (all is_quote [96; 34]) as H2 by (by repeat constructor).
  assert (unquoted (u "fix: it's done")) as H3 by (by split).
  assert (plain_message (u "fix: it's done")) as H4.
  { split; [|exact H3]. split; [done|]. split; [|split].
    - intros c Hc. vm_compute in Hc. injection Hc as <-. by vm_compute.
    - intros c Hc. vm_compute in Hc. injection Hc as <-. by vm_compute.
    - vm_compute. repeat constructor. }
  split; [exact H1|]. split; [exact H2|]. split; [exact H3|].
  destruct (clean_strips_quotes [34; 96] (u "fix: it's done") [96; 34] H1 H2 H3)
    as [Hc Hn].
  split; [exact Hc|]. split; [exact H4|]. exact (Hn 3%nat H4).
Defined.

(** ** The configuration store *)

Lemma keys_distinct :
  OPENAI_API_KEY <> OPENAI_API_BASE /\ OPENAI_API_KEY <> model
  /\ OPENAI_API_KEY <> templates /\ OPENAI_API_BASE <> model
  /\ OPENAI_API_BASE <> templates /\ model <> templates.
Proof. repeat split; discriminate. Qed.

Lemma set_DEFAULT_CONFIG_id p : set_DEFAULT_CONFIG (DEFAULT_CONFIG p) p = p.
Proof. by destruct p. Qed.

Section ConfigFacts.

Variable configPath : str.
Variable defaultTemplatePath : str.
Variable JSON_stringify : json -> str.

Lemma override_from_env_TheDefault name key p :
  override_from_env name key TheDefault p
  = (Ok TheDefault,
     set_DEFAULT_CONFIG (override (env p) name key (DEFAULT_CONFIG p)) p).
Proof.
  unfold override_from_env, override, nonempty, bind, get.
  destruct (env p !! name) as [v|]; [|by rewrite set_DEFAULT_CONFIG_id].
  case_bool_decide; [by rewrite set_DEFAULT_CONFIG_id|done].
Qed.

Lemma override_from_env_Own name key m p :
  override_from_env name key (Own m) p = (Ok (Own (override (env p) name key m)), p).
Proof.
  unfold override_from_env, override, nonempty, bind, get.
  destruct (env p !! name) as [v|]; [|done]. by case_bool_decide.
Qed.

Lemma readConfigFile_absent p :
  disk p !! configPath = None ->
  readConfigFile configPath p
  = (Ok TheDefault, set_DEFAULT_CONFIG (env_overlay (env p) (DEFAULT_CONFIG p)) p).
Proof.
  intros H. unfold readConfigFile, bind at 1, get. rewrite H.
  unfold bind, ret. rewrite !override_from_env_TheDefault. done.
Qed.

Lemma readConfigFile_present p f j :
  disk p !! configPath = Some f -> parsed f = Some j ->
  readConfigFile configPath p
  = (Ok (Own (env_overlay (env p) (merged (next_alloc p) j (DEFAULT_CONFIG p)))),
     set_objects (<[next_alloc p := omap as_object (own_props j)]> (objects p))
       (S (next_alloc p)) p).
Proof.
  intros H Hj. unfold readConfigFile, bind at 1, get. rewrite H, Hj.
  unfold bind, ret, spread_over_default. rewrite !override_from_env_Own. done.
Qed.

Lemma readConfigFile_unparsable p f :
  disk p !! configPath = Some f -> parsed f = None ->
  readConfigFile configPath p = (Throw SyntaxError, p).
Proof.
  intros H Hj. unfold readConfigFile, bind at 1, get. by rewrite H, Hj.
Qed.

Lemma lookup_override e name key m k :
  override e name key m !! k
  = if bool_decide (k = key)
    then match nonempty (e !! name) with Some v => Some (VStr v) | None => m !! k end
    else m !! k.
Proof.
  unfold override. destruct (nonempty (e !! name)) as [v|]; [|by case_bool_decide].
  case_bool_decide as E; [subst; by rewrite lookup_insert_eq|].
  by rewrite lookup_insert_ne.
Qed.

Lemma lookup_env_overlay e m k :
  env_overlay e m !! k
  = match env_value e k with Some v => Some (VStr v) | None => m !! k end.
Proof.
  destruct keys_distinct as (H1 & H2 & H3 & H4 & H5 & H6).
  unfold env_overlay, env_value. rewrite !lookup_override.
  repeat case_bool_decide; subst; try done;
    repeat match goal with |- context [nonempty ?o] => destruct (nonempty o) end; done.
Qed.

Lemma lookup_merge n j defaults k :
  merged n j defaults !! k
  = match own_props j !! k with
    | Some v => Some (to_val n k v)
    | None => defaults !! k
    end.
Proof.
  unfold merged. rewrite lookup_union, map_lookup_imap.
  destruct (own_props j !! k); simpl; [|by rewrite (left_id_L None _)].
  by destruct (defaults !! k).
Qed.

Lemma lookup_loaded e n j defaults k :
  env_overlay e (merged n j defaults) !! k = loaded_field e n (own_props j) defaults k.
Proof. unfold loaded_field. by rewrite lookup_env_overlay, lookup_merge. Qed.

Lemma lookup_loaded_absent e defaults k :
  env_overlay e defaults !! k = loaded_field e 0 ∅ defaults k.
Proof. unfold loaded_field. by rewrite lookup_env_overlay, lookup_empty. Qed.

Lemma env_value_templates e : env_value e templates = None.
Proof.
  destruct keys_distinct as (H1 & H2 & H3 & H4 & H5 & H6).
  unfold env_value. repeat case_bool_decide; done.
Qed.

End ConfigFacts.

Lemma lookup_obj_alter f l l' o :
  lookup_obj (alter_obj f l o) l'
  = if decide (l' = l) then f <$> lookup_obj o l else lookup_obj o l'.
Proof.
  unfold lookup_obj, alter_obj. destruct l as [n k], l' as [n' k']. simpl.
  rewrite lookup_alter. destruct (decide (n = n')) as [<-|Hn].
  - destruct (o !! n) as [cell|]; simpl.
    + rewrite lookup_alter. destruct (decide (k = k')) as [<-|Hk].
      * by rewrite decide_True.
      * rewrite decide_False; [done|]. intros [= ?]. by apply Hk.
    + by case_decide.
  - rewrite decide_False; [done|]. intros [= ?]. by apply Hn.
Qed.

Lemma file_exists_true d v :
  file_exists d v = true <-> exists path, v = JStr path /\ is_Some (d !! path).
Proof.
  unfold file_exists. destruct v; simpl; try (split; [done|by intros (? & ? & ?)]).
  rewrite bool_decide_eq_true. split; [by eauto|]. by intros (? & [= <-] & ?).
Qed.

Lemma lookup_prune d t name v :
  prune d t !! name = Some v
  <-> t !! name = Some v /\ exists path, v = JStr path /\ is_Some (d !! path).
Proof.
  unfold prune. rewrite map_lookup_filter_Some. simpl. by rewrite file_exists_true.
Qed.

Lemma props_of_set_objects o n p c : props_of (set_objects o n p) c = props_of p c.
Proof. by destruct c. Qed.

Lemma cleanUpTemplates_typed p c l t :
  props_of p c !! templates = Some (VRef l) ->
  lookup_obj (objects p) l = Some t ->
  map_Forall (fun _ j => is_Some (path_of j)) t ->
  cleanUpTemplates c p
  = (Ok c, set_objects (alter_obj (prune (disk p)) l (objects p)) (next_alloc p) p).
Proof.
  intros Hl Ht Hty. unfold cleanUpTemplates, bind at 1, get. rewrite Hl.
  unfold bind, get. rewrite Ht. by rewrite bool_decide_eq_true_2.
Qed.

Lemma validate_ok (keys : list str) (configKeys : gset str) p :
  Forall (fun key => key ∈ configKeys) keys -> validate configKeys keys p = (Ok tt, p).
Proof.
  induction 1 as [|key keys Hk _ IH]; [done|]. cbn [validate].
  by rewrite bool_decide_eq_true_2.
Qed.

Lemma validate_fail (keys : list str) (configKeys : gset str) p key :
  (key ∈ keys) -> (key ∉ configKeys) ->
  exists bad, (bad ∈ keys) /\ (bad ∉ configKeys)
    /\ validate configKeys keys p = (Throw (InvalidConfigProperty bad), p).
Proof.
  induction keys as [|k keys IH]; intros Hin Hout; [by apply elem_of_nil in Hin|].
  cbn [validate]. case_bool_decide as Hk.
  - apply elem_of_cons in Hin as [->|Hin]; [done|].
    destruct (IH Hin Hout) as (bad & H1 & H2 & H3). exists bad.
    split; [by apply list_elem_of_further|done].
  - exists k. split; [apply list_elem_of_here|done].
Qed.

Lemma assign_all_Own kvs : forall m p,
  assign_all (Own m) kvs p = (Ok (Own (assigned m kvs)), p).
Proof.
  induction kvs as [|[k v] kvs IH]; intros m p; [done|].
  cbn [assign_all]. unfold assign, ret, bind. by rewrite IH.
Qed.

Lemma assign_all_TheDefault kvs : forall p,
  assign_all TheDefault kvs p
  = (Ok TheDefault, set_DEFAULT_CONFIG (assigned (DEFAULT_CONFIG p) kvs) p).
Proof.
  induction kvs as [|[k v] kvs IH]; intros p.
  - simpl. unfold ret. by rewrite set_DEFAULT_CONFIG_id.
  - cbn [assign_all]. unfold assign, modify, ret, bind. by rewrite IH.
Qed.

Lemma lookup_assigned kvs : forall (m : gmap str val) k,
  k ∉ map fst kvs -> assigned m kvs !! k = m !! k.
Proof.
  induction kvs as [|[k' v] kvs IH]; intros m k Hk; [done|].
  cbn [map fst] in Hk. apply not_elem_of_cons in Hk as [Hne Hk].
  unfold assigned. cbn [foldl]. fold (assigned (<[k' := v]> m) kvs).
  rewrite IH by done. by rewrite lookup_insert_ne.
Qed.

Lemma dom_assigned kvs : forall (m : gmap str val),
  Forall (fun key => key ∈ dom m) (map fst kvs) -> dom (assigned m kvs) = dom m.
Proof.
  induction kvs as [|[k v] kvs IH]; intros m H; [done|].
  cbn [map fst] in H. inversion H as [|? ? Hk Hks]; subst.
  unfold assigned. cbn [foldl]. fold (assigned (<[k := v]> m) kvs).
  assert (dom (<[k := v]> m) = dom m) as Hd.
  { apply dom_insert_lookup_L. by apply elem_of_dom. }
  rewrite IH; [exact Hd|]. eapply Forall_impl; [exact Hks|].
  intros x Hx. simpl. by rewrite Hd.
Qed.

Lemma dom_override (e : gmap str str) (name key : str) (m : gmap str val) :
  key ∈ dom m -> dom (override e name key m) = dom m.
Proof.
  intros H. unfold override. destruct (nonempty (e !! name)); [|done].
  apply dom_insert_lookup_L. by apply elem_of_dom.
Qed.

Lemma elem_of_config_keys k :
  k ∈ config_keys
  <-> k = OPENAI_API_KEY \/ k = OPENAI_API_BASE \/ k = model \/ k = templates.
Proof. unfold config_keys. rewrite !elem_of_union, !elem_of_singleton. tauto. Qed.

Lemma dom_env_overlay (e : gmap str str) (m : gmap str val) :
  dom m = config_keys -> dom (env_overlay e m) = config_keys.
Proof.
  intros H. unfold env_overlay.
  assert (forall (m' : gmap str val) name key,
             dom m' = config_keys -> key ∈ config_keys ->
             dom (override e name key m') = config_keys) as Hstep.
  { intros m' name key Hm' Hk. rewrite dom_override; [done|]. by rewrite Hm'. }
  repeat apply Hstep; try done; apply elem_of_config_keys; tauto.
Qed.

Lemma to_json_to_val (n : nat) (k : str) (v : json) (o : gmap nat (gmap str (gmap str json)))
    (props : gmap str json) :
  props !! k = Some v ->
  to_json (<[n := omap as_object props]> o) (to_val n k v) = Some v.
Proof.
  intros H. destruct v; try done. simpl. unfold lookup_obj. simpl.
  rewrite lookup_insert_eq. simpl. rewrite lookup_omap, H. done.
Qed.

Section StoreFacts.

Variable configPath : str.
Variable defaultTemplatePath : str.
Variable JSON_stringify : json -> str.

Lemma setConfigs_present p f j kvs :
  disk p !! configPath = Some f -> parsed f = Some j ->
  Forall (fun key => key ∈ dom (DEFAULT_CONFIG p)) (map fst kvs) ->
  let objects' := <[next_alloc p := omap as_object (own_props j)]> (objects p) in
  let record :=
    omap (to_json objects')
      (assigned (env_overlay (env p) (merged (next_alloc p) j (DEFAULT_CONFIG p))) kvs) in
  setConfigs configPath JSON_stringify kvs p
  = (Ok tt,
     set_disk (<[configPath := File (JSON_stringify (JObj record)) (Some (JObj record))]>
                 (disk p))
       (set_objects objects' (S (next_alloc p)) p)).
Proof.
  intros Hf Hj Hk. cbv zeta. unfold setConfigs, bind at 1.
  rewrite (readConfigFile_present _ _ _ _ Hf Hj).
  unfold bind at 1, validateKeys, bind at 1, get. cbn [set_objects DEFAULT_CONFIG].
  rewrite validate_ok by done. unfold bind. rewrite assign_all_Own. done.
Qed.

End StoreFacts.

Opaque OPENAI_API_KEY OPENAI_API_BASE OPENAI_MODEL model templates default_template.

Lemma initial_templates : initial_DEFAULT_CONFIG !! templates = Some (VRef (O, templates)).
Proof. done. Qed.

Lemma initial_template_object defaultTemplatePath :
  lookup_obj (initial_objects defaultTemplatePath) (O, templates)
  = Some {[ default_template := JStr defaultTemplatePath ]}.
Proof. done. Qed.

Lemma initial_config_keys : dom initial_DEFAULT_CONFIG = config_keys.
Proof.
  unfold initial_DEFAULT_CONFIG, config_keys.
  rewrite !dom_insert_L, dom_empty_L. set_solver.
Qed.

Section StoreClaims.

Variable configPath : str.
Variable defaultTemplatePath : str.
Variable JSON_stringify : json -> str.

Lemma readConfigFile_config_keys p r p' :
  dom (DEFAULT_CONFIG p) = config_keys ->
  readConfigFile configPath p = (r, p') ->
  dom (DEFAULT_CONFIG p') = config_keys.
Proof.
  intros Hd. destruct (disk p !! configPath) as [f|] eqn:Ef.
  - destruct (parsed f) as [j|] eqn:Ej.
    + rewrite (readConfigFile_present _ _ _ _ Ef Ej). by intros [= _ <-].
    + rewrite (readConfigFile_unparsable _ _ _ Ef Ej). by intros [= _ <-].
  - rewrite (readConfigFile_absent _ _ Ef). intros [= _ <-].
    by apply dom_env_overlay.
Qed.

Lemma cleanUpTemplates_config_keys p c r p' :
  dom (DEFAULT_CONFIG p) = config_keys ->
  cleanUpTemplates c p = (r, p') ->
  dom (DEFAULT_CONFIG p') = config_keys.
Proof.
  intros Hd. unfold cleanUpTemplates, bind at 1, get.
  destruct (props_of p c !! templates) as [[| | | | | |l]|];
    try (unfold ret, throw; by intros [= _ <-]).
  unfold bind, get. destruct (lookup_obj (objects p) l) as [t|]; [|by intros [= _ <-]].
  case_bool_decide; by intros [= _ <-].
Qed.

(** The own properties of [DEFAULT_CONFIG] are the four known names in every
    state that the module reaches: in the initial one
    ([initial_config_keys]), and after each of its functions. *)
Lemma setConfigs_config_keys p kvs r p' :
  dom (DEFAULT_CONFIG p) = config_keys ->
  setConfigs configPath JSON_stringify kvs p = (r, p') ->
  dom (DEFAULT_CONFIG p') = config_keys.
Proof.
  intros Hd. unfold setConfigs, bind at 1.
  destruct (readConfigFile configPath p) as [[c| |] p1] eqn:Hread;
    try (intros [= _ <-]; by eapply readConfigFile_config_keys).
  pose proof (readConfigFile_config_keys _ _ _ Hd Hread) as Hd1.
  unfold bind at 1, validateKeys, bind at 1, get.
  destruct (decide (Forall (fun key => key ∈ dom (DEFAULT_CONFIG p1)) (map fst kvs)))
    as [Hok|Hbad].
  - rewrite validate_ok by done. unfold bind at 1. destruct c as [|m].
    + rewrite assign_all_TheDefault. intros [= _ <-].
      cbn [set_disk set_DEFAULT_CONFIG DEFAULT_CONFIG]. rewrite dom_assigned; done.
    + rewrite assign_all_Own. by intros [= _ <-].
  - apply not_Forall_Exists, Exists_exists in Hbad as (key & Hin & Hout); [|apply _].
    destruct (validate_fail (map fst kvs) (dom (DEFAULT_CONFIG p1)) p1 key Hin Hout)
      as (bad & _ & _ & ->). by intros [= _ <-].
Qed.

(** C1 (amended). In a freshly started process, [load] returns a
    configuration whose [templates] mapping contains the key
    [default] exactly when the persisted record is absent, or defines no
    [templates], or defines [templates] as a mapping that contains the key.
    [pruneMissingTemplates] returns a configuration whose mapping contains
    the key exactly when the mapping it was given contains it and the file
    at its path exists. *)
Theorem default_template_kept :
  (forall e d,
      (forall f, d !! configPath = Some f -> is_Some (parsed f)) ->
      exists c p',
        readConfigFile configPath (initial defaultTemplatePath e d) = (Ok c, p')
        /\ (has_default p' c <-> record_keeps_default configPath d))
  /\ (forall p c,
        config_typed p c ->
        exists p',
          cleanUpTemplates c p = (Ok c, p')
          /\ (has_default p' c
              <-> exists t path,
                    templates_of p c = Some t
                    /\ t !! default_template = Some (JStr path)
                    /\ is_Some (disk p !! path))).
Proof.
  split.
  - intros e d Hparse. unfold record_keeps_default, has_default, templates_of.
    destruct (d !! configPath) as [f|] eqn:Ef.
    + destruct (Hparse f eq_refl) as [j Ej]. rewrite Ej.
      eexists _, _. split; [by apply (readConfigFile_present _ _ f j)|].
      rewrite props_of_set_objects. cbn [props_of objects set_objects initial env
        DEFAULT_CONFIG next_alloc].
      rewrite lookup_loaded. unfold loaded_field. rewrite env_value_templates.
      destruct (own_props j !! templates) as [v|] eqn:Ev.
      * destruct v; cbn [to_val]; try (split; [by intros (? & ? & ?)|done]).
        unfold lookup_obj. cbn [fst snd]. rewrite lookup_insert_eq. cbn.
        rewrite lookup_omap, Ev. cbn. split; [by intros (? & [= <-] & ?)|by eauto].
      * rewrite initial_templates. unfold lookup_obj. cbn [fst snd].
        rewrite lookup_insert_ne by done.
        change (initial_objects defaultTemplatePath !! O ≫= _)
          with (lookup_obj (initial_objects defaultTemplatePath) (O, templates)).
        rewrite initial_template_object. split; [done|]. intros _.
        eexists. split; [done|]. by rewrite lookup_singleton_eq.
    + eexists _, _. split; [by apply readConfigFile_absent|].
      cbn [props_of DEFAULT_CONFIG set_DEFAULT_CONFIG objects initial env].
      rewrite lookup_env_overlay, env_value_templates, initial_templates.
      rewrite initial_template_object. split; [done|]. intros _.
      eexists. split; [done|]. by rewrite lookup_singleton_eq.
  - intros p c (l & t & Hl & Ht & Hty). eexists. split; [by eapply cleanUpTemplates_typed|].
    unfold has_default, templates_of. rewrite props_of_set_objects, Hl.
    cbn [objects set_objects]. rewrite lookup_obj_alter, decide_True, Ht by done.
    cbn. split.
    + intros (t' & [= <-] & [v Hv]). apply lookup_prune in Hv as (Hv & path & -> & Hp).
      by eauto.
    + intros (t' & path & [= <-] & Hv & Hp). eexists. split; [done|].
      exists (JStr path). apply lookup_prune. by eauto.
Qed.

(** C10. On a configuration typed as interface Config,
    [pruneMissingTemplates] returns the configuration it was given; every
    property still holds the value it held; the object under [templates] is
    the restriction of what it was to the names whose file exists, each with
    its path; no other object of the store changes, so that every other
    property has the content it had. *)
Theorem prune_changes_only_templates p c :
  config_typed p c ->
  exists p',
    cleanUpTemplates c p = (Ok c, p')
    /\ props_of p' c = props_of p c
    /\ DEFAULT_CONFIG p' = DEFAULT_CONFIG p /\ disk p' = disk p /\ env p' = env p
    /\ (forall l t,
          props_of p c !! templates = Some (VRef l) ->
          lookup_obj (objects p) l = Some t ->
          lookup_obj (objects p') l = Some (prune (disk p) t)
          /\ (forall name v,
                prune (disk p) t !! name = Some v
                <-> t !! name = Some v
                    /\ exists path, v = JStr path /\ is_Some (disk p !! path))
          /\ (forall l', l' <> l -> lookup_obj (objects p') l' = lookup_obj (objects p) l')
          /\ (forall k v,
                props_of p c !! k = Some v -> v <> VRef l ->
                to_json (objects p') v = to_json (objects p) v)).
Proof.
  intros (l & t & Hl & Ht & Hty). eexists.
  split; [by eapply cleanUpTemplates_typed|].
  split; [apply props_of_set_objects|]. do 3 (split; [done|]).
  intros l0 t0 Hl0 Ht0. rewrite Hl in Hl0. injection Hl0 as <-.
  rewrite Ht in Ht0. injection Ht0 as <-. cbn [objects set_objects].
  split; [by rewrite lookup_obj_alter, decide_True, Ht|].
  split; [apply lookup_prune|].
  split; [intros l' Hne; by rewrite lookup_obj_alter, decide_False|].
  intros k v _ Hv. destruct v as [| | | | | |l']; try done. cbn [to_json].
  rewrite lookup_obj_alter, decide_False; [done|]. by intros ->.
Qed.

(** C6 (amended). In a freshly started process [load] does not fail on a
    missing file, and then returns the built-in defaults with the non-empty
    environment values of api key, api base and model laid over them: exactly
    the defaults when none of the three is set, and in every case with the
    default [templates] mapping, and the whole store of objects, as the module
    made them. With a file whose record parses, every field is the
    environment value if there is a non-empty one, else the persisted value,
    else the default. *)
Theorem load_merges e d :
  (d !! configPath = None ->
     exists p',
       readConfigFile configPath (initial defaultTemplatePath e d) = (Ok TheDefault, p')
       /\ (forall k, props_of p' TheDefault !! k
                     = loaded_field e 0 ∅ initial_DEFAULT_CONFIG k)
       /\ objects p' = initial_objects defaultTemplatePath
       /\ templates_of p' TheDefault
          = Some {[ default_template := JStr defaultTemplatePath ]}
       /\ ((forall k, env_value e k = None) ->
           props_of p' TheDefault = initial_DEFAULT_CONFIG))
  /\ (forall f j,
        d !! configPath = Some f -> parsed f = Some j ->
        exists m p',
          readConfigFile configPath (initial defaultTemplatePath e d) = (Ok (Own m), p')
          /\ (forall k, m !! k = loaded_field e 1 (own_props j) initial_DEFAULT_CONFIG k)
          /\ (forall k t, own_props j !! k = Some (JObj t) ->
                          lookup_obj (objects p') (1%nat, k) = Some t)
          /\ lookup_obj (objects p') (O, templates)
             = Some {[ default_template := JStr defaultTemplatePath ]}).
Proof.
  split.
  - intros Hd. eexists. split; [by apply readConfigFile_absent|].
    cbn [props_of DEFAULT_CONFIG set_DEFAULT_CONFIG initial env].
    split; [apply lookup_loaded_absent|]. split; [done|]. split.
    + unfold templates_of.
      cbn [props_of DEFAULT_CONFIG set_DEFAULT_CONFIG initial env objects].
      rewrite lookup_env_overlay, env_value_templates, initial_templates.
      apply initial_template_object.
    + intros He. apply map_eq. intros k. by rewrite lookup_env_overlay, He.
  - intros f j Hf Hj. eexists _, _.
    split; [by apply (readConfigFile_present _ _ f j)|].
    cbn [objects set_objects initial env DEFAULT_CONFIG next_alloc].
    split; [apply lookup_loaded|]. split.
    + intros k t Hk. unfold lookup_obj. cbn [fst snd]. rewrite lookup_insert_eq. cbn.
      by rewrite lookup_omap, Hk.
    + unfold lookup_obj. cbn [fst snd]. by rewrite lookup_insert_ne.
Qed.

(** C2 (amended). A [set] call on a record that parses, when every name of
    its update list is an own property of the default configuration,
    succeeds and writes, for each field that the list does not name, the
    non-empty environment value of that field if there is one, else the
    prior persisted value if the record had the field, else the value that
    the default configuration holds for it. A call with a name that is not
    such a property throws for that name and leaves the disk as it was. *)
Theorem set_keeps_unnamed_fields p f j kvs :
  disk p !! configPath = Some f -> parsed f = Some j ->
  (Forall (fun key => key ∈ dom (DEFAULT_CONFIG p)) (map fst kvs) ->
   exists p' record,
     setConfigs configPath JSON_stringify kvs p = (Ok tt, p')
     /\ disk p' !! configPath
        = Some (File (JSON_stringify (JObj record)) (Some (JObj record)))
     /\ forall k,
          (k ∉ map fst kvs) ->
          record !! k
          = match env_value (env p) k with
            | Some v => Some (JStr v)
            | None =>
                match own_props j !! k with
                | Some v => Some v
                | None =>
                    DEFAULT_CONFIG p !! k
                    ≫= to_json (<[next_alloc p := omap as_object (own_props j)]>
                                  (objects p))
                end
            end)
  /\ (~ Forall (fun key => key ∈ dom (DEFAULT_CONFIG p)) (map fst kvs) ->
      exists bad p',
        setConfigs configPath JSON_stringify kvs p
        = (Throw (InvalidConfigProperty bad), p')
        /\ (bad ∈ map fst kvs) /\ (bad ∉ dom (DEFAULT_CONFIG p))
        /\ disk p' = disk p).
Proof.
  intros Hf Hj. split.
  - intros Hkeys. eexists _, _.
    split; [by apply (setConfigs_present _ _ _ f j)|].
    split; [cbn [disk set_disk]; by rewrite lookup_insert_eq|].
    intros k Hk.
    rewrite lookup_omap, lookup_assigned, lookup_loaded by done. unfold loaded_field.
    destruct (env_value (env p) k) as [v|]; [done|].
    destruct (own_props j !! k) as [v|] eqn:Hv; [|done]. cbn.
    by apply to_json_to_val.
  - intros Hbad.
    apply not_Forall_Exists, Exists_exists in Hbad as (key & Hin & Hout); [|apply _].
    unfold setConfigs, bind at 1. rewrite (readConfigFile_present _ _ _ _ Hf Hj).
    unfold bind at 1, validateKeys, bind at 1, get. cbn [set_objects DEFAULT_CONFIG].
    destruct (validate_fail (map fst kvs) (dom (DEFAULT_CONFIG p))
                (set_objects (<[next_alloc p := omap as_object (own_props j)]> (objects p))
                   (S (next_alloc p)) p) key Hin Hout)
      as (bad & Hbin & Hbout & ->).
    by exists bad, (set_objects (<[next_alloc p := omap as_object (own_props j)]> (objects p))
                   (S (next_alloc p)) p).
Qed.

(** C7. [set] with a field name outside the four known ones fails, and the
    files are left as they were: with the error of [validateKeys] for a name
    of the list that is not known or, when the persisted record does not
    parse, with the error of the parser. *)
Theorem set_rejects_unknown_field p kvs key :
  dom (DEFAULT_CONFIG p) = config_keys ->
  (key ∈ map fst kvs) -> (key ∉ config_keys) ->
  exists e p',
    setConfigs configPath JSON_stringify kvs p = (Throw e, p')
    /\ disk p' = disk p
    /\ ((e = SyntaxError
         /\ exists f, disk p !! configPath = Some f /\ parsed f = None)
        \/ exists bad,
             e = InvalidConfigProperty bad
             /\ (bad ∈ map fst kvs) /\ (bad ∉ config_keys)).
Proof.
  intros Hd Hin Hout. unfold setConfigs, bind at 1.
  destruct (disk p !! configPath) as [f|] eqn:Ef.
  - destruct (parsed f) as [j|] eqn:Ej.
    + rewrite (readConfigFile_present _ _ _ _ Ef Ej).
      unfold bind at 1, validateKeys, bind at 1, get.
      cbn [set_objects DEFAULT_CONFIG]. rewrite Hd.
      destruct (validate_fail (map fst kvs) config_keys
                  (set_objects (<[next_alloc p := omap as_object (own_props j)]> (objects p))
                     (S (next_alloc p)) p) key Hin Hout) as (bad & H1 & H2 & ->).
      eexists _, _. split; [done|]. split; [done|]. right. by eauto.
    + rewrite (readConfigFile_unparsable _ _ _ Ef Ej).
      eexists _, _. split; [done|]. split; [done|]. left. by eauto.
  - rewrite (readConfigFile_absent _ _ Ef).
    unfold bind at 1, validateKeys, bind at 1, get.
    cbn [set_DEFAULT_CONFIG DEFAULT_CONFIG]. rewrite (dom_env_overlay _ _ Hd).
    destruct (validate_fail (map fst kvs) config_keys
                (set_DEFAULT_CONFIG (env_overlay (env p) (DEFAULT_CONFIG p)) p)
                key Hin Hout) as (bad & H1 & H2 & ->).
    eexists _, _. split; [done|]. split; [done|]. right. by eauto.
Qed.

End StoreClaims.

(** ** Closed statements about the configuration store *)

Example compact_json_sample :
  compact_json (JObj {[ model := JStr (u "x") ]}) = u "{" ++ [34] ++ u "model" ++ [34; 58; 34] ++ u "x" ++ [34] ++ u "}".
Proof. by vm_compute. Qed.

(** C1 fails for [load]: a record whose [templates] is the empty mapping is
    loaded as it is. *)
Lemma default_template_lost :
  exists c p',
    readConfigFile sample_configPath
      (initial sample_templatePath ∅ disk_without_templates) = (Ok c, p')
    /\ templates_of p' c = Some ∅
    /\ ~ has_default p' c.
Proof.
  eexists _, _. split; [by vm_compute|].
  assert (forall c p, templates_of p c = Some ∅ -> ~ has_default p c) as Hno.
  { intros c p H (t & Ht & Hd). rewrite H in Ht. injection Ht as <-.
    rewrite lookup_empty in Hd. by destruct Hd. }
  split; [by vm_compute|]. apply Hno. by vm_compute.
Qed.

Lemma default_template_kept_witness :
  (exists c p',
      readConfigFile sample_configPath
        (initial sample_templatePath ∅ disk_with_model) = (Ok c, p')
      /\ (has_default p' c <-> record_keeps_default sample_configPath disk_with_model))
  /\ (exists p',
        cleanUpTemplates TheDefault fresh_process = (Ok TheDefault, p')
        /\ (has_default p' TheDefault
            <-> exists t path,
                  templates_of fresh_process TheDefault = Some t
                  /\ t !! default_template = Some (JStr path)
                  /\ is_Some (disk fresh_process !! path))).
Proof.
  split.
  - apply (proj1 (default_template_kept sample_configPath sample_templatePath)).
    intros f Hf. vm_compute in Hf. injection Hf as <-. by eexists.
  - apply (proj2 (default_template_kept sample_configPath sample_templatePath)
             fresh_process TheDefault).
    exists (O, templates), {[ default_template := JStr sample_templatePath ]}.
    split; [by vm_compute|]. split; [by vm_compute|].
    apply map_Forall_singleton. by eexists.
Defined.

(** C6 fails for a missing file when the environment names a model: what is
    loaded is not the built-in default. *)
Lemma load_absent_overlays_environment :
  exists p',
    readConfigFile sample_configPath (initial sample_templatePath env_with_model ∅)
    = (Ok TheDefault, p')
    /\ props_of p' TheDefault !! model = Some (VStr (u "m"))
    /\ initial_DEFAULT_CONFIG !! model = Some (VStr (u "gpt-4-0125-preview")).
Proof. eexists. split; [by vm_compute|]. split; by vm_compute. Qed.

(** The example of C6: a record that holds a model only. *)
Example load_model_only :
  exists p',
    readConfigFile sample_configPath (initial sample_templatePath ∅ disk_with_model)
    = (Ok (Own (<[model := VStr (u "x")]> initial_DEFAULT_CONFIG)), p').
Proof. eexists. by vm_compute. Qed.

Lemma load_merges_witness :
  (exists p',
      readConfigFile sample_configPath (initial sample_templatePath env_with_key ∅)
      = (Ok TheDefault, p')
      /\ (forall k, props_of p' TheDefault !! k
                    = loaded_field env_with_key 0 ∅ initial_DEFAULT_CONFIG k)
      /\ objects p' = initial_objects sample_templatePath
      /\ templates_of p' TheDefault
         = Some {[ default_template := JStr sample_templatePath ]}
      /\ ((forall k, env_value env_with_key k = None) ->
          props_of p' TheDefault = initial_DEFAULT_CONFIG))
  /\ (exists m p',
        readConfigFile sample_configPath
          (initial sample_templatePath env_with_key disk_with_model) = (Ok (Own m), p')
        /\ (forall k, m !! k
                      = loaded_field env_with_key 1
                          (own_props (JObj {[ model := JStr (u "x") ]}))
                          initial_DEFAULT_CONFIG k)
        /\ (forall k t, own_props (JObj {[ model := JStr (u "x") ]}) !! k = Some (JObj t) ->
                        lookup_obj (objects p') (1%nat, k) = Some t)
        /\ lookup_obj (objects p') (O, templates)
           = Some {[ default_template := JStr sample_templatePath ]}).
Proof.
  split.
  - apply (proj1 (load_merges sample_configPath sample_templatePath env_with_key ∅)).
    by vm_compute.
  - apply (proj2 (load_merges sample_configPath sample_templatePath env_with_key
                    disk_with_model)
             (json_file (JObj {[ model := JStr (u "x") ]}))
             (JObj {[ model := JStr (u "x") ]})); by vm_compute.
Defined.

(** [DEFAULT_CONFIG] is handed out and shared, not copied: in a process
    without files, pruning what [load] returned empties the [templates]
    object of [DEFAULT_CONFIG] itself, and the next [load] returns it so. *)
Example load_after_prune :
  exists c1 p1 c2 p2 c3 p3,
    readConfigFile sample_configPath fresh_process = (Ok c1, p1)
    /\ has_default p1 c1
    /\ cleanUpTemplates c1 p1 = (Ok c2, p2)
    /\ readConfigFile sample_configPath p2 = (Ok c3, p3)
    /\ templates_of p3 c3 = Some ∅.
Proof.
  eexists _, _, _, _, _, _. split; [by vm_compute|].
  split; [eexists; split; [by vm_compute|by vm_compute; eexists]|].
  split; [by vm_compute|]. split; by vm_compute.
Qed.

(** C2 fails: with api key [a] persisted and api key [b] in the environment,
    a [set] of the model writes api key [b]. *)
Lemma set_writes_environment_back :
  exists p' record,
    setConfigs sample_configPath compact_json [(model, VStr (u "x"))]
      (initial sample_templatePath env_with_key disk_with_key) = (Ok tt, p')
    /\ parsed <$> disk p' !! sample_configPath = Some (Some (JObj record))
    /\ (OPENAI_API_KEY ∉ map fst [(model, VStr (u "x"))])
    /\ parsed <$> disk_with_key !! sample_configPath
       = Some (Some (JObj {[ OPENAI_API_KEY := JStr (u "a") ]}))
    /\ record !! OPENAI_API_KEY = Some (JStr (u "b")).
Proof.
  eexists _, _. split; [by vm_compute|]. split; [by vm_compute|].
  split; [|split; by vm_compute].
  intros H. apply list_elem_of_singleton in H. by vm_compute in H.
Qed.

Lemma set_keeps_unnamed_fields_witness :
  Forall (fun key => key ∈ dom (DEFAULT_CONFIG (initial sample_templatePath ∅ disk_with_key)))
    (map fst [(model, VStr (u "x"))])
  /\ exists p' record,
       setConfigs sample_configPath compact_json [(model, VStr (u "x"))]
         (initial sample_templatePath ∅ disk_with_key) = (Ok tt, p')
       /\ disk p' !! sample_configPath
          = Some (File (compact_json (JObj record)) (Some (JObj record)))
       /\ record !! OPENAI_API_KEY = Some (JStr (u "a"))
       /\ record !! templates
          = Some (JObj {[ default_template := JStr sample_templatePath ]}).
Proof.
  assert (Forall (fun key => key ∈ dom (DEFAULT_CONFIG
                                          (initial sample_templatePath ∅ disk_with_key)))
            (map fst [(model, VStr (u "x"))])) as Hkeys.
  { apply Forall_cons. split; [|by apply Forall_nil].
    apply elem_of_dom. vm_compute. by eexists. }
  assert (forall k : str, k <> model -> k ∉ map fst [(model, VStr (u "x"))]) as Hout.
  { intros k Hk H. apply list_elem_of_singleton in H. by apply Hk. }
  split; [exact Hkeys|].
  destruct (proj1 (set_keeps_unnamed_fields sample_configPath compact_json
                     (initial sample_templatePath ∅ disk_with_key)
                     (json_file (JObj {[ OPENAI_API_KEY := JStr (u "a") ]}))
                     (JObj {[ OPENAI_API_KEY := JStr (u "a") ]})
                     [(model, VStr (u "x"))] eq_refl eq_refl) Hkeys)
    as (p' & record & Hset & Hdisk & Hrest).
  exists p', record. split; [exact Hset|]. split; [exact Hdisk|]. split.
  - rewrite (Hrest OPENAI_API_KEY) by (apply Hout; by vm_compute). by vm_compute.
  - rewrite (Hrest templates) by (apply Hout; by vm_compute). by vm_compute.
Defined.

Lemma set_rejects_unknown_field_witness :
  exists e p',
    setConfigs sample_configPath compact_json
      [(model, VStr (u "x")); (u "colour", VStr (u "red"))]
      (initial sample_templatePath ∅ disk_with_key) = (Throw e, p')
    /\ disk p' = disk (initial sample_templatePath ∅ disk_with_key)
    /\ ((e = SyntaxError
         /\ exists f, disk (initial sample_templatePath ∅ disk_with_key) !! sample_configPath
                      = Some f /\ parsed f = None)
        \/ exists bad,
             e = InvalidConfigProperty bad
             /\ (bad ∈ map fst [(model, VStr (u "x")); (u "colour", VStr (u "red"))])
             /\ (bad ∉ config_keys)).
Proof.
  apply (set_rejects_unknown_field sample_configPath compact_json
           (initial sample_templatePath ∅ disk_with_key)
           [(model, VStr (u "x")); (u "colour", VStr (u "red"))] (u "colour")).
  - apply initial_config_keys.
  - apply list_elem_of_further, list_elem_of_here.
  - rewrite elem_of_config_keys. by vm_compute; intros [H|[H|[H|H]]]; discriminate H.
Defined.

Lemma prune_changes_only_templates_witness :
  exists p',
    cleanUpTemplates TheDefault fresh_process = (Ok TheDefault, p')
    /\ props_of p' TheDefault = props_of fresh_process TheDefault
    /\ DEFAULT_CONFIG p' = DEFAULT_CONFIG fresh_process
    /\ disk p' = disk fresh_process /\ env p' = env fresh_process
    /\ (forall l t,
          props_of fresh_process TheDefault !! templates = Some (VRef l) ->
          lookup_obj (objects fresh_process) l = Some t ->
          lookup_obj (objects p') l = Some (prune (disk fresh_process) t)
          /\ (forall name v,
                prune (disk fresh_process) t !! name = Some v
                <-> t !! name = Some v
                    /\ exists path, v = JStr path /\ is_Some (disk fresh_process !! path))
          /\ (forall l', l' <> l ->
                         lookup_obj (objects p') l' = lookup_obj (objects fresh_process) l')
          /\ (forall k v,
                props_of fresh_process TheDefault !! k = Some v -> v <> VRef l ->
                to_json (objects p') v = to_json (objects fresh_process) v)).
Proof.
  apply (prune_changes_only_templates fresh_process TheDefault).
  exists (O, templates), {[ default_template := JStr sample_templatePath ]}.
  split; [by vm_compute|]. split; [by vm_compute|].
  apply map_Forall_singleton. by eexists.
Defined.

(** ** More on the configuration store *)

Lemma lookup_obj_insert_ne (o : gmap nat (gmap str (gmap str json))) (n : nat)
    (cell : gmap str (gmap str json)) (l : loc) :
  l.1 <> n -> lookup_obj (<[n := cell]> o) l = lookup_obj o l.
Proof. intros H. unfold lookup_obj. by rewrite lookup_insert_ne. Qed.

Lemma assigned_cons (m : gmap str val) (k : str) (v : val) (kvs : list (str * val)) :
  assigned m ((k, v) :: kvs) = assigned (<[k := v]> m) kvs.
Proof. done. Qed.

(** The pairs of a [set] call win over what the configuration held, and
    among them the last one for a name wins. *)
Lemma lookup_assigned_last (kvs : list (str * val)) : forall (m : gmap str val) (k : str),
  assigned m kvs !! k
  = match assigned ∅ kvs !! k with Some v => Some v | None => m !! k end.
Proof.
  induction kvs as [|[k' v'] kvs IH]; intros m k; [done|].
  rewrite !assigned_cons, (IH (<[k' := v']> m)), (IH (<[k' := v']> ∅)).
  destruct (assigned ∅ kvs !! k) as [v|]; [done|].
  destruct (decide (k = k')) as [->|Hne].
  - by rewrite !lookup_insert_eq.
  - by rewrite !lookup_insert_ne.
Qed.

Lemma to_val_to_json (o : gmap nat (gmap str (gmap str json))) (n : nat) (k : str)
    (v : val) :
  plain_value v -> exists j, to_json o v = Some j /\ to_val n k j = v.
Proof. destruct v; try done; intros _; by eexists. Qed.

Lemma alter_obj_idemp (f : gmap str json -> gmap str json) (l : loc)
    (o : gmap nat (gmap str (gmap str json))) :
  (forall t, f (f t) = f t) -> alter_obj f l (alter_obj f l o) = alter_obj f l o.
Proof.
  intros Hf. unfold alter_obj. rewrite alter_alter_eq. apply alter_ext.
  intros cell _. simpl. rewrite alter_alter_eq. apply alter_ext.
  intros t _. apply Hf.
Qed.

Lemma alter_obj_id (f : gmap str json -> gmap str json) (l : loc)
    (o : gmap nat (gmap str (gmap str json))) (t : gmap str json) :
  lookup_obj o l = Some t -> f t = t -> alter_obj f l o = o.
Proof.
  intros Hl Hf. unfold alter_obj, lookup_obj in *.
  destruct (o !! l.1) as [cell|] eqn:Ec; [|done]. simpl in Hl.
  apply alter_id. intros cell' Hc. rewrite Ec in Hc. injection Hc as <-.
  apply alter_id. intros t' Ht. rewrite Hl in Ht. by injection Ht as <-.
Qed.

Lemma prune_idemp (d : gmap str file) (t : gmap str json) :
  prune d (prune d t) = prune d t.
Proof.
  unfold prune. apply map_filter_id. intros name v H.
  by apply map_lookup_filter_Some in H as [_ H].
Qed.

Lemma prune_all_exist (d : gmap str file) (t : gmap str json) :
  (forall name j, t !! name = Some j -> exists path, j = JStr path /\ is_Some (d !! path)) ->
  prune d t = t.
Proof.
  intros H. unfold prune. apply map_filter_id. intros name v Hv. simpl.
  apply file_exists_true. by eapply H.
Qed.

Lemma set_objects_id p : set_objects (objects p) (next_alloc p) p = p.
Proof. by destruct p. Qed.

Lemma validateKeys_ok_iff p (keys : list str) :
  validateKeys keys p = (Ok tt, p)
  <-> Forall (fun key => key ∈ dom (DEFAULT_CONFIG p)) keys.
Proof.
  split.
  - intros H. apply Forall_forall. intros key Hin.
    destruct (decide (key ∈ dom (DEFAULT_CONFIG p))) as [|Hout]; [done|].
    unfold validateKeys, bind, get in H.
    destruct (validate_fail keys (dom (DEFAULT_CONFIG p)) p key Hin Hout)
      as (bad & _ & _ & E).
    by rewrite E in H.
  - intros H. unfold validateKeys, bind, get. by apply validate_ok.
Qed.

Lemma prune_default_missing (d : gmap str file) (path : str) :
  d !! path = None -> prune d {[ default_template := JStr path ]} = ∅.
Proof.
  intros H. apply map_eq. intros name. rewrite lookup_empty.
  apply eq_None_not_Some. intros [v Hv].
  apply lookup_prune in Hv as (Hv & path' & -> & Hex).
  apply lookup_singleton_Some in Hv as [_ [= <-]]. rewrite H in Hex.
  by destruct Hex.
Qed.

Section StoreMore.

Variable configPath : str.
Variable defaultTemplatePath : str.
Variable JSON_stringify : json -> str.

Lemma setConfigs_absent p (kvs : list (str * val)) :
  disk p !! configPath = None ->
  dom (DEFAULT_CONFIG p) = config_keys ->
  Forall (fun key => key ∈ config_keys) (map fst kvs) ->
  let props := assigned (env_overlay (env p) (DEFAULT_CONFIG p)) kvs in
  let record := omap (to_json (objects p)) props in
  setConfigs configPath JSON_stringify kvs p
  = (Ok tt,
     set_disk (<[configPath := File (JSON_stringify (JObj record)) (Some (JObj record))]>
                 (disk p))
       (set_DEFAULT_CONFIG props p)).
Proof.
  intros Hf Hd Hk. cbv zeta. unfold setConfigs, bind at 1.
  rewrite (readConfigFile_absent _ _ Hf).
  unfold bind at 1, validateKeys, bind at 1, get. cbn [set_DEFAULT_CONFIG DEFAULT_CONFIG].
  rewrite validate_ok; cycle 1.
  { eapply Forall_impl; [exact Hk|]. intros key Hkey. simpl.
    by rewrite dom_env_overlay. }
  unfold bind at 1. rewrite assign_all_TheDefault. unfold modify, snapshot.
  by destruct p.
Qed.

Lemma readConfigFile_surroundings p r p1 :
  readConfigFile configPath p = (r, p1) ->
  env p1 = env p /\ disk p1 = disk p /\ stdout p1 = stdout p /\ stderr p1 = stderr p
  /\ forall code, r <> Exit code.
Proof.
  destruct (disk p !! configPath) as [f|] eqn:Ef.
  - destruct (parsed f) as [j|] eqn:Ej.
    + rewrite (readConfigFile_present _ _ _ _ Ef Ej). by intros [= <- <-].
    + rewrite (readConfigFile_unparsable _ _ _ Ef Ej). by intros [= <- <-].
  - rewrite (readConfigFile_absent _ _ Ef). by intros [= <- <-].
Qed.

(** X8. Loading the configuration leaves the environment, the disk and both
    output streams as they were, and alters none of the objects that
    properties refer to, such as the [templates] mapping. The default
    configuration itself is left as it was when the configuration file
    exists. When there is no file it is the object returned, and the
    non-empty environment values of api key, api base and model are
    assigned into it; its other properties stay as they were. *)
Theorem readConfigFile_frame p :
  env (readConfigFile configPath p).2 = env p
  /\ disk (readConfigFile configPath p).2 = disk p
  /\ stdout (readConfigFile configPath p).2 = stdout p
  /\ stderr (readConfigFile configPath p).2 = stderr p
  /\ (next_alloc p <= next_alloc (readConfigFile configPath p).2)%nat
  /\ (forall l, l.1 <> next_alloc p ->
        lookup_obj (objects (readConfigFile configPath p).2) l = lookup_obj (objects p) l)
  /\ (is_Some (disk p !! configPath) ->
      DEFAULT_CONFIG (readConfigFile configPath p).2 = DEFAULT_CONFIG p)
  /\ (disk p !! configPath = None ->
      objects (readConfigFile configPath p).2 = objects p
      /\ forall k,
           DEFAULT_CONFIG (readConfigFile configPath p).2 !! k
           = match env_value (env p) k with
             | Some v => Some (VStr v)
             | None => DEFAULT_CONFIG p !! k
             end).
Proof.
  destruct (disk p !! configPath) as [f|] eqn:Ef.
  - assert (env (readConfigFile configPath p).2 = env p
            /\ disk (readConfigFile configPath p).2 = disk p
            /\ stdout (readConfigFile configPath p).2 = stdout p
            /\ stderr (readConfigFile configPath p).2 = stderr p
            /\ (next_alloc p <= next_alloc (readConfigFile configPath p).2)%nat
            /\ (forall l, l.1 <> next_alloc p ->
                  lookup_obj (objects (readConfigFile configPath p).2) l
                  = lookup_obj (objects p) l)
            /\ DEFAULT_CONFIG (readConfigFile configPath p).2 = DEFAULT_CONFIG p)
      as (H1 & H2 & H3 & H4 & H5 & H6 & H7).
    { destruct (parsed f) as [j|] eqn:Ej.
      - rewrite (readConfigFile_present _ _ _ _ Ef Ej). cbn [snd].
        do 4 (split; [done|]). split; [simpl; lia|]. split; [|done].
        intros l Hl. cbn [objects set_objects]. by apply lookup_obj_insert_ne.
      - rewrite (readConfigFile_unparsable _ _ _ Ef Ej). cbn [snd].
        do 4 (split; [done|]). split; [lia|]. by split. }
    do 6 (split; [done|]). by split.
  - rewrite (readConfigFile_absent _ _ Ef). cbn [snd].
    do 4 (split; [done|]). split; [simpl; lia|]. split; [done|].
    split; [by intros [? ?]|]. intros _. split; [done|].
    intros k. cbn [DEFAULT_CONFIG set_DEFAULT_CONFIG]. apply lookup_env_overlay.
Qed.

(** X9. Loading fails in one case only: the configuration file exists and
    is not valid JSON. It then throws the syntax error and changes nothing.
    Otherwise it returns a configuration, which is the module's own default
    object exactly when there is no configuration file. *)
Theorem readConfigFile_outcome p :
  match readConfigFile configPath p with
  | (Ok c, _) =>
      (forall f, disk p !! configPath = Some f -> is_Some (parsed f))
      /\ (c = TheDefault <-> disk p !! configPath = None)
  | (Throw e, p') =>
      e = SyntaxError /\ p' = p
      /\ exists f, disk p !! configPath = Some f /\ parsed f = None
  | (Exit _, _) => False
  end.
Proof.
  destruct (disk p !! configPath) as [f|] eqn:Ef.
  - destruct (parsed f) as [j|] eqn:Ej.
    + rewrite (readConfigFile_present _ _ _ _ Ef Ej). split; [|done].
      intros ? [= <-]. by rewrite Ej.
    + rewrite (readConfigFile_unparsable _ _ _ Ef Ej). eauto.
  - rewrite (readConfigFile_absent _ _ Ef). done.
Qed.

(** X10. The keys of a [set] call are checked in order against the own
    properties of the default configuration: the call passes exactly when
    all of them are known, and otherwise the error names the first unknown
    one. The check changes nothing. *)
Theorem validateKeys_first_unknown p (keys : list str) :
  (validateKeys keys p = (Ok tt, p)
   <-> Forall (fun key => key ∈ dom (DEFAULT_CONFIG p)) keys)
  /\ forall (good : list str) (bad : str) (rest : list str),
       keys = good ++ bad :: rest ->
       Forall (fun key => key ∈ dom (DEFAULT_CONFIG p)) good ->
       (bad ∉ dom (DEFAULT_CONFIG p)) ->
       validateKeys keys p = (Throw (InvalidConfigProperty bad), p).
Proof.
  assert (forall (good : list str) (bad : str) (rest : list str),
            Forall (fun key => key ∈ dom (DEFAULT_CONFIG p)) good ->
            (bad ∉ dom (DEFAULT_CONFIG p)) ->
            validateKeys (good ++ bad :: rest) p
            = (Throw (InvalidConfigProperty bad), p)) as Hfirst.
  { intros good bad rest Hg Hb. unfold validateKeys, bind, get.
    induction Hg as [|key good Hkey _ IH]; cbn [app validate].
    - by rewrite bool_decide_eq_false_2.
    - by rewrite bool_decide_eq_true_2. }
  split; [apply validateKeys_ok_iff|intros good bad rest ->; apply Hfirst].
Qed.

(** X11. A [set] call touches one file only, the configuration file, and
    that only when it succeeds; a failed call leaves the whole disk as it
    was. It never changes the environment nor writes to an output stream. *)
Theorem setConfigs_frame p (kvs : list (str * val)) :
  match setConfigs configPath JSON_stringify kvs p with
  | (r, p') =>
      env p' = env p /\ stdout p' = stdout p /\ stderr p' = stderr p
      /\ (forall path, path <> configPath -> disk p' !! path = disk p !! path)
      /\ match r with
         | Ok _ => exists j, disk p' !! configPath = Some (File (JSON_stringify j) (Some j))
         | Throw _ => disk p' = disk p
         | Exit _ => False
         end
  end.
Proof.
  unfold setConfigs, bind at 1.
  destruct (readConfigFile configPath p) as [r p1] eqn:Hread.
  destruct (readConfigFile_surroundings _ _ _ Hread) as (He & Hd & Ho & Hr & Hne).
  destruct r as [c|e|code]; [|by rewrite He, Hd, Ho, Hr|by destruct (Hne code)].
  unfold bind at 1, validateKeys, bind at 1, get.
  destruct (decide (Forall (fun key => key ∈ dom (DEFAULT_CONFIG p1)) (map fst kvs)))
    as [Hok|Hbad].
  - rewrite validate_ok by done. unfold bind at 1. destruct c as [|m].
    + rewrite assign_all_TheDefault. unfold modify.
      cbn [set_disk set_DEFAULT_CONFIG env disk stdout stderr].
      repeat split; try done.
      * intros path Hp. by rewrite lookup_insert_ne, Hd.
      * eexists. by rewrite lookup_insert_eq.
    + rewrite assign_all_Own. unfold modify.
      cbn [set_disk env disk stdout stderr].
      repeat split; try done.
      * intros path Hp. by rewrite lookup_insert_ne, Hd.
      * eexists. by rewrite lookup_insert_eq.
  - apply not_Forall_Exists, Exists_exists in Hbad as (key & Hin & Hno); [|apply _].
    destruct (validate_fail (map fst kvs) (dom (DEFAULT_CONFIG p1)) p1 key Hin Hno)
      as (bad & _ & _ & ->).
    repeat split; try done. intros path _. by rewrite Hd.
Qed.

(** X12. Set, then load. After a [set] call that succeeds, the next load
    returns, for each name of the call, the last value given for it,
    provided the value is one that JSON keeps (not undefined, not an
    object) and the environment does not override the name. *)
Theorem set_then_load p (kvs : list (str * val)) (k : str) (v : val) :
  dom (DEFAULT_CONFIG p) = config_keys ->
  (forall f, disk p !! configPath = Some f -> is_Some (parsed f)) ->
  Forall (fun key => key ∈ config_keys) (map fst kvs) ->
  assigned ∅ kvs !! k = Some v ->
  plain_value v ->
  env_value (env p) k = None ->
  exists p1 m p2,
    setConfigs configPath JSON_stringify kvs p = (Ok tt, p1)
    /\ readConfigFile configPath p1 = (Ok (Own m), p2)
    /\ m !! k = Some v.
Proof.
  intros Hd Hparse Hk Hlast Hv Henv.
  assert (forall (base : gmap str val) (o : gmap nat (gmap str (gmap str json)))
                 (p1 : process),
            let record := omap (to_json o) (assigned base kvs) in
            disk p1 !! configPath
            = Some (File (JSON_stringify (JObj record)) (Some (JObj record))) ->
            env p1 = env p ->
            exists m p2,
              readConfigFile configPath p1 = (Ok (Own m), p2) /\ m !! k = Some v)
    as Hload.
  { intros base o p1 record Hfile He.
    eexists _, _. split; [by apply (readConfigFile_present _ _ _ (JObj record) Hfile)|].
    rewrite lookup_loaded. unfold loaded_field. rewrite He, Henv.
    cbn [own_props]. unfold record. rewrite lookup_omap, lookup_assigned_last, Hlast.
    cbn [mbind option_bind].
    destruct (to_val_to_json o (next_alloc p1) k v Hv) as (j & -> & Hj).
    by rewrite Hj. }
  destruct (disk p !! configPath) as [f|] eqn:Ef.
  - destruct (Hparse f eq_refl) as [j Ej].
    pose proof (setConfigs_present configPath JSON_stringify p f j kvs Ef Ej) as Hset.
    cbv zeta in Hset. rewrite Hset; cycle 1.
    { eapply Forall_impl; [exact Hk|]. intros key Hkey. simpl. by rewrite Hd. }
    eexists. edestruct Hload as (m & p2 & H1 & H2); cycle 2.
    + exists m, p2. split; [reflexivity|]. split; [exact H1|exact H2].
    + cbn [disk set_disk]. by rewrite lookup_insert_eq.
    + done.
  - pose proof (setConfigs_absent p kvs Ef Hd Hk) as Hset.
    cbv zeta in Hset. rewrite Hset.
    eexists. edestruct Hload as (m & p2 & H1 & H2); cycle 2.
    + exists m, p2. split; [reflexivity|]. split; [exact H1|exact H2].
    + cbn [disk set_disk]. by rewrite lookup_insert_eq.
    + done.
Qed.

(** X13. Pruning twice is pruning once: on a configuration whose
    [templates] is an object of paths, a second call succeeds and changes
    nothing any more. *)
Theorem cleanUpTemplates_idempotent p c :
  config_typed p c ->
  exists p1,
    cleanUpTemplates c p = (Ok c, p1)
    /\ config_typed p1 c
    /\ cleanUpTemplates c p1 = (Ok c, p1).
Proof.
  intros (l & t & Hl & Ht & Hty).
  assert (map_Forall (fun _ j => is_Some (path_of j)) (prune (disk p) t)) as Hty1.
  { intros name v Hv. apply lookup_prune in Hv as [Hv _]. by eapply Hty. }
  eexists. split; [by apply (cleanUpTemplates_typed _ _ l t)|].
  assert (lookup_obj (alter_obj (prune (disk p)) l (objects p)) l
          = Some (prune (disk p) t)) as Ht1.
  { rewrite lookup_obj_alter, decide_True by done. by rewrite Ht. }
  split.
  - exists l, (prune (disk p) t). rewrite props_of_set_objects. done.
  - rewrite (cleanUpTemplates_typed _ _ l (prune (disk p) t));
      [|by rewrite props_of_set_objects|done|done].
    cbn [disk set_objects objects next_alloc]. f_equal.
    rewrite alter_obj_idemp by apply prune_idemp. by destruct p.
Qed.

(** X14. When the file of every template exists, pruning changes nothing
    at all. *)
Theorem cleanUpTemplates_all_exist p c l t :
  props_of p c !! templates = Some (VRef l) ->
  lookup_obj (objects p) l = Some t ->
  (forall name j, t !! name = Some j ->
                  exists path, j = JStr path /\ is_Some (disk p !! path)) ->
  cleanUpTemplates c p = (Ok c, p).
Proof.
  intros Hl Ht Hall.
  rewrite (cleanUpTemplates_typed _ _ l t Hl Ht); cycle 1.
  { intros name j Hj. destruct (Hall name j Hj) as (path & -> & _). by eexists. }
  f_equal. rewrite (alter_obj_id _ _ _ t Ht) by (by apply prune_all_exist).
  apply set_objects_id.
Qed.


(** X15. The default configuration is shared, not copied. When the
    persisted record is absent, or defines no [templates], the loaded
    configuration holds the very [templates] object of the default
    configuration; pruning it prunes the default, and every later load in
    the same process sees the pruned mapping, which is empty when the
    default template file is missing. *)
Theorem prune_reaches_default e d :
  (forall f, d !! configPath = Some f ->
             exists j, parsed f = Some j /\ own_props j !! templates = None) ->
  exists c p1 p2 c3 p3,
    readConfigFile configPath (initial defaultTemplatePath e d) = (Ok c, p1)
    /\ cleanUpTemplates c p1 = (Ok c, p2)
    /\ templates_of p2 TheDefault
       = Some (prune d {[ default_template := JStr defaultTemplatePath ]})
    /\ readConfigFile configPath p2 = (Ok c3, p3)
    /\ templates_of p3 c3
       = Some (prune d {[ default_template := JStr defaultTemplatePath ]})
    /\ (d !! defaultTemplatePath = None -> templates_of p3 c3 = Some ∅).
Proof.
  intros Hrec.
  assert (map_Forall (fun (_ : str) j => is_Some (path_of j))
            ({[ default_template := JStr defaultTemplatePath ]} : gmap str json)) as Hty.
  { intros name v Hv. apply lookup_singleton_Some in Hv as [_ <-]. by eexists. }
  assert (forall t, (d !! defaultTemplatePath = None ->
                     t = Some (prune d {[ default_template := JStr defaultTemplatePath ]}) ->
                     t = Some ∅)) as Hmiss.
  { intros t Hd ->. by rewrite prune_default_missing. }
  destruct (d !! configPath) as [f|] eqn:Ef.
  - destruct (Hrec f eq_refl) as (j & Ej & Hj).
    eexists _, _, _, _, _.
    split; [by apply (readConfigFile_present _ _ f j)|].
    assert (forall n (o : gmap nat (gmap str (gmap str json))) (p : process),
              templates_of (set_objects o n p)
                (Own (env_overlay e (merged (next_alloc p) j initial_DEFAULT_CONFIG)))
              = lookup_obj o (O, templates)) as Hown.
    { intros n o p. unfold templates_of. cbn [props_of objects set_objects].
      rewrite lookup_loaded. unfold loaded_field.
      by rewrite env_value_templates, Hj, initial_templates. }
    split.
    { apply (cleanUpTemplates_typed _ _ (O, templates)
               {[ default_template := JStr defaultTemplatePath ]}); [| |done].
      - rewrite props_of_set_objects. cbn [props_of initial env DEFAULT_CONFIG next_alloc].
        rewrite lookup_loaded. unfold loaded_field.
        by rewrite env_value_templates, Hj, initial_templates.
      - cbn [objects set_objects initial next_alloc].
        rewrite lookup_obj_insert_ne by done. apply initial_template_object. }
    assert (lookup_obj
              (alter_obj (prune d) (O, templates)
                 (<[1%nat := omap as_object (own_props j)]>
                    (initial_objects defaultTemplatePath))) (O, templates)
            = Some (prune d {[ default_template := JStr defaultTemplatePath ]})) as Hpruned.
    { rewrite lookup_obj_alter, decide_True by done.
      rewrite lookup_obj_insert_ne by done. by rewrite initial_template_object. }
    split.
    { unfold templates_of.
      cbn [props_of DEFAULT_CONFIG set_objects objects initial disk next_alloc].
      rewrite initial_templates. exact Hpruned. }
    split; [by apply (readConfigFile_present _ _ f j)|].
    cbn [DEFAULT_CONFIG set_objects objects initial disk next_alloc env].
    assert (templates_of
              (set_objects
                 (<[2%nat := omap as_object (own_props j)]>
                    (alter_obj (prune d) (O, templates)
                       (<[1%nat := omap as_object (own_props j)]>
                          (initial_objects defaultTemplatePath)))) 3
                 (set_objects
                    (alter_obj (prune d) (O, templates)
                       (<[1%nat := omap as_object (own_props j)]>
                          (initial_objects defaultTemplatePath))) 2
                    (set_objects
                       (<[1%nat := omap as_object (own_props j)]>
                          (initial_objects defaultTemplatePath)) 2
                       (initial defaultTemplatePath e d))))
              (Own (env_overlay e (merged 2 j initial_DEFAULT_CONFIG)))
            = Some (prune d {[ default_template := JStr defaultTemplatePath ]})) as Hthen.
    { unfold templates_of. cbn [props_of objects set_objects].
      rewrite lookup_loaded. unfold loaded_field.
      rewrite env_value_templates, Hj, initial_templates.
      rewrite lookup_obj_insert_ne by done. exact Hpruned. }
    split; [exact Hthen|]. intros Hd. by apply Hmiss.
  - eexists _, _, _, _, _.
    split; [by apply readConfigFile_absent|].
    assert (env_overlay e initial_DEFAULT_CONFIG !! templates
            = Some (VRef (O, templates))) as Hdef.
    { by rewrite lookup_env_overlay, env_value_templates, initial_templates. }
    split.
    { apply (cleanUpTemplates_typed _ _ (O, templates)
               {[ default_template := JStr defaultTemplatePath ]}); [| |done].
      - exact Hdef.
      - apply initial_template_object. }
    assert (lookup_obj
              (alter_obj (prune d) (O, templates) (initial_objects defaultTemplatePath))
              (O, templates)
            = Some (prune d {[ default_template := JStr defaultTemplatePath ]})) as Hpruned.
    { rewrite lookup_obj_alter, decide_True by done. by rewrite initial_template_object. }
    split.
    { unfold templates_of.
      cbn [props_of DEFAULT_CONFIG set_objects set_DEFAULT_CONFIG objects initial disk
           next_alloc env].
      rewrite Hdef. exact Hpruned. }
    split; [by apply readConfigFile_absent|].
    assert (forall m : gmap str val,
              m !! templates = Some (VRef (O, templates)) ->
              env_overlay e m !! templates = Some (VRef (O, templates))) as Hkeep.
    { intros m Hm. by rewrite lookup_env_overlay, env_value_templates. }
    unfold templates_of.
    cbn [props_of DEFAULT_CONFIG set_objects set_DEFAULT_CONFIG objects initial disk
         next_alloc env].
    rewrite (Hkeep _ Hdef), Hpruned. split; [done|]. intros Hd. by apply Hmiss.
Qed.

Lemma call_keeps_keys p p' :
  call configPath JSON_stringify p p' ->
  dom (DEFAULT_CONFIG p) = config_keys -> dom (DEFAULT_CONFIG p') = config_keys.
Proof.
  intros H Hd. destruct H as [p|c p|kvs p].
  - destruct (readConfigFile configPath p) as [r p'] eqn:E.
    by eapply readConfigFile_config_keys.
  - destruct (cleanUpTemplates c p) as [r p'] eqn:E.
    by eapply cleanUpTemplates_config_keys.
  - destruct (setConfigs configPath JSON_stringify kvs p) as [r p'] eqn:E.
    by eapply setConfigs_config_keys.
Qed.

(** X16. The names that a [set] call accepts never change. Whatever the
    module has been asked to do since the process started (loads, prunings,
    [set] calls with any arguments, failed or not), the own properties of
    the default configuration are the four known names, and the key check
    passes for exactly the lists made of these. *)
Theorem accepted_keys_invariant p :
  reachable configPath defaultTemplatePath JSON_stringify p ->
  dom (DEFAULT_CONFIG p) = config_keys
  /\ forall keys : list str,
       validateKeys keys p = (Ok tt, p) <-> Forall (fun key => key ∈ config_keys) keys.
Proof.
  intros (e & d & H).
  assert (dom (DEFAULT_CONFIG p) = config_keys) as Hd.
  { revert p H.
    apply (rtc_ind_r (fun q : process => dom (DEFAULT_CONFIG q) = config_keys));
      [apply initial_config_keys|].
    intros y z _ Hcall IH. by eapply call_keeps_keys. }
  split; [done|]. intros keys. rewrite validateKeys_ok_iff. by rewrite Hd.
Qed.

End StoreMore.

Lemma validateKeys_first_unknown_witness :
  (validateKeys [model; u "colour"; u "size"] fresh_process = (Ok tt, fresh_process)
   <-> Forall (fun key => key ∈ dom (DEFAULT_CONFIG fresh_process))
         [model; u "colour"; u "size"])
  /\ ([model; u "colour"; u "size"] = [model] ++ u "colour" :: [u "size"]
      /\ Forall (fun key => key ∈ dom (DEFAULT_CONFIG fresh_process)) [model]
      /\ (u "colour" ∉ dom (DEFAULT_CONFIG fresh_process))
      /\ validateKeys [model; u "colour"; u "size"] fresh_process
         = (Throw (InvalidConfigProperty (u "colour")), fresh_process)).
Proof.
  destruct (validateKeys_first_unknown fresh_process [model; u "colour"; u "size"])
    as [H1 H2].
  assert (dom (DEFAULT_CONFIG fresh_process) = config_keys) as Hd
    by apply initial_config_keys.
  assert (Forall (fun key => key ∈ dom (DEFAULT_CONFIG fresh_process)) [model]) as Hg.
  { constructor; [|constructor]. rewrite Hd. apply elem_of_config_keys. tauto. }
  assert (u "colour" ∉ dom (DEFAULT_CONFIG fresh_process)) as Hb.
  { rewrite Hd, elem_of_config_keys. by vm_compute; intros [|[|[|]]]. }
  split; [exact H1|]. split; [done|]. split; [exact Hg|]. split; [exact Hb|].
  exact (H2 [model] (u "colour") [u "size"] eq_refl Hg Hb).
Defined.

Lemma cleanUpTemplates_idempotent_witness :
  config_typed fresh_process TheDefault
  /\ exists p1,
       cleanUpTemplates TheDefault fresh_process = (Ok TheDefault, p1)
       /\ config_typed p1 TheDefault
       /\ cleanUpTemplates TheDefault p1 = (Ok TheDefault, p1).
Proof.
  assert (config_typed fresh_process TheDefault) as H.
  { exists (O, templates), {[ default_template := JStr sample_templatePath ]}.
    split; [done|]. split; [done|]. intros name v Hv.
    apply lookup_singleton_Some in Hv as [_ <-]. by eexists. }
  split; [exact H|]. exact (cleanUpTemplates_idempotent fresh_process TheDefault H).
Defined.

Lemma cleanUpTemplates_all_exist_witness :
  props_of process_without_key TheDefault !! templates = Some (VRef (O, templates))
  /\ lookup_obj (objects process_without_key) (O, templates)
     = Some {[ default_template := JStr sample_templatePath ]}
  /\ (forall name j,
        ({[ default_template := JStr sample_templatePath ]} : gmap str json) !! name = Some j ->
        exists path, j = JStr path /\ is_Some (disk process_without_key !! path))
  /\ cleanUpTemplates TheDefault process_without_key = (Ok TheDefault, process_without_key).
Proof.
  assert (forall name j,
            ({[ default_template := JStr sample_templatePath ]} : gmap str json) !! name
            = Some j ->
            exists path, j = JStr path /\ is_Some (disk process_without_key !! path)) as H.
  { intros name j Hj. apply lookup_singleton_Some in Hj as [_ <-].
    exists sample_templatePath. split; [done|]. by eexists. }
  split; [done|]. split; [done|]. split; [exact H|].
  exact (cleanUpTemplates_all_exist process_without_key TheDefault (O, templates)
           {[ default_template := JStr sample_templatePath ]} eq_refl eq_refl H).
Defined.

Lemma set_then_load_witness :
  dom (DEFAULT_CONFIG (initial sample_templatePath ∅ disk_with_key)) = config_keys
  /\ (forall f, disk (initial sample_templatePath ∅ disk_with_key) !! sample_configPath
                = Some f -> is_Some (parsed f))
  /\ Forall (fun key => key ∈ config_keys) (map fst set_model_twice)
  /\ assigned ∅ set_model_twice !! model = Some (VStr (u "y"))
  /\ plain_value (VStr (u "y"))
  /\ env_value (env (initial sample_templatePath ∅ disk_with_key)) model = None
  /\ exists p1 m p2,
       setConfigs sample_configPath compact_json set_model_twice
         (initial sample_templatePath ∅ disk_with_key) = (Ok tt, p1)
       /\ readConfigFile sample_configPath p1 = (Ok (Own m), p2)
       /\ m !! model = Some (VStr (u "y")).
Proof.
  assert (forall f, disk (initial sample_templatePath ∅ disk_with_key) !! sample_configPath
                    = Some f -> is_Some (parsed f)) as Hparse.
  { intros f Hf. cbn [disk initial] in Hf. unfold disk_with_key in Hf.
    apply lookup_singleton_Some in Hf as [_ <-]. by eexists. }
  assert (Forall (fun key => key ∈ config_keys) (map fst set_model_twice)) as Hk.
  { repeat constructor; apply elem_of_config_keys; tauto. }
  assert (assigned ∅ set_model_twice !! model = Some (VStr (u "y"))) as Hlast.
  { unfold set_model_twice. rewrite !assigned_cons. apply lookup_insert_eq. }
  assert (env_value (env (initial sample_templatePath ∅ disk_with_key)) model = None)
    as Henv by (by vm_compute).
  split; [apply initial_config_keys|]. split; [exact Hparse|]. split; [exact Hk|].
  split; [exact Hlast|]. split; [exact I|]. split; [exact Henv|].
  exact (set_then_load sample_configPath compact_json
           (initial sample_templatePath ∅ disk_with_key) set_model_twice model
           (VStr (u "y")) (initial_config_keys) Hparse Hk Hlast I Henv).
Defined.

Lemma prune_reaches_default_witness :
  (forall f, disk_with_key !! sample_configPath = Some f ->
             exists j, parsed f = Some j /\ own_props j !! templates = None)
  /\ exists c p1 p2 c3 p3,
       readConfigFile sample_configPath (initial sample_templatePath ∅ disk_with_key)
       = (Ok c, p1)
       /\ cleanUpTemplates c p1 = (Ok c, p2)
       /\ templates_of p2 TheDefault
          = Some (prune disk_with_key {[ default_template := JStr sample_templatePath ]})
       /\ readConfigFile sample_configPath p2 = (Ok c3, p3)
       /\ templates_of p3 c3
          = Some (prune disk_with_key {[ default_template := JStr sample_templatePath ]})
       /\ (disk_with_key !! sample_templatePath = None -> templates_of p3 c3 = Some ∅).
Proof.
  assert (forall f, disk_with_key !! sample_configPath = Some f ->
                    exists j, parsed f = Some j /\ own_props j !! templates = None) as H.
  { intros f Hf. unfold disk_with_key in Hf.
    apply lookup_singleton_Some in Hf as [_ <-].
    eexists. split; [done|]. cbn [own_props]. apply lookup_singleton_ne.
    destruct keys_distinct as (_ & _ & Hne & _). exact Hne. }
  split; [exact H|].
  exact (prune_reaches_default sample_configPath sample_templatePath ∅ disk_with_key H).
Defined.

Lemma accepted_keys_invariant_witness :
  reachable sample_configPath sample_templatePath compact_json
    (setConfigs sample_configPath compact_json set_model_twice fresh_process).2
  /\ (dom (DEFAULT_CONFIG
             (setConfigs sample_configPath compact_json set_model_twice fresh_process).2)
      = config_keys
      /\ forall keys : list str,
           validateKeys keys
             (setConfigs sample_configPath compact_json set_model_twice fresh_process).2
           = (Ok tt,
              (setConfigs sample_configPath compact_json set_model_twice fresh_process).2)
           <-> Forall (fun key => key ∈ config_keys) keys).
Proof.
  assert (reachable sample_configPath sample_templatePath compact_json
            (setConfigs sample_configPath compact_json set_model_twice fresh_process).2)
    as H.
  { exists ∅, ∅. apply rtc_once. apply call_setConfigs. }
  split; [exact H|].
  exact (accepted_keys_invariant sample_configPath sample_templatePath compact_json _ H).
Defined.

Lemma readConfigFile_frame_witness :
  disk (initial sample_templatePath env_with_model ∅) !! sample_configPath = None
  /\ objects (readConfigFile sample_configPath
                (initial sample_templatePath env_with_model ∅)).2
     = objects (initial sample_templatePath env_with_model ∅)
  /\ DEFAULT_CONFIG (readConfigFile sample_configPath
                       (initial sample_templatePath env_with_model ∅)).2 !! model
     = Some (VStr (u "m"))
  /\ DEFAULT_CONFIG (readConfigFile sample_configPath
                       (initial sample_templatePath env_with_model ∅)).2 !! templates
     = DEFAULT_CONFIG (initial sample_templatePath env_with_model ∅) !! templates.
Proof.
  assert (disk (initial sample_templatePath env_with_model ∅) !! sample_configPath = None)
    as Hd by (by vm_compute).
  destruct (readConfigFile_frame sample_configPath
              (initial sample_templatePath env_with_model ∅))
    as (_ & _ & _ & _ & _ & _ & _ & Habsent).
  destruct (Habsent Hd) as [Hobj Hdef].
  split; [exact Hd|]. split; [exact Hobj|]. split.
  - rewrite (Hdef model). by vm_compute.
  - rewrite (Hdef templates). by vm_compute.
Defined.

(** ** The pipeline *)

Opaque u trim render normalizeCommitSuggestions numbered_list system_prompt.

Lemma bind_ok {A B} (m : M A) (k : A -> M B) p a p' :
  m p = (Ok a, p') -> bind m k p = k a p'.
Proof. intros H. unfold bind. by rewrite H. Qed.

Lemma bind_exit {A B} (m : M A) (k : A -> M B) p code p' :
  m p = (Exit code, p') -> bind m k p = (Exit code, p').
Proof. intros H. unfold bind. by rewrite H. Qed.

Lemma when_log b line p : when_ b (console_error line) p = (Ok tt, log_if b line p).
Proof. by destruct b. Qed.

Lemma quiet_trans p q r : quiet p q -> quiet q r -> quiet p r.
Proof.
  intros (H1 & H2 & H3 & H4 & H5 & H6) (G1 & G2 & G3 & G4 & G5 & G6).
  repeat split; congruence.
Qed.

Lemma quiet_log_if b line p : quiet p (log_if b line p).
Proof. destruct b; by repeat split. Qed.

Lemma quiet_props_of p q c : quiet p q -> props_of q c = props_of p c.
Proof. intros (_ & _ & H & _). by destruct c. Qed.

Lemma property_lookup (props : gmap str val) (key : str) v :
  props !! key = Some v -> property props key = v.
Proof. intros H. unfold property. by rewrite H. Qed.

Lemma fail_with_spec {A} line p :
  (console_error line ;;; @process_exit A 1) p
  = (Exit 1, log_if true line p).
Proof. done. Qed.

Lemma readConfigFile_quiet configPath p c p1 :
  readConfigFile configPath p = (Ok c, p1) -> stdout p1 = stdout p.
Proof.
  destruct (disk p !! configPath) as [f|] eqn:Ef.
  - destruct (parsed f) as [j|] eqn:Ej.
    + rewrite (readConfigFile_present _ _ _ _ Ef Ej). by intros [= _ <-].
    + by rewrite (readConfigFile_unparsable _ _ _ Ef Ej).
  - rewrite (readConfigFile_absent _ _ Ef). by intros [= _ <-].
Qed.

Lemma get_named_object l t name p :
  lookup_obj (objects p) l = Some t ->
  get_named (VRef l) name p = (Ok (t !! name), p).
Proof. intros H. unfold get_named, bind, get. by rewrite H. Qed.

Lemma hasOwnProperty_object l t name p :
  lookup_obj (objects p) l = Some t ->
  hasOwnProperty (VRef l) name p = (Ok (bool_decide (is_Some (t !! name))), p).
Proof. intros H. unfold hasOwnProperty, bind, get. by rewrite H. Qed.

Lemma resolve_template_found options props templateName p l t path :
  props !! templates = Some (VRef l) ->
  lookup_obj (objects p) l = Some t ->
  t !! chosen templateName = Some (JStr path) ->
  exists p',
    resolve_template options props templateName p = (Ok (Some (JStr path)), p')
    /\ quiet p p'.
Proof.
  intros Hl Ht Hn. unfold resolve_template, chosen in *.
  rewrite (property_lookup _ _ _ Hl).
  destruct templateName as [name|]; [case_bool_decide as Hname|].
  - rewrite (bind_ok _ _ _ _ _ (get_named_object _ _ _ _ Ht)), Hn.
    rewrite (bind_ok _ _ _ _ _ (when_log _ _ _)).
    eexists. split; [done|]. apply quiet_log_if.
  - rewrite (bind_ok _ _ _ _ _ (hasOwnProperty_object _ _ _ _ Ht)), Hn.
    rewrite bool_decide_eq_true_2 by (by eexists).
    rewrite (bind_ok (ret tt) _ _ tt p eq_refl).
    rewrite (bind_ok _ _ _ _ _ (get_named_object _ _ _ _ Ht)), Hn.
    rewrite (bind_ok _ _ _ _ _ (when_log _ _ _)).
    eexists. split; [done|]. apply quiet_log_if.
  - rewrite (bind_ok _ _ _ _ _ (get_named_object _ _ _ _ Ht)), Hn.
    rewrite (bind_ok _ _ _ _ _ (when_log _ _ _)).
    eexists. split; [done|]. apply quiet_log_if.
Qed.

Lemma resolve_template_unknown options props name p l t :
  name <> [] ->
  props !! templates = Some (VRef l) ->
  lookup_obj (objects p) l = Some t ->
  t !! name = None ->
  resolve_template options props (Some name) p
  = (Exit 1, log_if true (msg_unknown_template name) p).
Proof.
  intros Hname Hl Ht Hn. unfold resolve_template.
  rewrite (property_lookup _ _ _ Hl). rewrite bool_decide_eq_false_2 by done.
  rewrite (bind_ok _ _ _ _ _ (hasOwnProperty_object _ _ _ _ Ht)), Hn.
  rewrite bool_decide_eq_false_2 by (by intros [? ?]).
  by rewrite (bind_exit _ _ _ _ _ (fail_with_spec _ _)).
Qed.

Section RunClaims.

Variable configPath : str.
Variable ext : collaborators.

(** [run] up to the template stage, when that stage passes. *)
Lemma run_after_template options templateName p c p1 path templateFile :
  readConfigFile configPath p = (Ok c, p1) ->
  template_resolves p1 (props_of p1 c) templateName path templateFile ->
  exists p2,
    quiet p1 p2
    /\ run configPath ext options templateName p
       = ((if truthy (property (props_of p1 c) OPENAI_API_KEY) then ret tt
           else console_error msg_no_api_key ;;; process_exit 1) ;;;
          (if truthy (property (props_of p1 c) model) then ret tt
           else console_error msg_no_model ;;; process_exit 1) ;;;
          diff <- getStagedDiff ext ;;
          when_ (verbose options)
            (console_error (u "Git diff retrieved:" ++ [LF] ++ u " " ++ diff)) ;;;
          (if (length (trim diff) =? 0)%nat
           then console_error (msg_no_changes (trim (pwd ext))) ;;; process_exit 1
           else ret tt) ;;;
          when_ (verbose options) (console_error (u "Template rendered with git diff.")) ;;;
          ask_model ext options (props_of p1 c) (render (text templateFile) diff)) p2.
Proof.
  intros Hread (l & t & Hl & Ht & Hn & Hf). unfold run.
  rewrite (bind_ok _ _ _ _ _ Hread).
  rewrite (bind_ok _ _ _ _ _ (when_log _ _ _)).
  set (q := log_if (verbose options) (u "Configuration loaded successfully.") p1).
  assert (quiet p1 q) as Hq by apply quiet_log_if.
  rewrite (bind_ok (get _) _ q (props_of q c) q eq_refl).
  rewrite (quiet_props_of _ _ c Hq).
  destruct (resolve_template_found options (props_of p1 c) templateName q l t path)
    as (q' & Hres & Hq'); [done| |done|].
  { destruct Hq as (_ & _ & _ & -> & _). done. }
  rewrite (bind_ok _ _ _ _ _ Hres).
  rewrite (bind_ok (ret path) _ q' path q' eq_refl).
  rewrite (bind_ok (get disk) _ q' (disk q') q' eq_refl).
  pose proof (quiet_trans _ _ _ Hq Hq') as Hq2.
  destruct Hq2 as (? & Hd & ?). rewrite Hd, Hf.
  rewrite (bind_ok _ _ _ _ _ (when_log _ _ _)).
  rewrite (bind_ok _ _ _ _ _ (when_log _ _ _)).
  rewrite (bind_ok _ _ _ _ _ (when_log _ _ _)).
  eexists. split; [|reflexivity].
  eapply quiet_trans; [apply (quiet_trans _ _ _ Hq Hq')|].
  eapply quiet_trans; [apply quiet_log_if|].
  eapply quiet_trans; apply quiet_log_if.
Qed.

Lemma run_unknown_template options name p c p1 l t :
  readConfigFile configPath p = (Ok c, p1) ->
  name <> [] ->
  props_of p1 c !! templates = Some (VRef l) ->
  lookup_obj (objects p1) l = Some t ->
  t !! name = None ->
  exists p',
    run configPath ext options (Some name) p = (Exit 1, p')
    /\ stdout p' = stdout p
    /\ last (stderr p') = Some (msg_unknown_template name).
Proof.
  intros Hread Hname Hl Ht Hn. unfold run.
  rewrite (bind_ok _ _ _ _ _ Hread).
  rewrite (bind_ok _ _ _ _ _ (when_log _ _ _)).
  set (q := log_if (verbose options) (u "Configuration loaded successfully.") p1).
  assert (quiet p1 q) as Hq by apply quiet_log_if.
  rewrite (bind_ok (get _) _ q (props_of q c) q eq_refl).
  rewrite (quiet_props_of _ _ c Hq).
  destruct Hq as (_ & _ & _ & Ho & _ & Hout).
  rewrite (bind_exit _ _ _ _ _
             (resolve_template_unknown options _ name q l t Hname Hl
                ltac:(by rewrite Ho) Hn)).
  eexists. split; [done|]. cbn [log_if stdout stderr].
  split; [|by rewrite last_snoc]. rewrite Hout. by eapply readConfigFile_quiet.
Qed.

Lemma run_template_file_missing options templateName p c p1 l t path :
  readConfigFile configPath p = (Ok c, p1) ->
  props_of p1 c !! templates = Some (VRef l) ->
  lookup_obj (objects p1) l = Some t ->
  t !! chosen templateName = Some (JStr path) ->
  disk p1 !! path = None ->
  exists p',
    run configPath ext options templateName p = (Exit 1, p')
    /\ stdout p' = stdout p
    /\ last (stderr p') = Some (msg_template_file_missing path).
Proof.
  intros Hread Hl Ht Hn Hf. unfold run.
  rewrite (bind_ok _ _ _ _ _ Hread).
  rewrite (bind_ok _ _ _ _ _ (when_log _ _ _)).
  set (q := log_if (verbose options) (u "Configuration loaded successfully.") p1).
  assert (quiet p1 q) as Hq by apply quiet_log_if.
  rewrite (bind_ok (get _) _ q (props_of q c) q eq_refl).
  rewrite (quiet_props_of _ _ c Hq).
  destruct (resolve_template_found options (props_of p1 c) templateName q l t path)
    as (q' & Hres & Hq'); [done| |done|].
  { destruct Hq as (_ & _ & _ & -> & _). done. }
  rewrite (bind_ok _ _ _ _ _ Hres).
  rewrite (bind_ok (ret path) _ q' path q' eq_refl).
  rewrite (bind_ok (get disk) _ q' (disk q') q' eq_refl).
  destruct (quiet_trans _ _ _ Hq Hq') as (_ & Hd & _ & _ & _ & Hout).
  rewrite Hd, Hf, fail_with_spec.
  eexists. split; [done|]. cbn [log_if stdout stderr].
  split; [|by rewrite last_snoc]. rewrite Hout. by eapply readConfigFile_quiet.
Qed.

(** C5 (amended). The api key and the model are checked after the template
    stage. An invocation whose merged configuration has an empty api key or
    model fails with the missing-credential condition, or with the
    missing-model condition when only the model is empty, provided the
    template resolves to a file that exists; when the supplied template name
    is unknown, or the template file is missing, it fails with that
    condition. In every case nothing reaches the primary output. *)
Theorem credentials_checked_after_template options templateName p c p1 :
  readConfigFile configPath p = (Ok c, p1) ->
  truthy (property (props_of p1 c) OPENAI_API_KEY) = false
  \/ truthy (property (props_of p1 c) model) = false ->
  (forall path templateFile,
      template_resolves p1 (props_of p1 c) templateName path templateFile ->
      exists p',
        run configPath ext options templateName p = (Exit 1, p')
        /\ stdout p' = stdout p
        /\ last (stderr p')
           = Some (if truthy (property (props_of p1 c) OPENAI_API_KEY)
                   then msg_no_model else msg_no_api_key))
  /\ (forall name l t,
        templateName = Some name -> name <> [] ->
        props_of p1 c !! templates = Some (VRef l) ->
        lookup_obj (objects p1) l = Some t ->
        t !! name = None ->
        exists p',
          run configPath ext options templateName p = (Exit 1, p')
          /\ stdout p' = stdout p
          /\ last (stderr p') = Some (msg_unknown_template name))
  /\ (forall l t path,
        props_of p1 c !! templates = Some (VRef l) ->
        lookup_obj (objects p1) l = Some t ->
        t !! chosen templateName = Some (JStr path) ->
        disk p1 !! path = None ->
        exists p',
          run configPath ext options templateName p = (Exit 1, p')
          /\ stdout p' = stdout p
          /\ last (stderr p') = Some (msg_template_file_missing path)).
Proof.
  intros Hread Hbad. split; [|split].
  - intros path templateFile Hres.
    destruct (run_after_template options templateName p c p1 path templateFile Hread Hres)
      as (p2 & Hq & ->).
    destruct Hq as (_ & _ & _ & _ & _ & Hout).
    pose proof (readConfigFile_quiet _ _ _ _ Hread) as Hout1.
    destruct (truthy (property (props_of p1 c) OPENAI_API_KEY)) eqn:Ekey.
    + destruct Hbad as [?|Hmodel]; [done|]. rewrite Hmodel.
      rewrite (bind_ok (ret tt) _ p2 tt p2 eq_refl).
      rewrite (bind_exit _ _ _ _ _ (fail_with_spec _ _)).
      eexists. split; [done|]. cbn [log_if stdout stderr].
      split; [congruence|by rewrite last_snoc].
    + rewrite (bind_exit _ _ _ _ _ (fail_with_spec _ _)).
      eexists. split; [done|]. cbn [log_if stdout stderr].
      split; [congruence|by rewrite last_snoc].
  - intros name l t -> Hname Hl Ht Hn. by eapply run_unknown_template.
  - intros l t path Hl Ht Hn Hf. by eapply run_template_file_missing.
Qed.

Lemma ask_model_unparsable options props rendered p dump content :
  create ext (Request (property props OPENAI_API_KEY) (property props OPENAI_API_BASE)
                (property props model) system_prompt rendered)
  = ChatResponse dump (Message (Some content)) ->
  content <> [] ->
  normalizeCommitSuggestions content = [] ->
  exists p',
    ask_model ext options props rendered p = (Exit 1, p')
    /\ stdout p' = stdout p
    /\ last (stderr p') = Some msg_unparsable.
Proof.
  intros Hc Hne Hnorm. unfold ask_model.
  rewrite (bind_ok _ _ _ _ _ (when_log _ _ _)), Hc.
  set (q := log_if (verbose options) (u "Sending request to OpenAI...") p).
  assert (exists q', quiet q q'
            /\ when_ (verbose options)
                 (console_error (u "Response received from OpenAI.") ;;; console_error dump) q
               = (Ok tt, q')) as (q' & Hq' & Hlog).
  { destruct (verbose options); eexists; (split; [|reflexivity]); by repeat split. }
  rewrite (bind_ok _ _ _ _ _ Hlog).
  destruct content as [|c0 content]; [done|]. rewrite Hnorm. cbn [length Nat.eqb].
  rewrite fail_with_spec. eexists. split; [done|]. cbn [log_if stdout stderr].
  split; [|by rewrite last_snoc].
  destruct Hq' as (_ & _ & _ & _ & _ & ->). unfold q.
  by destruct (quiet_log_if (verbose options) (u "Sending request to OpenAI...") p)
    as (_ & _ & _ & _ & _ & ->).
Qed.

(** C9. When every earlier stage passes and the normaliser returns the empty
    list for the reply, the run exits with code 1, its last diagnostic is the
    one that sends the operator to the verbose mode, and nothing is written
    to the primary output. *)
Theorem unparsable_reply_fails options templateName p c p1 path templateFile
    diff dump content :
  readConfigFile configPath p = (Ok c, p1) ->
  template_resolves p1 (props_of p1 c) templateName path templateFile ->
  truthy (property (props_of p1 c) OPENAI_API_KEY) = true ->
  truthy (property (props_of p1 c) model) = true ->
  git_diff ext = inl diff ->
  trim diff <> [] ->
  create ext (Request (property (props_of p1 c) OPENAI_API_KEY)
                (property (props_of p1 c) OPENAI_API_BASE)
                (property (props_of p1 c) model) system_prompt
                (render (text templateFile) diff))
  = ChatResponse dump (Message (Some content)) ->
  content <> [] ->
  normalizeCommitSuggestions content = [] ->
  exists p',
    run configPath ext options templateName p = (Exit 1, p')
    /\ stdout p' = stdout p
    /\ last (stderr p') = Some msg_unparsable.
Proof.
  intros Hread Hres Hkey Hmodel Hdiff Htrim Hc Hne Hnorm.
  destruct (run_after_template options templateName p c p1 path templateFile Hread Hres)
    as (p2 & Hq & ->).
  rewrite Hkey, Hmodel.
  rewrite (bind_ok (ret tt) _ p2 tt p2 eq_refl).
  rewrite (bind_ok (ret tt) _ p2 tt p2 eq_refl).
  assert (getStagedDiff ext p2 = (Ok diff, p2)) as Hg.
  { unfold getStagedDiff. by rewrite Hdiff. }
  rewrite (bind_ok _ _ _ _ _ Hg).
  rewrite (bind_ok _ _ _ _ _ (when_log _ _ _)).
  destruct (trim diff) as [|d0 ds] eqn:Et; [done|]. cbn [length Nat.eqb].
  rewrite (bind_ok (ret tt) _ _ tt _ eq_refl).
  rewrite (bind_ok _ _ _ _ _ (when_log _ _ _)).
  match goal with |- context [ask_model _ _ _ _ ?q] =>
    destruct (ask_model_unparsable options (props_of p1 c)
                (render (text templateFile) diff) q dump content Hc Hne Hnorm)
      as (p' & -> & Hout & Herr);
    assert (quiet p2 q) as Hq2
      by (eapply quiet_trans; apply quiet_log_if)
  end.
  exists p'. split; [done|]. split; [|done]. rewrite Hout.
  destruct Hq2 as (_ & _ & _ & _ & _ & ->).
  destruct Hq as (_ & _ & _ & _ & _ & ->). by eapply readConfigFile_quiet.
Qed.

End RunClaims.

(** ** Closed statements about the pipeline *)

(** C5 fails: with an empty api key and an unknown template name, the run
    reports the template, not the api key. *)
Lemma template_checked_before_credentials :
  exists p',
    run sample_configPath sample_collaborators {| verbose := false |}
      (Some (u "nope")) process_without_key
    = (Exit 1, p')
    /\ truthy (property initial_DEFAULT_CONFIG OPENAI_API_KEY) = false
    /\ stderr p' = [msg_unknown_template (u "nope")]
    /\ last (stderr p') <> Some msg_no_api_key.
Proof.
  eexists. split; [by vm_compute|]. split; [by vm_compute|].
  split; [by vm_compute|]. by vm_compute.
Qed.

Lemma credentials_checked_after_template_witness :
  (exists p',
      run sample_configPath sample_collaborators {| verbose := true |} None
        process_without_key = (Exit 1, p')
      /\ stdout p' = stdout process_without_key
      /\ last (stderr p') = Some msg_no_api_key)
  /\ (exists p',
        run sample_configPath sample_collaborators {| verbose := true |}
          (Some (u "nope")) process_without_key = (Exit 1, p')
        /\ stdout p' = stdout process_without_key
        /\ last (stderr p') = Some (msg_unknown_template (u "nope")))
  /\ (exists p',
        run sample_configPath sample_collaborators {| verbose := true |} None
          fresh_process = (Exit 1, p')
        /\ stdout p' = stdout fresh_process
        /\ last (stderr p') = Some (msg_template_file_missing sample_templatePath)).
Proof.
  assert (forall p, p = process_without_key \/ p = fresh_process ->
            readConfigFile sample_configPath p = (Ok TheDefault, p)
            /\ (truthy (property (props_of p TheDefault) OPENAI_API_KEY) = false
                \/ truthy (property (props_of p TheDefault) model) = false)
            /\ props_of p TheDefault !! templates = Some (VRef (O, templates))
            /\ lookup_obj (objects p) (O, templates)
               = Some {[ default_template := JStr sample_templatePath ]}) as Hp.
  { intros p [-> | ->]; (split; [by vm_compute|]); (split; [left; by vm_compute|]);
      split; by vm_compute. }
  destruct (Hp process_without_key (or_introl eq_refl)) as (Hread & Hbad & Hl & Ht).
  destruct (Hp fresh_process (or_intror eq_refl)) as (Hread' & Hbad' & Hl' & Ht').
  split; [|split].
  - apply (proj1 (credentials_checked_after_template sample_configPath
                    sample_collaborators {| verbose := true |} None
                    process_without_key TheDefault process_without_key Hread Hbad)
             sample_templatePath sample_template).
    exists (O, templates), {[ default_template := JStr sample_templatePath ]}.
    repeat split; by vm_compute.
  - apply (proj1 (proj2 (credentials_checked_after_template sample_configPath
                    sample_collaborators {| verbose := true |} (Some (u "nope"))
                    process_without_key TheDefault process_without_key Hread Hbad))
             (u "nope") (O, templates)
             {[ default_template := JStr sample_templatePath ]});
      try done; by vm_compute.
  - apply (proj2 (proj2 (credentials_checked_after_template sample_configPath
                    sample_collaborators {| verbose := true |} None
                    fresh_process TheDefault fresh_process Hread' Hbad'))
             (O, templates) {[ default_template := JStr sample_templatePath ]}
             sample_templatePath); try done; by vm_compute.
Defined.

Lemma unparsable_reply_fails_witness :
  normalizeCommitSuggestions prose = []
  /\ exists p',
       run sample_configPath sample_collaborators {| verbose := false |} None
         process_with_key = (Exit 1, p')
       /\ stdout p' = stdout process_with_key
       /\ last (stderr p') = Some msg_unparsable.
Proof.
  assert (normalizeCommitSuggestions prose = []) as Hnorm by (by vm_compute).
  split; [exact Hnorm|].
  eapply (unparsable_reply_fails sample_configPath sample_collaborators
            {| verbose := false |} None process_with_key TheDefault _
            sample_templatePath sample_template (u "+foo") (u "{}") prose).
  - by vm_compute.
  - exists (O, templates), {[ default_template := JStr sample_templatePath ]}.
    repeat split; by vm_compute.
  - by vm_compute.
  - by vm_compute.
  - by vm_compute.
  - by vm_compute.
  - by vm_compute.
  - by vm_compute.
  - exact Hnorm.
Defined.

(** The end-to-end scenario of the specification: two numbered suggestions
    are printed as they came. *)
Example run_prints_numbered_list :
  exists p',
    run sample_configPath
      {| pwd := u "/repo" ++ [LF];
         git_diff := inl (u "+foo");
         create := fun _ =>
           ChatResponse (u "{}")
             (Message (Some (u "1. fix: add foo" ++ [LF] ++ u "2. feat: add foo"))) |}
      {| verbose := false |} None process_with_key
    = (Ok tt, p')
    /\ stdout p' = [u "1. fix: add foo" ++ [LF] ++ u "2. feat: add foo"]
    /\ stderr p' = [].
Proof. eexists. split; [by vm_compute|]. split; by vm_compute. Qed.

(** ** More on the pipeline *)

(** *** What every run does *)

Lemma silent_ret (options : RunOptions) {A} (a : A) : always (silent options) (ret a).
Proof. intros p. repeat split. exists []. by rewrite app_nil_r. Qed.

Lemma silent_get (options : RunOptions) {A} (f : process -> A) : always (silent options) (get f).
Proof. intros p. repeat split. exists []. by rewrite app_nil_r. Qed.

Lemma silent_throw (options : RunOptions) {A} (e : error) : always (silent options) (@throw A e).
Proof.
  intros p. repeat split. exists []. rewrite app_nil_r. split; [done|].
  intros _. simpl. lia.
Qed.

Lemma silent_log (options : RunOptions) (line : str) :
  always (silent options) (when_ (verbose options) (console_error line)).
Proof.
  intros p. rewrite when_log. cbn [fst snd]. destruct (verbose options) eqn:E.
  - repeat split. exists [line]. split; [done|]. intros H. congruence.
  - repeat split. exists []. by rewrite app_nil_r.
Qed.

Lemma silent_log_two (options : RunOptions) (first second : str) :
  always (silent options)
    (when_ (verbose options) (console_error first ;;; console_error second)).
Proof.
  intros p. destruct (verbose options) eqn:E.
  - repeat split. exists [first; second]. split; [|intros H; congruence].
    cbn. by rewrite <- app_assoc.
  - repeat split. exists []. by rewrite app_nil_r.
Qed.

Lemma silent_fail (options : RunOptions) {A} (line : str) :
  always (silent options) (console_error line ;;; @process_exit A 1).
Proof.
  intros p. rewrite fail_with_spec. repeat split. exists [line]. by repeat split.
Qed.

Lemma silent_bind (options : RunOptions) {A B} (m : M A) (k : A -> M B) :
  always (silent options) m -> (forall a, always (silent options) (k a)) ->
  always (silent options) (bind m k).
Proof.
  intros Hm Hk p. unfold bind. pose proof (Hm p) as H1.
  destruct (m p) as [[a|e|code] p1]; cbn [fst snd] in *; [|exact H1|exact H1].
  pose proof (Hk a p1) as H2. destruct (k a p1) as [r p2]. cbn [fst snd] in *.
  destruct H1 as (E1 & D1 & O1 & l1 & S1 & R1), H2 as (E2 & D2 & O2 & l2 & S2 & R2).
  split; [congruence|]. split; [congruence|]. split; [congruence|].
  exists (l1 ++ l2). split; [by rewrite S2, S1, app_assoc|].
  destruct r as [b|e|code].
  - intros Hq. by rewrite R1, R2.
  - intros Hq. rewrite R1 by done. by apply R2.
  - destruct R2 as (-> & Hne & Hone). split; [done|]. split.
    + intros E. by apply app_eq_nil in E as [_ ?].
    + intros Hq. rewrite R1 by done. by apply Hone.
Qed.

Lemma bind_concluded (options : RunOptions) {A} (m : M A) (k : A -> M unit) :
  always (silent options) m -> (forall a, always (concluded options) (k a)) ->
  always (concluded options) (bind m k).
Proof.
  intros Hm Hk p. unfold bind. pose proof (Hm p) as H1.
  destruct (m p) as [[a|e|code] p1]; cbn [fst snd] in *.
  - pose proof (Hk a p1) as H2. destruct (k a p1) as [r p2]. cbn [fst snd] in *.
    destruct H1 as (E1 & D1 & O1 & l1 & S1 & R1), H2 as (E2 & D2 & l2 & S2 & R2).
    split; [congruence|]. split; [congruence|].
    exists (l1 ++ l2). split; [by rewrite S2, S1, app_assoc|].
    destruct r as [b|e|code].
    + destruct R2 as ((ms & Hne & Hok & Hout) & Hq). split.
      * exists ms. split; [done|]. split; [done|]. by rewrite Hout, O1.
      * intros Hv. by rewrite R1, Hq.
    + destruct R2 as (Hout & Hq). split; [congruence|].
      intros Hv. rewrite R1 by done. by apply Hq.
    + destruct R2 as (Hout & -> & Hne & Hone). split; [congruence|]. split; [done|].
      split.
      * intros E. by apply app_eq_nil in E as [_ ?].
      * intros Hv. rewrite R1 by done. by apply Hone.
  - destruct H1 as (E1 & D1 & O1 & l1 & S1 & R1).
    split; [done|]. split; [done|]. exists l1. split; [done|]. by split.
  - destruct H1 as (E1 & D1 & O1 & l1 & S1 & -> & Hne & Hone).
    split; [done|]. split; [done|]. exists l1. split; [done|]. by repeat split.
Qed.

Lemma silent_concluded (options : RunOptions) (m : M unit) (k : M unit) :
  always (silent options) m -> always (concluded options) k ->
  always (concluded options) (m ;;; k).
Proof. intros Hm Hk. apply bind_concluded; [done|]. by intros _. Qed.

Lemma concluded_fail (options : RunOptions) (line : str) :
  always (concluded options) (console_error line ;;; process_exit 1).
Proof.
  intros p. rewrite fail_with_spec. repeat split. exists [line]. by repeat split.
Qed.

Lemma silent_readConfigFile (options : RunOptions) (configPath : str) :
  always (silent options) (readConfigFile configPath).
Proof.
  intros p. destruct (readConfigFile configPath p) as [r p1] eqn:E.
  destruct (readConfigFile_surroundings _ _ _ _ E) as (He & Hd & Ho & Hr & Hne).
  cbn [fst snd]. repeat split; try done. exists []. rewrite app_nil_r.
  split; [done|]. destruct r as [c|e|code]; [done|simpl; intros; lia|].
  by destruct (Hne code).
Qed.

Lemma silent_hasOwnProperty (options : RunOptions) (x : val) (name : str) :
  always (silent options) (hasOwnProperty x name).
Proof.
  destruct x; cbn [hasOwnProperty];
    try apply silent_throw; try apply silent_ret.
  apply silent_bind; [apply silent_get|]. intros o.
  destruct (lookup_obj o l); [apply silent_ret|apply silent_throw].
Qed.

Lemma silent_get_named (options : RunOptions) (x : val) (name : str) :
  always (silent options) (get_named x name).
Proof.
  destruct x; cbn [get_named];
    try apply silent_throw; try apply silent_ret.
  apply silent_bind; [apply silent_get|]. intros o.
  destruct (lookup_obj o l); [apply silent_ret|apply silent_throw].
Qed.

Lemma silent_resolve_template (options : RunOptions) (props : gmap str val) (templateName : option str) :
  always (silent options) (resolve_template options props templateName).
Proof.
  assert (always (silent options)
            (path <- get_named (property props templates) default_template ;;
             when_ (verbose options) (console_error (u "Using default template.")) ;;;
             ret path)) as Hdefault.
  { apply silent_bind; [apply silent_get_named|]. intros path.
    apply silent_bind; [apply silent_log|]. intros _. apply silent_ret. }
  unfold resolve_template. destruct templateName as [name|]; [|exact Hdefault].
  case_bool_decide; [exact Hdefault|].
  apply silent_bind; [apply silent_hasOwnProperty|]. intros has.
  apply silent_bind; [destruct has; [apply silent_ret|apply silent_fail]|]. intros _.
  apply silent_bind; [apply silent_get_named|]. intros path.
  apply silent_bind; [apply silent_log|]. intros _. apply silent_ret.
Qed.

Lemma silent_getStagedDiff (options : RunOptions) (ext : collaborators) :
  always (silent options) (getStagedDiff ext).
Proof.
  unfold getStagedDiff. destruct (git_diff ext) as [diff|error];
    [apply silent_ret|].
  intros p. repeat split.
  exists [u "Error getting git diff:" ++ u " " ++ inspected error].
  split; [done|]. intros _. simpl. lia.
Qed.

Lemma concluded_ask_model (options : RunOptions) (ext : collaborators) (props : gmap str val)
    (rendered_template : str) :
  always (concluded options) (ask_model ext options props rendered_template).
Proof.
  unfold ask_model. apply silent_concluded; [apply silent_log|].
  destruct (create ext _) as [error_text|dump first]; [apply concluded_fail|].
  apply silent_concluded; [apply silent_log_two|].
  destruct first as [error_text|[[|c content]|]]; try apply concluded_fail.
  destruct (length (normalizeCommitSuggestions (c :: content)) =? 0)%nat eqn:E;
    [apply concluded_fail|].
  intros p. repeat split. exists []. rewrite app_nil_r. split; [done|].
  split; [|done]. exists (normalizeCommitSuggestions (c :: content)).
  split; [|split; [apply normalize_message_ok|done]].
  intros E0. by rewrite E0 in E.
Qed.

Lemma run_concluded (configPath : str) (ext : collaborators) (options : RunOptions) (templateName : option str) :
  always (concluded options) (run configPath ext options templateName).
Proof.
  unfold run. cbv zeta.
  apply bind_concluded; [apply silent_readConfigFile|]. intros config.
  apply silent_concluded; [apply silent_log|].
  apply bind_concluded; [apply silent_get|]. intros props.
  apply bind_concluded; [apply silent_resolve_template|]. intros templateFilePath.
  apply bind_concluded.
  { destruct templateFilePath as [[]|]; try apply silent_throw. apply silent_ret. }
  intros path.
  apply bind_concluded; [apply silent_get|]. intros d.
  destruct (d !! path) as [templateFile|]; [|apply concluded_fail].
  apply silent_concluded; [apply silent_log|].
  apply silent_concluded; [apply silent_log|].
  apply silent_concluded; [apply silent_log|].
  apply silent_concluded.
  { destruct (truthy _); [apply silent_ret|apply silent_fail]. }
  apply silent_concluded.
  { destruct (truthy _); [apply silent_ret|apply silent_fail]. }
  apply bind_concluded; [apply silent_getStagedDiff|]. intros diff.
  apply silent_concluded; [apply silent_log|].
  apply silent_concluded.
  { destruct (_ =? _)%nat; [apply silent_fail|apply silent_ret]. }
  apply silent_concluded; [apply silent_log|].
  apply concluded_ask_model.
Qed.

(** *** The stages after the credentials *)

Lemma bind_throw {A B} (m : M A) (k : A -> M B) p e p' :
  m p = (Throw e, p') -> bind m k p = (Throw e, p').
Proof. intros H. unfold bind. by rewrite H. Qed.

Lemma bind_ext {A B} (m : M A) (k1 k2 : A -> M B) p :
  (forall a q, k1 a q = k2 a q) -> bind m k1 p = bind m k2 p.
Proof. intros H. unfold bind. destruct (m p) as [[a|e|code] q]; [apply H|done|done]. Qed.

Lemma quiet_stdout p q : quiet p q -> stdout q = stdout p.
Proof. by intros (_ & _ & _ & _ & _ & ?). Qed.

Lemma quiet_refl p : quiet p p.
Proof. by repeat split. Qed.

(** [run] up to the diff, when the earlier stages pass. *)
Lemma run_ready (configPath : str) (ext : collaborators) (options : RunOptions)
    (templateName : option str) p c p1 (path : str) (templateFile : file) :
  ready configPath templateName p c p1 path templateFile ->
  exists p2,
    quiet p1 p2
    /\ stdout p2 = stdout p
    /\ run configPath ext options templateName p
       = (diff <- getStagedDiff ext ;;
          when_ (verbose options)
            (console_error (u "Git diff retrieved:" ++ [LF] ++ u " " ++ diff)) ;;;
          (if (length (trim diff) =? 0)%nat
           then console_error (msg_no_changes (trim (pwd ext))) ;;; process_exit 1
           else ret tt) ;;;
          when_ (verbose options) (console_error (u "Template rendered with git diff.")) ;;;
          ask_model ext options (props_of p1 c) (render (text templateFile) diff)) p2.
Proof.
  intros (Hread & Hres & Hkey & Hmodel).
  destruct (run_after_template configPath ext options templateName p c p1 path
              templateFile Hread Hres) as (p2 & Hq & ->).
  exists p2. split; [done|]. split.
  { rewrite (quiet_stdout _ _ Hq). by eapply readConfigFile_quiet. }
  rewrite Hkey, Hmodel.
  rewrite (bind_ok (ret tt) _ p2 tt p2 eq_refl).
  by rewrite (bind_ok (ret tt) _ p2 tt p2 eq_refl).
Qed.

(** [run] up to the request, when there is a diff to send. *)
Lemma run_asks (configPath : str) (ext : collaborators) (options : RunOptions)
    (templateName : option str) p c p1 (path : str) (templateFile : file) (diff : str) :
  ready configPath templateName p c p1 path templateFile ->
  git_diff ext = inl diff ->
  trim diff <> [] ->
  exists q,
    stdout q = stdout p
    /\ run configPath ext options templateName p
       = ask_model ext options (props_of p1 c) (render (text templateFile) diff) q.
Proof.
  intros Hready Hdiff Htrim.
  destruct (run_ready configPath ext options templateName p c p1 path templateFile Hready)
    as (p2 & Hq & Hout & ->).
  assert (getStagedDiff ext p2 = (Ok diff, p2)) as Hg.
  { unfold getStagedDiff. by rewrite Hdiff. }
  rewrite (bind_ok _ _ _ _ _ Hg).
  rewrite (bind_ok _ _ _ _ _ (when_log _ _ _)).
  destruct (trim diff) as [|d0 ds] eqn:Et; [done|]. cbn [length Nat.eqb].
  rewrite (bind_ok (ret tt) _ _ tt _ eq_refl).
  rewrite (bind_ok _ _ _ _ _ (when_log _ _ _)).
  eexists. split; [|reflexivity].
  rewrite (quiet_stdout _ _ (quiet_log_if _ _ _)).
  by rewrite (quiet_stdout _ _ (quiet_log_if _ _ _)).
Qed.

(** [run] up to the request, for every model and the same repository. *)
Lemma run_asks_any_model (configPath : str) (ext : collaborators) (options : RunOptions)
    (templateName : option str) p c p1 (path : str) (templateFile : file) (diff : str) :
  ready configPath templateName p c p1 path templateFile ->
  git_diff ext = inl diff ->
  trim diff <> [] ->
  exists q,
    forall ext',
      pwd ext' = pwd ext -> git_diff ext' = git_diff ext ->
      run configPath ext' options templateName p
      = ask_model ext' options (props_of p1 c) (render (text templateFile) diff) q.
Proof.
  intros (Hread & (l & t & Hl & Ht & Hn & Hf) & Hkey & Hmodel) Hdiff Htrim.
  set (q0 := log_if (verbose options) (u "Configuration loaded successfully.") p1).
  assert (quiet p1 q0) as Hq0 by apply quiet_log_if.
  destruct (resolve_template_found options (props_of p1 c) templateName q0 l t path)
    as (q' & Hres & Hq'); [done| |done|].
  { destruct Hq0 as (_ & _ & _ & -> & _). done. }
  destruct (quiet_trans _ _ _ Hq0 Hq') as (_ & Hd & _).
  eexists. intros ext' Hpwd Hgit. unfold run.
  rewrite (bind_ok _ _ _ _ _ Hread).
  rewrite (bind_ok _ _ _ _ _ (when_log _ _ _)). fold q0.
  rewrite (bind_ok (get _) _ q0 (props_of q0 c) q0 eq_refl).
  rewrite (quiet_props_of _ _ c Hq0).
  rewrite (bind_ok _ _ _ _ _ Hres).
  rewrite (bind_ok (ret path) _ q' path q' eq_refl).
  rewrite (bind_ok (get disk) _ q' (disk q') q' eq_refl).
  rewrite Hd, Hf.
  rewrite (bind_ok _ _ _ _ _ (when_log _ _ _)).
  rewrite (bind_ok _ _ _ _ _ (when_log _ _ _)).
  rewrite (bind_ok _ _ _ _ _ (when_log _ _ _)).
  rewrite Hkey, Hmodel.
  rewrite (bind_ok (ret tt) _ _ tt _ eq_refl).
  rewrite (bind_ok (ret tt) _ _ tt _ eq_refl).
  unfold getStagedDiff. rewrite Hgit, Hdiff, Hpwd.
  rewrite (bind_ok (ret diff) _ _ diff _ eq_refl).
  rewrite (bind_ok _ _ _ _ _ (when_log _ _ _)).
  destruct (trim diff) as [|d0 ds] eqn:Et; [done|]. cbn [length Nat.eqb].
  rewrite (bind_ok (ret tt) _ _ tt _ eq_refl).
  rewrite (bind_ok _ _ _ _ _ (when_log _ _ _)).
  reflexivity.
Qed.

(** What [ask_model] does with each outcome of the request. *)
Lemma ask_model_cases (ext : collaborators) (options : RunOptions)
    (props : gmap str val) (rendered : str) p :
  exists q,
    stdout q = stdout p
    /\ ask_model ext options props rendered p
       = match create ext (request_of props rendered) with
         | ChatRejected error_text
         | ChatResponse _ (NoChoice error_text) =>
             (Exit 1, log_if true (msg_fetch_failed error_text) q)
         | ChatResponse _ (Message None)
         | ChatResponse _ (Message (Some [])) =>
             (Exit 1, log_if true msg_no_content q)
         | ChatResponse _ (Message (Some (c :: content))) =>
             if (length (normalizeCommitSuggestions (c :: content)) =? 0)%nat
             then (Exit 1, log_if true msg_unparsable q)
             else stdout_write (numbered_list (normalizeCommitSuggestions (c :: content))) q
         end.
Proof.
  unfold ask_model, request_of.
  rewrite (bind_ok _ _ _ _ _ (when_log _ _ _)).
  set (q := log_if (verbose options) (u "Sending request to OpenAI...") p).
  assert (stdout q = stdout p) as Hq by apply (quiet_stdout _ _ (quiet_log_if _ _ _)).
  destruct (create ext _) as [error_text|dump first].
  { exists q. split; [done|]. apply fail_with_spec. }
  assert (exists q', stdout q' = stdout q
            /\ when_ (verbose options)
                 (console_error (u "Response received from OpenAI.") ;;; console_error dump) q
               = (Ok tt, q')) as (q' & Hq' & Hlog).
  { destruct (verbose options); eexists; (split; [|reflexivity]); done. }
  rewrite (bind_ok _ _ _ _ _ Hlog). exists q'. split; [congruence|].
  destruct first as [error_text|[[|c content]|]]; try apply fail_with_spec.
  destruct (_ =? _)%nat; [apply fail_with_spec|done].
Qed.

(** Two runs that differ in the model only agree as long as the model is
    not asked. *)
Lemma run_before_request (configPath : str) (ext ext' : collaborators)
    (options : RunOptions) (templateName : option str) p :
  pwd ext' = pwd ext -> git_diff ext' = git_diff ext ->
  match git_diff ext with inl diff => trim diff = [] | inr _ => True end ->
  run configPath ext' options templateName p = run configPath ext options templateName p.
Proof.
  intros Hpwd Hgit Hnone. unfold run. cbv zeta. rewrite Hpwd.
  apply bind_ext. intros config q. apply bind_ext. intros _ q1.
  apply bind_ext. intros props q2. apply bind_ext. intros templateFilePath q3.
  apply bind_ext. intros path q4. apply bind_ext. intros d q5.
  destruct (d !! path) as [templateFile|]; [|done].
  apply bind_ext. intros _ q6. apply bind_ext. intros _ q7.
  apply bind_ext. intros _ q8. apply bind_ext. intros _ q9.
  apply bind_ext. intros _ q10.
  unfold getStagedDiff. rewrite Hgit. destruct (git_diff ext) as [diff|error].
  - rewrite !(bind_ok (ret diff) _ q10 diff q10 eq_refl).
    rewrite !(bind_ok _ _ _ _ _ (when_log _ _ _)). rewrite Hnone. cbn [length Nat.eqb].
    by rewrite !(bind_exit _ _ _ _ _ (fail_with_spec _ _)).
  - unfold bind, console_error, modify, throw. done.
Qed.

Section RunMore.

Variable configPath : str.
Variable ext : collaborators.

(** X17. A run never writes to the disk and never changes the
    environment, whatever its options, its collaborators and its outcome. *)
Theorem run_leaves_disk_and_environment (options : RunOptions) (templateName : option str) p :
  disk (run configPath ext options templateName p).2 = disk p
  /\ env (run configPath ext options templateName p).2 = env p.
Proof.
  destruct (run_concluded configPath ext options templateName p) as (He & Hd & _).
  by split.
Qed.

(** X18. A run that fails writes nothing to the standard output. When it
    exits, the exit code is 1 and at least one diagnostic has been written
    to the standard error before. *)
Theorem run_failure_is_silent (options : RunOptions) (templateName : option str) p :
  match run configPath ext options templateName p with
  | (Ok _, _) => True
  | (Throw _, p') => stdout p' = stdout p
  | (Exit code, p') =>
      code = 1%nat /\ stdout p' = stdout p
      /\ exists diagnostics, diagnostics <> [] /\ stderr p' = stderr p ++ diagnostics
  end.
Proof.
  pose proof (run_concluded configPath ext options templateName p) as H.
  destruct (run configPath ext options templateName p) as [[a|e|code] p'];
    cbn [fst snd] in H; [done| |].
  - by destruct H as (_ & _ & l & _ & Hout & _).
  - destruct H as (_ & _ & l & Herr & Hout & -> & Hne & _). eauto.
Qed.

(** X19. A run that returns has written to the standard output once: the
    list, numbered from 1 and joined by line feeds without a final one, of
    one or more messages, each non-empty, free of white space at its ends
    and of line terminators. *)
Theorem run_success_prints_once (options : RunOptions) (templateName : option str) p :
  match run configPath ext options templateName p with
  | (Ok _, p') =>
      exists suggestions,
        suggestions <> [] /\ Forall message_ok suggestions
        /\ stdout p' = stdout p ++ [numbered_list suggestions]
  | (Throw _, _) | (Exit _, _) => True
  end.
Proof.
  pose proof (run_concluded configPath ext options templateName p) as H.
  destruct (run configPath ext options templateName p) as [[a|e|code] p'];
    cbn [fst snd] in H; [|done|done].
  by destruct H as (_ & _ & l & _ & Hout & _).
Qed.



(** X21. The whole run, when every stage passes: the configuration loads,
    the template resolves to a file that exists, the api key and the model
    are set, something is staged, and the reply of the model holds one
    suggestion or more. The run returns, and what it writes to the standard
    output is the numbered list of the suggestions read from the reply. *)
Theorem run_prints_suggestions (options : RunOptions) (templateName : option str)
    p c p1 (path : str) (templateFile : file) (diff dump content : str) :
  ready configPath templateName p c p1 path templateFile ->
  git_diff ext = inl diff ->
  trim diff <> [] ->
  create ext (request_of (props_of p1 c) (render (text templateFile) diff))
  = ChatResponse dump (Message (Some content)) ->
  normalizeCommitSuggestions content <> [] ->
  exists p',
    run configPath ext options templateName p = (Ok tt, p')
    /\ stdout p' = stdout p ++ [numbered_list (normalizeCommitSuggestions content)].
Proof.
  intros Hready Hdiff Htrim Hreply Hsome.
  destruct (run_asks configPath ext options templateName p c p1 path templateFile diff
              Hready Hdiff Htrim) as (q & Hq & ->).
  destruct (ask_model_cases ext options (props_of p1 c)
              (render (text templateFile) diff) q) as (q' & Hq' & ->).
  rewrite Hreply. destruct content as [|c0 content]; [by rewrite normalize_nil in Hsome|].
  destruct (normalizeCommitSuggestions (c0 :: content)) as [|m ms] eqn:E; [done|].
  cbn [length Nat.eqb]. eexists. split; [reflexivity|]. cbn [stdout]. congruence.
Qed.

(** X22. With nothing staged (a diff that is empty or white space only) the
    run exits with code 1 after the diagnostic that names the directory,
    writes nothing to the standard output, and does so whatever the model
    would have answered: the request is not sent. *)
Theorem run_without_changes (options : RunOptions) (templateName : option str)
    p c p1 (path : str) (templateFile : file) (diff : str) :
  ready configPath templateName p c p1 path templateFile ->
  git_diff ext = inl diff ->
  trim diff = [] ->
  exists p',
    run configPath ext options templateName p = (Exit 1, p')
    /\ stdout p' = stdout p
    /\ last (stderr p') = Some (msg_no_changes (trim (pwd ext)))
    /\ forall create',
         run configPath {| pwd := pwd ext; git_diff := git_diff ext; create := create' |}
           options templateName p
         = (Exit 1, p').
Proof.
  intros Hready Hdiff Htrim.
  assert (exists p',
            run configPath ext options templateName p = (Exit 1, p')
            /\ stdout p' = stdout p
            /\ last (stderr p') = Some (msg_no_changes (trim (pwd ext))))
    as (p' & Hrun & Hout & Herr).
  { destruct (run_ready configPath ext options templateName p c p1 path templateFile
                Hready) as (p2 & Hq & Hout & ->).
    assert (getStagedDiff ext p2 = (Ok diff, p2)) as Hg.
    { unfold getStagedDiff. by rewrite Hdiff. }
    rewrite (bind_ok _ _ _ _ _ Hg).
    rewrite (bind_ok _ _ _ _ _ (when_log _ _ _)).
    rewrite Htrim. cbn [length Nat.eqb].
    rewrite (bind_exit _ _ _ _ _ (fail_with_spec _ _)).
    eexists. split; [reflexivity|]. cbn [log_if stdout stderr].
    split; [|by rewrite last_snoc].
    by rewrite (quiet_stdout _ _ (quiet_log_if _ _ _)). }
  exists p'. split; [done|]. split; [done|]. split; [done|].
  intros create'. rewrite <- Hrun. apply run_before_request; [done|done|].
  by rewrite Hdiff.
Qed.

(** X23. When [git diff] fails, the error is logged and thrown again, and
    [run] does not catch it: the run ends with the rejection, not with an
    exit, and writes nothing to the standard output. The diagnostic is the
    single line made of the prefix, a space and the error as the inspector of
    [console.error] prints it; the rejection carries the error itself. *)
Theorem run_git_failure (options : RunOptions) (templateName : option str)
    p c p1 (path : str) (templateFile : file) (error : git_error) :
  ready configPath templateName p c p1 path templateFile ->
  git_diff ext = inr error ->
  exists p',
    run configPath ext options templateName p
    = (Throw (Rejected (interpolated error)), p')
    /\ stdout p' = stdout p
    /\ last (stderr p')
       = Some (u "Error getting git diff:" ++ u " " ++ inspected error).
Proof.
  intros Hready Hdiff.
  destruct (run_ready configPath ext options templateName p c p1 path templateFile Hready)
    as (p2 & Hq & Hout & ->).
  assert (getStagedDiff ext p2
          = (Throw (Rejected (interpolated error)),
             log_if true (u "Error getting git diff:" ++ u " " ++ inspected error) p2))
    as Hg.
  { unfold getStagedDiff. by rewrite Hdiff. }
  rewrite (bind_throw _ _ _ _ _ Hg). eexists. split; [reflexivity|].
  cbn [log_if stdout stderr]. split; [done|]. by rewrite last_snoc.
Qed.

(** X24. When the request fails, or the response has no first choice, the
    run exits with code 1 after the diagnostic that carries the error; when
    the first choice has no content, or an empty one, it exits with code 1
    after the diagnostic that says so. Nothing reaches the standard
    output. *)
Theorem run_model_failure (options : RunOptions) (templateName : option str)
    p c p1 (path : str) (templateFile : file) (diff : str) :
  ready configPath templateName p c p1 path templateFile ->
  git_diff ext = inl diff ->
  trim diff <> [] ->
  (forall error_text,
      create ext (request_of (props_of p1 c) (render (text templateFile) diff))
      = ChatRejected error_text
      \/ (exists dump,
            create ext (request_of (props_of p1 c) (render (text templateFile) diff))
            = ChatResponse dump (NoChoice error_text)) ->
      exists p',
        run configPath ext options templateName p = (Exit 1, p')
        /\ stdout p' = stdout p
        /\ last (stderr p') = Some (msg_fetch_failed error_text))
  /\ ((exists dump,
          create ext (request_of (props_of p1 c) (render (text templateFile) diff))
          = ChatResponse dump (Message None)
          \/ create ext (request_of (props_of p1 c) (render (text templateFile) diff))
             = ChatResponse dump (Message (Some []))) ->
      exists p',
        run configPath ext options templateName p = (Exit 1, p')
        /\ stdout p' = stdout p
        /\ last (stderr p') = Some msg_no_content).
Proof.
  intros Hready Hdiff Htrim.
  destruct (run_asks configPath ext options templateName p c p1 path templateFile diff
              Hready Hdiff Htrim) as (q & Hq & ->).
  destruct (ask_model_cases ext options (props_of p1 c)
              (render (text templateFile) diff) q) as (q' & Hq' & ->).
  split.
  - intros error_text [E|[dump E]]; rewrite E; eexists; (split; [reflexivity|]);
      cbn [log_if stdout stderr]; (split; [congruence|by rewrite last_snoc]).
  - intros [dump [E|E]]; rewrite E; eexists; (split; [reflexivity|]);
      cbn [log_if stdout stderr]; (split; [congruence|by rewrite last_snoc]).
Qed.

(** X25. A configuration file that is not valid JSON stops the run at once:
    the syntax error of the parser is thrown, nothing is printed, not even
    with [verbose], and the state is left as it was. *)
Theorem run_config_syntax_error (options : RunOptions) (templateName : option str)
    p (f : file) :
  disk p !! configPath = Some f -> parsed f = None ->
  run configPath ext options templateName p = (Throw SyntaxError, p).
Proof.
  intros Hf Hj. unfold run.
  by rewrite (bind_throw _ _ _ _ _ (readConfigFile_unparsable _ _ _ Hf Hj)).
Qed.

(** X29. The model is asked one thing. When the stages before the request
    pass, the run depends on the model only through its answer to a single
    request: the one that carries the api key, the base address and the
    model of the loaded configuration, the fixed system prompt, and the
    template rendered with the staged diff. *)
Theorem run_sends_one_request (options : RunOptions) (templateName : option str)
    p c p1 (path : str) (templateFile : file) (diff : str)
    (create' : request -> chat_result) :
  ready configPath templateName p c p1 path templateFile ->
  git_diff ext = inl diff ->
  trim diff <> [] ->
  create' (request_of (props_of p1 c) (render (text templateFile) diff))
  = create ext (request_of (props_of p1 c) (render (text templateFile) diff)) ->
  run configPath {| pwd := pwd ext; git_diff := git_diff ext; create := create' |}
    options templateName p
  = run configPath ext options templateName p.
Proof.
  intros Hready Hdiff Htrim Hsame.
  destruct (run_asks_any_model configPath ext options templateName p c p1 path
              templateFile diff Hready Hdiff Htrim) as (q & Hq).
  rewrite (Hq ext eq_refl eq_refl).
  rewrite (Hq {| pwd := pwd ext; git_diff := git_diff ext; create := create' |}
             eq_refl eq_refl).
  unfold ask_model. cbn [create]. unfold request_of in Hsame. by rewrite Hsame.
Qed.

End RunMore.

Lemma run_prints_suggestions_witness :
  ready sample_configPath None process_with_key TheDefault loaded_with_key
    sample_templatePath sample_template
  /\ normalizeCommitSuggestions numbered_reply <> []
  /\ exists p',
       run sample_configPath
         (collaborators_with (inl (u "+foo"))
            (ChatResponse (u "{}") (Message (Some numbered_reply))))
         {| verbose := false |} None process_with_key = (Ok tt, p')
       /\ stdout p'
          = stdout process_with_key
            ++ [numbered_list (normalizeCommitSuggestions numbered_reply)].
Proof.
  assert (ready sample_configPath None process_with_key TheDefault loaded_with_key
            sample_templatePath sample_template) as Hready.
  { split; [by vm_compute|]. split; [|split; by vm_compute].
    exists (O, templates), {[ default_template := JStr sample_templatePath ]}.
    repeat split; by vm_compute. }
  assert (normalizeCommitSuggestions numbered_reply <> []) as Hsome by (by vm_compute).
  split; [exact Hready|]. split; [exact Hsome|].
  apply (run_prints_suggestions sample_configPath
           (collaborators_with (inl (u "+foo"))
              (ChatResponse (u "{}") (Message (Some numbered_reply))))
           {| verbose := false |} None process_with_key TheDefault loaded_with_key
           sample_templatePath sample_template (u "+foo") (u "{}") numbered_reply
           Hready eq_refl);
    [by vm_compute|done|exact Hsome].
Defined.

Lemma run_without_changes_witness :
  ready sample_configPath None process_with_key TheDefault loaded_with_key
    sample_templatePath sample_template
  /\ trim (u "  ") = []
  /\ exists p',
       run sample_configPath
         (collaborators_with (inl (u "  ")) (ChatRejected (u "offline")))
         {| verbose := false |} None process_with_key = (Exit 1, p')
       /\ stdout p' = stdout process_with_key
       /\ last (stderr p') = Some (msg_no_changes (trim (u "/repo" ++ [LF])))
       /\ forall create',
            run sample_configPath
              {| pwd := u "/repo" ++ [LF]; git_diff := inl (u "  "); create := create' |}
              {| verbose := false |} None process_with_key
            = (Exit 1, p').
Proof.
  assert (ready sample_configPath None process_with_key TheDefault loaded_with_key
            sample_templatePath sample_template) as Hready.
  { split; [by vm_compute|]. split; [|split; by vm_compute].
    exists (O, templates), {[ default_template := JStr sample_templatePath ]}.
    repeat split; by vm_compute. }
  assert (trim (u "  ") = []) as Htrim by (by vm_compute).
  split; [exact Hready|]. split; [exact Htrim|].
  exact (run_without_changes sample_configPath
           (collaborators_with (inl (u "  ")) (ChatRejected (u "offline")))
           {| verbose := false |} None process_with_key TheDefault loaded_with_key
           sample_templatePath sample_template (u "  ")
           Hready eq_refl Htrim).
Defined.

Lemma run_git_failure_witness :
  ready sample_configPath None process_with_key TheDefault loaded_with_key
    sample_templatePath sample_template
  /\ exists p',
       run sample_configPath
         (collaborators_with (inr not_a_repository) (ChatRejected (u "offline")))
         {| verbose := false |} None process_with_key
       = (Throw (Rejected (interpolated not_a_repository)), p')
       /\ stdout p' = stdout process_with_key
       /\ last (stderr p')
          = Some (u "Error getting git diff:" ++ u " " ++ inspected not_a_repository).
Proof.
  assert (ready sample_configPath None process_with_key TheDefault loaded_with_key
            sample_templatePath sample_template) as Hready.
  { split; [by vm_compute|]. split; [|split; by vm_compute].
    exists (O, templates), {[ default_template := JStr sample_templatePath ]}.
    repeat split; by vm_compute. }
  split; [exact Hready|].
  exact (run_git_failure sample_configPath
           (collaborators_with (inr not_a_repository) (ChatRejected (u "offline")))
           {| verbose := false |} None process_with_key TheDefault loaded_with_key
           sample_templatePath sample_template not_a_repository
           Hready eq_refl).
Defined.

Lemma run_model_failure_witness :
  ready sample_configPath None process_with_key TheDefault loaded_with_key
    sample_templatePath sample_template
  /\ trim (u "+foo") <> []
  /\ exists p',
       run sample_configPath
         (collaborators_with (inl (u "+foo")) (ChatRejected (u "offline")))
         {| verbose := false |} None process_with_key = (Exit 1, p')
       /\ stdout p' = stdout process_with_key
       /\ last (stderr p') = Some (msg_fetch_failed (u "offline")).
Proof.
  assert (ready sample_configPath None process_with_key TheDefault loaded_with_key
            sample_templatePath sample_template) as Hready.
  { split; [by vm_compute|]. split; [|split; by vm_compute].
    exists (O, templates), {[ default_template := JStr sample_templatePath ]}.
    repeat split; by vm_compute. }
  assert (trim (u "+foo") <> []) as Htrim by (by vm_compute).
  split; [exact Hready|]. split; [exact Htrim|].
  apply (proj1 (run_model_failure sample_configPath
                  (collaborators_with (inl (u "+foo")) (ChatRejected (u "offline")))
                  {| verbose := false |} None process_with_key TheDefault loaded_with_key
                  sample_templatePath sample_template (u "+foo")
                  Hready eq_refl Htrim) (u "offline")).
  by left.
Defined.

Lemma run_config_syntax_error_witness :
  disk (initial sample_templatePath ∅ disk_with_broken_record) !! sample_configPath
  = Some (File (u "{") None)
  /\ run sample_configPath sample_collaborators {| verbose := true |} None
       (initial sample_templatePath ∅ disk_with_broken_record)
     = (Throw SyntaxError, initial sample_templatePath ∅ disk_with_broken_record).
Proof.
  assert (disk (initial sample_templatePath ∅ disk_with_broken_record) !! sample_configPath
          = Some (File (u "{") None)) as Hf by (by vm_compute).
  split; [exact Hf|].
  exact (run_config_syntax_error sample_configPath sample_collaborators
           {| verbose := true |} None _ (File (u "{") None) Hf eq_refl).
Defined.

Lemma run_sends_one_request_witness :
  ready sample_configPath None process_with_key TheDefault loaded_with_key
    sample_templatePath sample_template
  /\ trim (u "+foo") <> []
  /\ run sample_configPath
       {| pwd := u "/repo" ++ [LF]; git_diff := inl (u "+foo");
          create := fun r =>
            if bool_decide (user_content r = u "Summarize: +foo")
            then ChatResponse (u "{}") (Message (Some numbered_reply))
            else ChatRejected (u "another request") |}
       quiet_options None process_with_key
     = run sample_configPath
         (collaborators_with (inl (u "+foo"))
            (ChatResponse (u "{}") (Message (Some numbered_reply))))
         quiet_options None process_with_key.
Proof.
  assert (ready sample_configPath None process_with_key TheDefault loaded_with_key
            sample_templatePath sample_template) as Hready.
  { split; [by vm_compute|]. split; [|split; by vm_compute].
    exists (O, templates), {[ default_template := JStr sample_templatePath ]}.
    repeat split; by vm_compute. }
  assert (trim (u "+foo") <> []) as Htrim by (by vm_compute).
  split; [exact Hready|]. split; [exact Htrim|].
  apply (run_sends_one_request sample_configPath
           (collaborators_with (inl (u "+foo"))
              (ChatResponse (u "{}") (Message (Some numbered_reply))))
           quiet_options None process_with_key TheDefault loaded_with_key
           sample_templatePath sample_template (u "+foo")
           (fun r =>
              if bool_decide (user_content r = u "Summarize: +foo")
              then ChatResponse (u "{}") (Message (Some numbered_reply))
              else ChatRejected (u "another request"))
           Hready eq_refl Htrim).
  by vm_compute.
Defined.

(** ** The second generation of the pipeline *)

(** Without [verbose] the two generations resolve the template alike. *)
Lemma resolve_template_2_quiet (props : gmap str val) (templateName : option str) :
  resolve_template_2 quiet_options props templateName
  = resolve_template quiet_options props templateName.
Proof. done. Qed.

Lemma resolve_template_quiet_found (props : gmap str val) (templateName : option str)
    (p : process) (l : loc) (t : gmap str json) (path : str) :
  props !! templates = Some (VRef l) ->
  lookup_obj (objects p) l = Some t ->
  t !! chosen templateName = Some (JStr path) ->
  resolve_template quiet_options props templateName p = (Ok (Some (JStr path)), p).
Proof.
  intros Hl Ht Hn. unfold resolve_template, chosen in *.
  rewrite (property_lookup _ _ _ Hl).
  destruct templateName as [name|]; [case_bool_decide as Hname|].
  - by rewrite (bind_ok _ _ _ _ _ (get_named_object _ _ _ _ Ht)), Hn.
  - rewrite (bind_ok _ _ _ _ _ (hasOwnProperty_object _ _ _ _ Ht)), Hn.
    rewrite bool_decide_eq_true_2 by (by eexists).
    rewrite (bind_ok (ret tt) _ p tt p eq_refl).
    by rewrite (bind_ok _ _ _ _ _ (get_named_object _ _ _ _ Ht)), Hn.
  - by rewrite (bind_ok _ _ _ _ _ (get_named_object _ _ _ _ Ht)), Hn.
Qed.

Section SecondGeneration.

Variable configPath : str.
Variable ext : collaborators.
Variable create_2 : request -> chat_result_2.

(** The second [run] up to the request, without [verbose]. *)
Lemma run_2_asks (templateName : option str) (p : process) (c : config) (p1 : process)
    (path : str) (templateFile : file)
    (diff : str) :
  ready configPath templateName p c p1 path templateFile ->
  git_diff ext = inl diff ->
  trim diff <> [] ->
  stdout p1 = stdout p /\ stderr p1 = stderr p
  /\ run_2 configPath ext create_2 quiet_options templateName p
     = ask_model_2 create_2 quiet_options (props_of p1 c)
         (render (text templateFile) diff) (log_if true msg_generating p1).
Proof.
  intros (Hread & (l & t & Hl & Ht & Hn & Hf) & Hkey & Hmodel) Hdiff Htrim.
  destruct (readConfigFile_surroundings _ _ _ _ Hread) as (_ & _ & Hout & Herr & _).
  split; [done|]. split; [done|].
  unfold run_2. rewrite (bind_ok _ _ _ _ _ Hread).
  cbn [quiet_options verbose when_ negb].
  rewrite (bind_ok (ret tt) _ p1 tt p1 eq_refl).
  rewrite (bind_ok (get _) _ p1 (props_of p1 c) p1 eq_refl).
  fold quiet_options. rewrite resolve_template_2_quiet.
  rewrite (bind_ok _ _ _ _ _
             (resolve_template_quiet_found _ templateName p1 l t path Hl Ht Hn)).
  rewrite (bind_ok (ret path) _ p1 path p1 eq_refl).
  rewrite (bind_ok (get disk) _ p1 (disk p1) p1 eq_refl). rewrite Hf.
  rewrite !(bind_ok (ret tt) _ p1 tt p1 eq_refl).
  rewrite Hkey, Hmodel.
  rewrite !(bind_ok (ret tt) _ p1 tt p1 eq_refl).
  assert (getStagedDiff ext p1 = (Ok diff, p1)) as Hg.
  { unfold getStagedDiff. by rewrite Hdiff. }
  rewrite (bind_ok _ _ _ _ _ Hg).
  rewrite (bind_ok (ret tt) _ p1 tt p1 eq_refl).
  destruct (trim diff) as [|d0 ds] eqn:Et; [done|]. cbn [length Nat.eqb].
  rewrite !(bind_ok (ret tt) _ p1 tt p1 eq_refl).
  by rewrite (bind_ok (console_error msg_generating) _ p1 tt
                (log_if true msg_generating p1) eq_refl).
Qed.

(** X26. The second generation prints the reply as it is. Without
    [verbose], when every stage before the request passes and the first
    choice has a non-empty [content], or else a non-empty
    [reasoning_content], the run returns; it has written that text,
    trimmed, and a line feed to the standard output, and the two progress
    lines to the standard error. When both are missing or empty it exits
    with code 1 and the standard output is left as it was. *)
Theorem run_2_prints_reply (templateName : option str) (p : process) (c : config)
    (p1 : process) (path : str) (templateFile : file) (diff dump : str) (message : message_2) :
  ready configPath templateName p c p1 path templateFile ->
  git_diff ext = inl diff ->
  trim diff <> [] ->
  create_2 (request_of (props_of p1 c) (render (text templateFile) diff))
  = ChatResponse_2 dump (FirstChoice_2 message) ->
  exists p',
    match content_or_reasoning message with
    | Some (c0 :: reply) =>
        run_2 configPath ext create_2 quiet_options templateName p = (Ok tt, p')
        /\ stdout p' = stdout p ++ [trim (c0 :: reply) ++ [LF]]
        /\ stderr p' = stderr p ++ [msg_generating; msg_done]
    | Some [] | None =>
        run_2 configPath ext create_2 quiet_options templateName p = (Exit 1, p')
        /\ stdout p' = stdout p
        /\ stderr p' = stderr p ++ [msg_generating; msg_no_content]
    end.
Proof.
  intros Hready Hdiff Htrim Hreply.
  destruct (run_2_asks templateName p c p1 path templateFile diff Hready Hdiff Htrim)
    as (Hout & Herr & ->).
  unfold ask_model_2. cbn [quiet_options verbose when_ negb].
  rewrite (bind_ok (ret tt) _ _ tt _ eq_refl).
  unfold request_of in Hreply. rewrite Hreply.
  rewrite (bind_ok (ret tt) _ _ tt _ eq_refl).
  destruct (content_or_reasoning message) as [[|c0 reply]|].
  - rewrite fail_with_spec. eexists. split; [reflexivity|].
    cbn [log_if stdout stderr]. split; [done|]. by rewrite Herr, <- app_assoc.
  - eexists. split; [reflexivity|]. cbn. split; [by rewrite Hout|].
    by rewrite Herr, <- app_assoc.
  - rewrite fail_with_spec. eexists. split; [reflexivity|].
    cbn [log_if stdout stderr]. split; [done|]. by rewrite Herr, <- app_assoc.
Qed.

(** X27. Without [verbose] the two generations behave alike up to
    the request: a run of the second either ends exactly as the same run
    of the first does, or both have reached the request in the same state,
    with the same configuration and the same rendered prompt, and nothing
    written yet. *)
Theorem generations_agree_before_request (templateName : option str) (p : process) :
  run_2 configPath ext create_2 quiet_options templateName p
  = run configPath ext quiet_options templateName p
  \/ exists (props : gmap str val) (rendered_template : str) q,
       stdout q = stdout p /\ stderr q = stderr p
       /\ run configPath ext quiet_options templateName p
          = ask_model ext quiet_options props rendered_template q
       /\ run_2 configPath ext create_2 quiet_options templateName p
          = (console_error msg_generating ;;;
             ask_model_2 create_2 quiet_options props rendered_template) q.
Proof.
  unfold run_2, run. cbv zeta. cbn [quiet_options verbose when_ negb].
  fold quiet_options.
  destruct (readConfigFile configPath p) as [r p1] eqn:Hread.
  destruct (readConfigFile_surroundings _ _ _ _ Hread) as (_ & _ & Hout & Herr & _).
  destruct r as [config|e|code];
    [rewrite !(bind_ok _ _ _ _ _ Hread)
    |rewrite !(bind_throw _ _ _ _ _ Hread); by left
    |rewrite !(bind_exit _ _ _ _ _ Hread); by left].
  rewrite !(bind_ok (ret tt) _ p1 tt p1 eq_refl).
  rewrite !(bind_ok (get _) _ p1 (props_of p1 config) p1 eq_refl).
  rewrite resolve_template_2_quiet.
  pose proof (silent_resolve_template quiet_options (props_of p1 config) templateName p1)
    as Hres.
  destruct (resolve_template quiet_options (props_of p1 config) templateName p1)
    as [r p2] eqn:Hresolve. cbn [fst snd] in Hres.
  destruct r as [templateFilePath|e|code];
    [rewrite !(bind_ok _ _ _ _ _ Hresolve)
    |rewrite !(bind_throw _ _ _ _ _ Hresolve); by left
    |rewrite !(bind_exit _ _ _ _ _ Hresolve); by left].
  destruct Hres as (_ & _ & Hout2 & l2 & Herr2 & Hq2).
  rewrite (Hq2 eq_refl), app_nil_r in Herr2.
  destruct templateFilePath as [[| | |path| |]|]; try (by left).
  rewrite !(bind_ok (ret path) _ p2 path p2 eq_refl).
  rewrite !(bind_ok (get disk) _ p2 (disk p2) p2 eq_refl).
  destruct (disk p2 !! path) as [templateFile|]; [|by left].
  rewrite !(bind_ok (ret tt) _ p2 tt p2 eq_refl).
  destruct (truthy (property (props_of p1 config) OPENAI_API_KEY)); [|by left].
  rewrite !(bind_ok (ret tt) _ p2 tt p2 eq_refl).
  destruct (truthy (property (props_of p1 config) model)); [|by left].
  rewrite !(bind_ok (ret tt) _ p2 tt p2 eq_refl).
  unfold getStagedDiff. destruct (git_diff ext) as [diff|error_text]; [|by left].
  rewrite !(bind_ok (ret diff) _ p2 diff p2 eq_refl).
  rewrite !(bind_ok (ret tt) _ p2 tt p2 eq_refl).
  destruct (length (trim diff) =? 0)%nat; [by left|].
  rewrite !(bind_ok (ret tt) _ p2 tt p2 eq_refl).
  right. exists (props_of p1 config), (render (text templateFile) diff), p2.
  split; [congruence|]. split; [congruence|]. by split.
Qed.

End SecondGeneration.

Lemma run_2_prints_reply_witness :
  ready sample_configPath None process_with_key TheDefault loaded_with_key
    sample_templatePath sample_template
  /\ trim (u "+foo") <> []
  /\ exists p',
       run_2 sample_configPath
         (collaborators_with (inl (u "+foo")) (ChatRejected (u "unused")))
         (fun _ => reasoning_reply) quiet_options None process_with_key = (Ok tt, p')
       /\ stdout p' = stdout process_with_key ++ [trim (u " fix: add foo ") ++ [LF]]
       /\ stderr p' = stderr process_with_key ++ [msg_generating; msg_done].
Proof.
  assert (ready sample_configPath None process_with_key TheDefault loaded_with_key
            sample_templatePath sample_template) as Hready.
  { split; [by vm_compute|]. split; [|split; by vm_compute].
    exists (O, templates), {[ default_template := JStr sample_templatePath ]}.
    repeat split; by vm_compute. }
  assert (trim (u "+foo") <> []) as Htrim by (by vm_compute).
  split; [exact Hready|]. split; [exact Htrim|].
  exact (run_2_prints_reply sample_configPath
           (collaborators_with (inl (u "+foo")) (ChatRejected (u "unused")))
           (fun _ => reasoning_reply) None process_with_key TheDefault loaded_with_key
           sample_templatePath sample_template (u "+foo") (u "{}")
           {| content := None; reasoning_content := Some (u " fix: add foo ") |}
           Hready eq_refl Htrim eq_refl).
Defined.
